(** * SHMEXO: radiation / photoionisation source terms

    A shallow embedding of the parts of SHMEXO that turn absorbed stellar
    radiation into ionisation, heating and composition change of the fluid:

    - [src/radiation/absorber/ionizing_absorber.cpp]  (module [IonizingAbsorber])
    - [src/radiation/absorber/helium_ionization.cpp]  (module [HeliumIonization])
    - [src/radiation/radiation.cpp]                   (module [Radiation])
    - [src/pgen/tripathi.cpp]                         (module [Tripathi])
    - [drum/pgen/tripathi.cpp]                        (module [Drum])

    and of the functions around them: the list of radiation bands and the
    net flux (module [RadiationBands]), the absorption coefficient, the
    initial state and the end-of-step reset of the drum problem (module
    [DrumSetup]), and the orbit, the gravity and the radiation ramp of
    [src/pgen/tripathi.cpp] (module [Gravity]).

    Athena++ computes with the type [Real], a build-time choice between
    [float] and [double].  The embedding keeps that choice open: every
    function is written against the interface [RealOps], and is translated
    statement by statement from the C++ text.  Two instances are given,

    - [R_ops]  : the mathematical reals of the Standard Library, in which
                 rounding, overflow and not-a-number do not exist; the
                 arithmetic theorems are stated at this instance;
    - [XR_ops] : the reals extended with one not-a-number element that
                 every operation propagates and every comparison rejects.

    Properties that only depend on the control flow (frame conditions, error
    paths, order of the loops) are proved for every instance. *)

From Stdlib Require Import ZArith List String Bool Lia FinFun Permutation Sorted.
From Stdlib Require Import QArith Qreals Reals Lra.
Import ListNotations.

Set Implicit Arguments.

(* ================================================================== *)
(** * The numeric interface *)
(* ================================================================== *)

(** The operations the sources apply to values of type [Real]: the four
    arithmetic operators, the comparisons, [std::isnan], the libm calls
    [pow], [exp], [sqrt], and decimal literals. *)
Class RealOps (Real : Type) : Type := {
  rq     : Q -> Real;                 (* a decimal literal of the source *)
  radd   : Real -> Real -> Real;
  rsub   : Real -> Real -> Real;
  rmul   : Real -> Real -> Real;
  rdiv   : Real -> Real -> Real;
  rneg   : Real -> Real;
  rleb   : Real -> Real -> bool;      (* x <= y *)
  rltb   : Real -> Real -> bool;      (* x <  y *)
  reqb   : Real -> Real -> bool;      (* x == y *)
  risnan : Real -> bool;              (* std::isnan *)
  rpow   : Real -> Real -> Real;      (* pow(x, y) *)
  rexp   : Real -> Real;              (* exp(x) *)
  rsqrt  : Real -> Real               (* sqrt(x) *)
}.

Declare Scope real_scope.
Delimit Scope real_scope with r.
Notation "x + y" := (radd x y) : real_scope.
Notation "x - y" := (rsub x y) : real_scope.
Notation "x * y" := (rmul x y) : real_scope.
Notation "x / y" := (rdiv x y) : real_scope.
Notation "- x" := (rneg x) : real_scope.
Notation "x <=? y" := (rleb x y) : real_scope.
Notation "x <? y" := (rltb x y) : real_scope.
Notation "x >? y" := (rltb y x) : real_scope.
Notation "x =? y" := (reqb x y) : real_scope.

(** ** Instance 1: the real numbers

    [Rpower x y] is [exp (y * ln x)]: it is [pow] where the base is
    positive, and [Rdiv] is the quotient where the divisor is not zero.
    A theorem that relies on the value or on the sign of a power, or on a
    quotient, states the positivity of the base, or that the divisor is
    not zero, among its hypotheses. *)

Definition Rleb (x y : R) : bool := if Rle_dec x y then true else false.
Definition Rltb (x y : R) : bool := if Rlt_dec x y then true else false.
Definition Reqb (x y : R) : bool := if Req_dec_T x y then true else false.

#[export] Instance R_ops : RealOps R := {
  rq := Q2R;
  radd := Rplus; rsub := Rminus; rmul := Rmult; rdiv := Rdiv; rneg := Ropp;
  rleb := Rleb; rltb := Rltb; reqb := Reqb;
  risnan := fun _ => false;
  rpow := Rpower; rexp := exp; rsqrt := sqrt
}.

(** ** Instance 2: the real numbers with a not-a-number element *)

Inductive XR : Type :=
| Fin (x : R)
| NaN.

Definition xr1 (f : R -> R) (a : XR) : XR :=
  match a with Fin x => Fin (f x) | NaN => NaN end.

Definition xr2 (f : R -> R -> R) (a b : XR) : XR :=
  match a, b with Fin x, Fin y => Fin (f x y) | _, _ => NaN end.

Definition xrcmp (f : R -> R -> bool) (a b : XR) : bool :=
  match a, b with Fin x, Fin y => f x y | _, _ => false end.

Definition xr_isnan (a : XR) : bool :=
  match a with Fin _ => false | NaN => true end.

#[export] Instance XR_ops : RealOps XR := {
  rq := fun q => Fin (Q2R q);
  radd := xr2 Rplus; rsub := xr2 Rminus; rmul := xr2 Rmult; rdiv := xr2 Rdiv;
  rneg := xr1 Ropp;
  rleb := xrcmp Rleb; rltb := xrcmp Rltb; reqb := xrcmp Reqb;
  risnan := xr_isnan;
  rpow := xr2 Rpower; rexp := xr1 exp; rsqrt := xr1 sqrt
}.

(* ================================================================== *)
(** * Fatal errors *)
(* ================================================================== *)

(** [ATHENA_ERROR(msg)] throws; nothing in the modelled code catches it.
    The diagnostic text is kept as the data streamed into it. *)
Inductive FatalError (Real : Type) : Type :=
| NanDetected (field : string) (k j i : Z) (time : Real) (ncycle : Z)
| BadCoordinateSystem (name : string)
| BadScalarCount (nscalars : Z)
| NotAscending (file : string)
| EnergyTooHigh.

Arguments BadCoordinateSystem {Real} name.
Arguments BadScalarCount {Real} nscalars.
Arguments NotAscending {Real} file.
Arguments EnergyTooHigh {Real}.

Inductive result (Real A : Type) : Type :=
| OK (a : A)
| Fatal (e : FatalError Real).

Arguments OK {Real A} a.
Arguments Fatal {Real A} e.

Definition bind {Real A B} (x : result Real A) (f : A -> result Real B)
  : result Real B :=
  match x with OK a => f a | Fatal e => Fatal e end.

Notation "x <- e ;; k" := (bind e (fun x => k))
  (at level 61, e at next level, right associativity).

(* ================================================================== *)
(** * Arrays and loops *)
(* ================================================================== *)

(** An [AthenaArray<Real>] is read and written through its indices; the
    loops of the sources stay inside the allocated extent, so an array is a
    total map from indices to values. *)
Definition Array1 (V : Type) : Type := Z -> V.
Definition Array2 (V : Type) : Type := Z -> Z -> V.
Definition Array3 (V : Type) : Type := Z -> Z -> Z -> V.
Definition Array4 (V : Type) : Type := Z -> Z -> Z -> Z -> V.

Definition set1 {V} (a : Array1 V) (i : Z) (v : V) : Array1 V :=
  fun i' => if Z.eqb i' i then v else a i'.

Definition set3 {V} (a : Array3 V) (k j i : Z) (v : V) : Array3 V :=
  fun k' j' i' =>
    if (Z.eqb k' k && Z.eqb j' j && Z.eqb i' i)%bool then v else a k' j' i'.

Definition set4 {V} (a : Array4 V) (n k j i : Z) (v : V) : Array4 V :=
  fun n' k' j' i' =>
    if (Z.eqb n' n && Z.eqb k' k && Z.eqb j' j && Z.eqb i' i)%bool
    then v else a n' k' j' i'.

(** [range lo hi] lists the values taken by [x] in
    [for (int x = lo; x <= hi; ++x)]. *)
Definition range (lo hi : Z) : list Z :=
  map (fun n => (lo + Z.of_nat n)%Z) (seq 0 (Z.to_nat (hi - lo + 1))).

(** The cells visited by three nested loops, outermost index first. *)
Definition cells3 (r1 r2 r3 : list Z) : list (Z * Z * Z) :=
  flat_map (fun a => flat_map (fun b => map (fun c => (a, b, c)) r3) r2) r1.

(** A loop body that takes its three indices as one cell. *)
Definition uncurry3 {A} (body : Z -> Z -> Z -> A) (x : Z * Z * Z) : A :=
  body (fst (fst x)) (snd (fst x)) (snd x).

(** [for (x = lo; x <= hi; ++x) body] on a state that is passed along. *)
Definition for_loop {S : Type} (lo hi : Z) (body : Z -> S -> S) (s : S) : S :=
  fold_left (fun acc x => body x acc) (range lo hi) s.

(** A loop whose body may throw: the first error ends it. *)
Fixpoint foldM {Real S X : Type} (body : X -> S -> result Real S)
    (xs : list X) (s : S) : result Real S :=
  match xs with
  | [] => OK s
  | x :: rest => s' <- body x s ;; foldM body rest s'
  end.

Definition for_loopM {Real S : Type} (lo hi : Z)
    (body : Z -> S -> result Real S) (s : S) : result Real S :=
  foldM body (range lo hi) s.

(** The indices of the hydro variables ([athena.hpp]): density, the three
    momenta or velocities, and energy or pressure. *)
Definition IDN : Z := 0.
Definition IM1 : Z := 1.
Definition IM2 : Z := 2.
Definition IM3 : Z := 3.
Definition IEN : Z := 4.
Definition IV1 : Z := IM1.
Definition IV2 : Z := IM2.
Definition IV3 : Z := IM3.
Definition IPR : Z := IEN.

(* ================================================================== *)
(** * src/radiation/absorber/ionizing_absorber.cpp *)
(* ================================================================== *)

(** The field of [Spectrum] that the absorbers read. *)
Record Spectrum (Real : Type) : Type := { wave : Real }.

Module IonizingAbsorber.
Section WithReal.
Context {Real : Type} {RO : RealOps Real}.
Local Open Scope real_scope.

(** The members that [CalculateEnergyFunctions] reads ([lambda_0], and
    [wavelength_coefficient] of the band [pmy_band]) and writes ([h], [q]). *)
Record Absorber : Type := {
  wavelength_coefficient : Real;
  lambda_0 : Real;
  h : Array1 Real;
  q : Array1 Real
}.

Definition set_h_q (ab : Absorber) (n : Z) (hn qn : Real) : Absorber :=
  {| wavelength_coefficient := wavelength_coefficient ab;
     lambda_0 := lambda_0 ab;
     h := set1 (h ab) n hn;
     q := set1 (q ab) n qn |}.

(** One turn of the loop over the spectral samples. *)
Definition CalculateEnergyFunctions_body (spec : Array1 (Spectrum Real))
    (n : Z) (ab : Absorber) : Absorber :=
  let wave := wave (spec n) * wavelength_coefficient ab in
  if wave >? lambda_0 ab then
    set_h_q ab n (rq 0.0) (rq 0.0)
  else
    let hn := wave / lambda_0 ab in
    set_h_q ab n hn (rq 1.0 - hn).

Definition CalculateEnergyFunctions (spec : Array1 (Spectrum Real))
    (nspec : Z) (ab : Absorber) : Absorber :=
  for_loop 0 (nspec - 1) (CalculateEnergyFunctions_body spec) ab.

(** The pair [(h(n), q(n))] the loop body stores at its own sample. *)
Definition partition_of (spec : Array1 (Spectrum Real)) (ab : Absorber)
    (n : Z) : Real * Real :=
  let wave := wave (spec n) * wavelength_coefficient ab in
  if wave >? lambda_0 ab then (rq 0.0, rq 0.0)
  else (wave / lambda_0 ab, rq 1.0 - wave / lambda_0 ab).

End WithReal.
End IonizingAbsorber.

(* ================================================================== *)
(** * src/radiation/absorber/helium_ionization.cpp *)
(* ================================================================== *)

(** A row of the spline table ([math/interpolation.h]): abscissa, ordinate
    and the second derivative that [spline] fills in. *)
Record float_triplet (Real : Type) : Type :=
  { tx : Real; ty : Real; tz : Real }.

Module HeliumIonization.
Section WithReal.
Context {Real : Type} {RO : RealOps Real}.
Local Open Scope real_scope.

(** The physical constants and unit factors the function reads; they are
    declared outside the file. *)
Record Constants : Type := {
  speed_of_light : Real;
  planck_constant : Real;
  eV_conversion : Real;
  ry_conversion : Real;
  mb_conversion : Real
}.

(** The interpolation routines of [math/interpolation.h], called but not
    defined in the file.  [find_place_in_table n table x il] returns the
    index it finds together with the interval width it stores through its
    [dx] pointer. *)
Variable spline :
  Z -> Array1 (float_triplet Real) -> Real -> Real -> Array1 (float_triplet Real).
Variable find_place_in_table :
  Z -> Array1 (float_triplet Real) -> Real -> Z -> Z * Real.
Variable splint : Real -> Array1 (float_triplet Real) -> Real -> Real.

(** First loop: copy the rows of the file into [file_spec] and test the
    order of the abscissae.  [file_data] is what [ReadDataTable] returned,
    [n_file] its number of rows; [file_spec] comes from [new] and holds
    whatever it held before. *)
Definition read_row (xc_file : string) (file_data : Array2 Real) (i : Z)
    (file_spec : Array1 (float_triplet Real))
    : result Real (Array1 (float_triplet Real)) :=
  let file_spec :=
    set1 file_spec i {| tx := file_data i 0%Z; ty := file_data i 1%Z;
                        tz := tz (file_spec i) |} in
  if ((0 <? i)%Z && (tx (file_spec i) <? tx (file_spec (i - 1)%Z)))%bool then
    Fatal (NotAscending xc_file)
  else
    OK file_spec.

(** Row [i] of the file starts below the row before it: the condition
    under which [read_row] throws. *)
Definition descends (file_data : Array2 Real) (i : Z) : bool :=
  ((0 <? i)%Z && (file_data i 0%Z <? file_data (i - 1)%Z 0%Z))%bool.

(** Loop invariant of the first loop: the row before the one about to be
    read has been copied. *)
Definition copied_before (file_data : Array2 Real) (lo : Z)
    (fs : Array1 (float_triplet Real)) : Prop :=
  (0 <= lo)%Z /\ ((0 < lo)%Z -> tx (fs (lo - 1)%Z) = file_data (lo - 1)%Z 0%Z).

Definition read_file_spec (xc_file : string) (file_data : Array2 Real)
    (n_file : Z) (fresh : Array1 (float_triplet Real))
    : result Real (Array1 (float_triplet Real)) :=
  for_loopM 0 (n_file - 1) (read_row xc_file file_data) fresh.

(** Second loop: one cross section per spectral sample.  The state of the
    loop is the search hint [ii] and the array [crossSection]. *)
Definition sample_energy (c : Constants) (coef : Real) (sp : Spectrum Real)
    : Real :=
  let wave := wave sp in
  let freq := speed_of_light c / (wave * coef) in
  planck_constant c * freq / eV_conversion c.

Definition cross_section_body (c : Constants) (coef : Real)
    (n_file : Z) (file_spec : Array1 (float_triplet Real))
    (spec : Array1 (Spectrum Real)) (n : Z) (st : Z * Array1 Real)
    : result Real (Z * Array1 Real) :=
  let '(ii, crossSection) := st in
  let energy := sample_energy c coef (spec n) in
  let ry := energy / ry_conversion c in
  if energy <? tx (file_spec 0%Z) then
    OK (ii, set1 crossSection n (rq 0.0))
  else if energy >? tx (file_spec (n_file - 1)%Z) then
    Fatal EnergyTooHigh
  else
    let '(ii, dx) := find_place_in_table n_file file_spec ry ii in
    let xc_mb := splint ry (fun t => file_spec (ii + t)%Z) dx in
    OK (ii, set1 crossSection n (xc_mb * mb_conversion c)).

(** The three cases of the body, as named conditions and values: the
    sample lies below the first row, beyond the last row, or is
    interpolated with the search hint [ii]. *)
Definition below (c : Constants) (coef : Real)
    (file_spec : Array1 (float_triplet Real))
    (spec : Array1 (Spectrum Real)) (n : Z) : bool :=
  sample_energy c coef (spec n) <? tx (file_spec 0%Z).

Definition beyond (c : Constants) (coef : Real) (n_file : Z)
    (file_spec : Array1 (float_triplet Real))
    (spec : Array1 (Spectrum Real)) (n : Z) : bool :=
  sample_energy c coef (spec n) >? tx (file_spec (n_file - 1)%Z).

Definition interpolated (c : Constants) (coef : Real) (n_file : Z)
    (file_spec : Array1 (float_triplet Real))
    (spec : Array1 (Spectrum Real)) (n : Z) (ii : Z) : Z * Real :=
  let ry := sample_energy c coef (spec n) / ry_conversion c in
  let '(ii, dx) := find_place_in_table n_file file_spec ry ii in
  (ii, splint ry (fun t => file_spec (ii + t)%Z) dx * mb_conversion c).

Definition out_of_domain (c : Constants) (coef : Real) (n_file : Z)
    (file_spec : Array1 (float_triplet Real))
    (spec : Array1 (Spectrum Real)) (n : Z) : bool :=
  (negb (below c coef file_spec spec n)
   && beyond c coef n_file file_spec spec n)%bool.

Definition cross_section_step (c : Constants) (coef : Real) (n_file : Z)
    (file_spec : Array1 (float_triplet Real))
    (spec : Array1 (Spectrum Real)) (n : Z) (st : Z * Array1 Real)
    : Z * Array1 Real :=
  if below c coef file_spec spec n then
    (fst st, set1 (snd st) n (rq 0.0))
  else
    let '(ii, v) := interpolated c coef n_file file_spec spec n (fst st) in
    (ii, set1 (snd st) n v).

Definition CalculateCrossSections (c : Constants) (coef : Real)
    (xc_file : string) (file_data : Array2 Real) (n_file : Z)
    (fresh : Array1 (float_triplet Real))
    (spec : Array1 (Spectrum Real)) (nspec : Z) (crossSection : Array1 Real)
    : result Real (Array1 Real) :=
  file_spec <- read_file_spec xc_file file_data n_file fresh ;;
  let file_spec := spline n_file file_spec (rq 0) (rq 0) in
  st <- for_loopM 0 (nspec - 1)
          (cross_section_body c coef n_file file_spec spec)
          ((-1)%Z, crossSection) ;;
  OK (snd st).

End WithReal.
End HeliumIonization.

(* ================================================================== *)
(** * src/radiation/radiation.cpp *)
(* ================================================================== *)

(** The index bounds of the interior of a mesh block. *)
Record Bounds : Type := {
  is_ : Z; ie : Z;
  js : Z; je : Z;
  ks : Z; ke : Z
}.

(** Cell [(k, j, i)] lies within the bounds. *)
Definition within (b : Bounds) (k j i : Z) : Prop :=
  (ks b <= k <= ke b)%Z /\ (js b <= j <= je b)%Z /\ (is_ b <= i <= ie b)%Z.

(** The cells three nested loops over the bounds visit, [k] outermost. *)
Definition cells_kji (b : Bounds) : list (Z * Z * Z) :=
  cells3 (range (ks b) (ke b)) (range (js b) (je b)) (range (is_ b) (ie b)).

Module Radiation.
Section WithReal.
Context {Real : Type} {RO : RealOps Real}.
Local Open Scope real_scope.

(** A [RadiationBand] is known to this file through one method,
    [CalculateEnergyDeposition(dflx, k, j, il, iu)], and the coordinates
    through [CellVolume(k, j, il, iu, vol)].  Both fill the entries
    [il..iu] of the scratch array they are handed, and the caller reads
    those entries only: a call is modelled as returning the filled array. *)
Variable Band : Type.
Variable CalculateEnergyDeposition : Band -> Z -> Z -> Z -> Z -> Array1 Real.
Variable CellVolume : Z -> Z -> Z -> Z -> Array1 Real.

Definition deposit_cell (dt : Real) (dflx vol : Array1 Real) (k j i : Z)
    (du : Array4 Real) : Array4 Real :=
  set4 du IEN k j i (du IEN k j i - dt * dflx i / vol i).

Definition deposit_row (b : Bounds) (dt : Real) (p : Band) (k j : Z)
    (du : Array4 Real) : Array4 Real :=
  let dflx := CalculateEnergyDeposition p k j (is_ b) (ie b) in
  let vol := CellVolume k j (is_ b) (ie b) in
  for_loop (is_ b) (ie b) (deposit_cell dt dflx vol k j) du.

Definition deposit_band (b : Bounds) (dt : Real) (du : Array4 Real)
    (p : Band) : Array4 Real :=
  for_loop (ks b) (ke b)
    (fun k => for_loop (js b) (je b) (fun j => deposit_row b dt p k j)) du.

(** [pband] is the linked list of bands, [[]] for [NULL]; [du] is the
    array the function is handed by reference. *)
Definition AddRadiationSourceTerm (pband : list Band) (b : Bounds)
    (dt : Real) (du : Array4 Real) : Array4 Real :=
  match pband with
  | [] => du
  | _ => fold_left (deposit_band b dt) pband du
  end.

End WithReal.
End Radiation.

(* ================================================================== *)
(** * drum/pgen/tripathi.cpp *)
(* ================================================================== *)

Module Drum.
Section WithReal.
Context {Real : Type} {RO : RealOps Real}.
Local Open Scope real_scope.

(** The file-scope constants the two functions below read: the mass of
    the hydrogen atom (kg), the ionisation wavelength of hydrogen (nm) and
    its ionisation energy (J). *)
Definition mh : Real := rq 1.674E-27.
Definition nm_0 : Real := rq 91.126705058.
Definition Ry : Real := rq 2.1798723611E-18.

(** [EnergyAbsorption(pabs, wave, flux, k, j, i)]: returns the part of
    [flux] handed back to the caller and adds the rest to the file-scope
    array [rad_flux_ion]. *)
Definition EnergyAbsorption (wave_to_meters_conversion : Real)
    (wave flux : Real) (k j i : Z) (rad_flux_ion : Array3 Real)
    : Real * Array3 Real :=
  let wave_nm := (wave * wave_to_meters_conversion) * rq 1e9 in
  if wave_nm >? nm_0 then
    (flux, rad_flux_ion)
  else
    let energy_fraction := rq 0.15 in
    let rad_flux_ion :=
      set3 rad_flux_ion k j i
        (rad_flux_ion k j i + (rq 1 - energy_fraction) * flux) in
    (flux * energy_fraction, rad_flux_ion).

(** What [SourceTerms] reads without writing. *)
Record Inputs : Type := {
  bounds : Bounds;
  w : Array4 Real;            (* primitive variables *)
  s : Array4 Real;            (* ps->s, scalar densities *)
  r : Array4 Real;            (* ps->r, scalar fractions *)
  prad_du : Array3 Real;      (* pmb->prad->du *)
  Rd : Real                   (* pmb->pthermo->GetRd() *)
}.

(** What [SourceTerms] writes: its arguments [du] and [ds] and the
    file-scope arrays. *)
Record State : Type := {
  du : Array4 Real;
  ds : Array4 Real;
  rad_flux_ion : Array3 Real;
  rad_eng : Array3 Real;
  ionization_rate : Array3 Real;
  recombination_rate : Array3 Real;
  recombinative_cooling : Array3 Real;
  lya_cooling : Array3 Real;
  output_du : Array3 Real
}.

(** The quantities the body of the cell loop computes before it writes. *)
Definition n_ion (inp : Inputs) (k j i : Z) : Real := s inp 1%Z k j i / mh.
Definition n_neu (inp : Inputs) (k j i : Z) : Real := s inp 0%Z k j i / mh.

Definition n_ion_gain (dt : Real) (vol : Array1 Real) (st : State)
    (k j i : Z) : Real :=
  let energy_ion := - dt * rad_flux_ion st k j i in
  energy_ion / Ry / vol i.

Definition temperature (inp : Inputs) (k j i : Z) : Real :=
  let T := w inp IPR k j i / (Rd inp * w inp IDN k j i) in
  let ion_f := r inp 1%Z k j i in
  T * (rq 1.0 - ion_f / rq 2.0).

Definition n_recomb (dt : Real) (inp : Inputs) (k j i : Z) : Real :=
  let T := temperature inp k j i in
  let alpha_B := rq 2.59E-19 * rpow (T / rq 1.0E4) (rq (-0.7)) in
  dt * alpha_B * (n_ion inp k j i * n_ion inp k j i).

Definition recomb_cooling_rate (inp : Inputs) (k j i : Z) : Real :=
  let T := temperature inp k j i in
  let kb := rq 1.3806504E-23 in
  let recomb_cooling_const := rq 6.11E-16 * rpow T (rq (-0.89)) in
  recomb_cooling_const * (kb * T) * (n_ion inp k j i * n_ion inp k j i).

Definition lya_cooling_rate (inp : Inputs) (k j i : Z) : Real :=
  let T := temperature inp k j i in
  let lya_cooling_const := rq 7.5E-32 * rexp (- rq 118348.0 / T) in
  lya_cooling_const * n_ion inp k j i * n_neu inp k j i.

(** The body of the innermost loop of [SourceTerms].  The overshoot test
    fills a message and does nothing with it. *)
Definition SourceTerms_cell (dt : Real) (inp : Inputs) (vol : Array1 Real)
    (k j i : Z) (st : State) : State :=
  let rad_eng := set3 (rad_eng st) k j i (prad_du inp k j i) in
  let n_ion_gain := n_ion_gain dt vol st k j i in
  let _msg :=
    if n_ion_gain >? n_neu inp k j i
    then Some (n_ion_gain, n_neu inp k j i) else None in
  let n_recomb := n_recomb dt inp k j i in
  let recomb_cooling_rate := recomb_cooling_rate inp k j i in
  let lya_cooling_rate := lya_cooling_rate inp k j i in
  let du := set4 (du st) IEN k j i
              (du st IEN k j i - (recomb_cooling_rate + lya_cooling_rate) * dt) in
  let ds := set4 (ds st) 0%Z k j i
              (ds st 0%Z k j i + (n_recomb - n_ion_gain) * mh) in
  let ds := set4 ds 1%Z k j i
              (ds 1%Z k j i + (- n_recomb + n_ion_gain) * mh) in
  {| du := du;
     ds := ds;
     rad_flux_ion := rad_flux_ion st;
     rad_eng := rad_eng;
     ionization_rate := set3 (ionization_rate st) k j i (n_ion_gain / dt);
     recombination_rate := set3 (recombination_rate st) k j i (n_recomb / dt);
     recombinative_cooling :=
       set3 (recombinative_cooling st) k j i recomb_cooling_rate;
     lya_cooling := set3 (lya_cooling st) k j i lya_cooling_rate;
     output_du := set3 (output_du st) k j i (du IEN k j i) |}.

(** [pcoord->CellVolume(k, j, il, iu, vol)] fills the entries [il..iu] of
    [vol] for one row; the call is modelled as returning the filled array. *)
Variable CellVolume : Z -> Z -> Z -> Z -> Array1 Real.

Definition zero_clear3 : Array3 Real := fun _ _ _ => rq 0.

Definition SourceTerms_row (dt : Real) (inp : Inputs) (k j : Z) (st : State)
    : State :=
  let b := bounds inp in
  let vol := CellVolume k j (is_ b) (ie b) in
  for_loop (is_ b) (ie b) (SourceTerms_cell dt inp vol k j) st.

Definition SourceTerms (dt : Real) (inp : Inputs) (st : State) : State :=
  let b := bounds inp in
  let st :=
    for_loop (ks b) (ke b) (fun k =>
      for_loop (js b) (je b) (fun j => SourceTerms_row dt inp k j)) st in
  {| du := du st;
     ds := ds st;
     rad_flux_ion := zero_clear3;
     rad_eng := rad_eng st;
     ionization_rate := ionization_rate st;
     recombination_rate := recombination_rate st;
     recombinative_cooling := recombinative_cooling st;
     lya_cooling := lya_cooling st;
     output_du := output_du st |}.

End WithReal.
End Drum.

(* ================================================================== *)
(** * src/pgen/tripathi.cpp *)
(* ================================================================== *)

Module Tripathi.
Section WithReal.
Context {Real : Type} {RO : RealOps Real}.
Local Open Scope real_scope.

(** [enum species {ELEC = 0, HYD = 1, HPLUS = 2}] *)
Definition ELEC : Z := 0.
Definition HYD : Z := 1.
Definition HPLUS : Z := 2.

(** Build-time configuration ([defs.hpp]). *)
Record Defs : Type := {
  COORDINATE_SYSTEM : string;
  NGHOST : Z;
  NSCALARS : Z
}.

(** The values [InitUserMeshData] reads from the input file. *)
Record ParameterInput : Type := {
  pin_G : Real;
  pin_Mp : Real;
  pin_Rp : Real;
  pin_gamma : Real;
  pin_sfloor : Real;
  pin_rho_p : Real;
  pin_cs : Real;
  pin_space_density_factor : Real;
  pin_r_replenish_Rp : Real
}.

(** The variables of the anonymous namespace that the functions below read. *)
Record Globals : Type := {
  G : Real; Mp : Real; Rp : Real;
  sfloor : Real;
  gas_gamma : Real;
  rho_p : Real; cs : Real; space_density_factor : Real;
  r_0 : Real; r_e : Real;
  rho_0 : Real; rho_e : Real;
  P_0 : Real; P_e : Real;
  r_replenish : Real
}.

Definition rho_func (g : Globals) (r : Real) : Real :=
  let gm1 := gas_gamma g - rq 1.0 in
  let K := rpow (rho_p g) (rq 1.0 - gas_gamma g) * rpow (cs g) (rq 2) in
  let rho_term_1 := gm1 / gas_gamma g * G g * Mp g / K in
  let rho_term_2 := rq 1.0 / r - rq 1.0 / Rp g in
  let rho_term_3 := rpow (rho_p g) gm1 in
  rpow (rho_term_1 * rho_term_2 + rho_term_3) (rq 1.0 / gm1).

Definition press_func (g : Globals) (rho : Real) : Real :=
  let K := rpow (rho_p g) (rq 1.0 - gas_gamma g) * rpow (cs g) (rq 2) in
  K * rpow rho (gas_gamma g).

(** The assignments of [Mesh::InitUserMeshData] to those variables, in the
    order of the source: the profile constants are computed by [rho_func]
    and [press_func] from the values already stored. *)
Definition InitUserMeshData (pin : ParameterInput) : Globals :=
  let Rp := pin_Rp pin in
  let r_0 := rq 0.5 * Rp in
  let r_e := rq 1.02 * Rp in
  let g (rho_0 rho_e P_0 P_e : Real) :=
    {| G := pin_G pin; Mp := pin_Mp pin; Rp := Rp;
       sfloor := pin_sfloor pin;
       gas_gamma := pin_gamma pin;
       rho_p := pin_rho_p pin; cs := pin_cs pin;
       space_density_factor := pin_space_density_factor pin;
       r_0 := r_0; r_e := r_e;
       rho_0 := rho_0; rho_e := rho_e; P_0 := P_0; P_e := P_e;
       r_replenish := pin_r_replenish_Rp pin * Rp |} in
  let z := rq 0 in
  let rho_0 := rho_func (g z z z z) r_0 in
  let rho_e := rho_func (g rho_0 z z z) r_e in
  let P_0 := press_func (g rho_0 rho_e z z) rho_0 in
  let P_e := press_func (g rho_0 rho_e P_0 z) rho_e in
  g rho_0 rho_e P_0 P_e.

(** The state of a mesh block that the problem generator touches, together
    with the file-scope array [initial_abundances]. *)
Record MeshBlock : Type := {
  bounds : Bounds;
  nx2 : Z; nx3 : Z;                         (* block_size *)
  x1v : Array1 Real; x2v : Array1 Real; x3v : Array1 Real;   (* pcoord *)
  w : Array4 Real; u : Array4 Real;         (* phydro *)
  s : Array4 Real; r : Array4 Real;         (* pscalars *)
  m : Array1 Real;                          (* pscalars->m, molar masses *)
  time : Real; ncycle : Z;                  (* pmy_mesh *)
  initial_abundances : Array4 Real
}.

Definition with_arrays (mb : MeshBlock) (w' u' s' r' ia' : Array4 Real)
    : MeshBlock :=
  {| bounds := bounds mb; nx2 := nx2 mb; nx3 := nx3 mb;
     x1v := x1v mb; x2v := x2v mb; x3v := x3v mb;
     w := w'; u := u'; s := s'; r := r';
     m := m mb; time := time mb; ncycle := ncycle mb;
     initial_abundances := ia' |}.

Definition getRad (d : Defs) (mb : MeshBlock) (i j k : Z)
    : result Real Real :=
  if String.eqb (COORDINATE_SYSTEM d) "cartesian" then
    let x := x1v mb i in
    let y := x2v mb j in
    let z := x3v mb k in
    OK (rsqrt (x * x + y * y + z * z))
  else if String.eqb (COORDINATE_SYSTEM d) "spherical_polar" then
    OK (x1v mb i)
  else
    Fatal (BadCoordinateSystem (COORDINATE_SYSTEM d)).

(** [getMBBounds]: the loop limits, ghost zones included in the directions
    the block extends in. *)
Definition getMBBounds (d : Defs) (mb : MeshBlock) : Bounds :=
  let b := bounds mb in
  {| is_ := is_ b - NGHOST d;
     ie := ie b + NGHOST d;
     js := if Z.eqb (nx2 mb) 1 then js b else js b - NGHOST d;
     je := if Z.eqb (nx2 mb) 1 then je b else je b + NGHOST d;
     ks := if Z.eqb (nx3 mb) 1 then ks b else ks b - NGHOST d;
     ke := if Z.eqb (nx3 mb) 1 then ke b else ke b + NGHOST d |}%Z.

(** The values [SetInitialConditions] stores through its references. *)
Record InitialConditions : Type := {
  dens : Real; press : Real;
  v1 : Real; v2 : Real; v3 : Real
}.

Definition SetInitialConditions (g : Globals) (rad : Real)
    : InitialConditions :=
  let v := rq 0 in
  if rad <=? r_0 g then
    {| dens := rho_0 g; press := P_0 g; v1 := v; v2 := v; v3 := v |}
  else if rad <=? r_e g then
    let dens := rho_func g rad in
    {| dens := dens; press := press_func g dens; v1 := v; v2 := v; v3 := v |}
  else
    {| dens := rho_e g * space_density_factor g; press := P_e g;
       v1 := v; v2 := v; v3 := v |}.

(** The body of the cell loop of [SetInitialAbundances] after the radius
    is known, on the array [initial_abundances]. *)
Definition abundances_at (d : Defs) (g : Globals) (mb : MeshBlock)
    (rad : Real) (k j i : Z) (ia : Array4 Real) : Array4 Real :=
  let minval := sfloor g / m mb ELEC in
  let ia :=
    if rad <=? r_e g then
      let ia := set4 ia HYD k j i (rq 1 / m mb HYD - minval) in
      let ia := set4 ia ELEC k j i minval in
      set4 ia HPLUS k j i minval
    else
      let ia := set4 ia HYD k j i minval in
      let ia := set4 ia ELEC k j i (rq 1 / m mb HYD - minval) in
      set4 ia HPLUS k j i (rq 1 / m mb HYD - minval) in
  for_loop 0 (NSCALARS d - 1)
    (fun n ia => set4 ia n k j i (ia n k j i * m mb n)) ia.

Definition SetInitialAbundances_cell (d : Defs) (g : Globals)
    (mb : MeshBlock) (k j i : Z) (ia : Array4 Real)
    : result Real (Array4 Real) :=
  rad <- getRad d mb i j k ;;
  OK (abundances_at d g mb rad k j i ia).

Definition SetInitialAbundances (d : Defs) (g : Globals) (mb : MeshBlock)
    (ia : Array4 Real) : result Real (Array4 Real) :=
  let b := getMBBounds d mb in
  for_loopM (ks b) (ke b) (fun k =>
    for_loopM (js b) (je b) (fun j =>
      for_loopM (is_ b) (ie b) (fun i =>
        SetInitialAbundances_cell d g mb k j i))) ia.

(** The body of the cell loop of [ProblemGenerator] after the radius is
    known, on the arrays [w] and [s]. *)
Definition generate_at (d : Defs) (g : Globals) (mb : MeshBlock)
    (rad : Real) (k j i : Z) (ws : Array4 Real * Array4 Real)
    : Array4 Real * Array4 Real :=
  let ic := SetInitialConditions g rad in
  let w := set4 (fst ws) IPR k j i (press ic) in
  let w := set4 w IDN k j i (dens ic) in
  let w := set4 w IV1 k j i (v1 ic) in
  let w := set4 w IV2 k j i (v2 ic) in
  let w := set4 w IV3 k j i (v3 ic) in
  (w,
   for_loop 0 (NSCALARS d - 1)
     (fun n s => set4 s n k j i (initial_abundances mb n k j i * dens ic))
     (snd ws)).

Definition ProblemGenerator_cell (d : Defs) (g : Globals) (mb : MeshBlock)
    (k j i : Z) (ws : Array4 Real * Array4 Real)
    : result Real (Array4 Real * Array4 Real) :=
  rad <- getRad d mb i j k ;;
  OK (generate_at d g mb rad k j i ws).

(** [peos->PrimitiveToConserved(w, bcc, u, pcoord, is, ie, js, je, ks, ke)]
    fills [u] from [w]; it belongs to the equation of state. *)
Variable PrimitiveToConserved :
  Array4 Real -> Array4 Real -> Bounds -> Array4 Real.

(** [MeshBlock::ProblemGenerator].  The two calls that follow the cell
    loop besides [PrimitiveToConserved], the radiative transfer and the
    initialisation of the reaction network, work on the radiation and
    network objects, which are not part of [MeshBlock] here. *)
Definition ProblemGenerator (d : Defs) (g : Globals) (mb : MeshBlock)
    : result Real MeshBlock :=
  if negb (Z.eqb (NSCALARS d) 3) then
    Fatal (BadScalarCount (NSCALARS d))
  else
    ia <- SetInitialAbundances d g mb (fun _ _ _ _ => rq 0) ;;
    let mb := with_arrays mb (w mb) (u mb) (s mb) (r mb) ia in
    let b := getMBBounds d mb in
    ws <- for_loopM (is_ b) (ie b) (fun i =>
            for_loopM (js b) (je b) (fun j =>
              for_loopM (ks b) (ke b) (fun k =>
                ProblemGenerator_cell d g mb k j i))) (w mb, s mb) ;;
    let '(w, s) := ws in
    let u := PrimitiveToConserved w (u mb) (bounds mb) in
    OK (with_arrays mb w u s (r mb) ia).

(** The test for not-a-number at the head of the cell loop of
    [UserWorkInLoop]: the name streamed into the message, if any. *)
Definition nan_field (mb : MeshBlock) (k j i : Z) : option string :=
  if risnan (w mb IDN k j i) then Some "dens"%string
  else if risnan (w mb IPR k j i) then Some "press"%string
  else if risnan (w mb IV1 k j i) then Some "vel1"%string
  else if risnan (w mb IV2 k j i) then Some "vel2"%string
  else if risnan (w mb IV3 k j i) then Some "vel3"%string
  else None.

(** The assignments made to a cell inside [r_replenish]. *)
Definition replenish (d : Defs) (g : Globals) (rad : Real) (k j i : Z)
    (mb : MeshBlock) : MeshBlock :=
  let gm1 := gas_gamma g - rq 1.0 in
  let ic := SetInitialConditions g rad in
  let w := set4 (w mb) IPR k j i (press ic) in
  let w := set4 w IDN k j i (dens ic) in
  let w := set4 w IV1 k j i (v1 ic) in
  let w := set4 w IV2 k j i (v2 ic) in
  let w := set4 w IV3 k j i (v3 ic) in
  let u := set4 (u mb) IEN k j i (press ic / gm1) in
  let u := set4 u IDN k j i (dens ic) in
  let u := set4 u IM1 k j i (v1 ic * dens ic) in
  let u := set4 u IM2 k j i (v2 ic * dens ic) in
  let u := set4 u IM3 k j i (v3 ic * dens ic) in
  let rs :=
    for_loop 0 (NSCALARS d - 1)
      (fun n rs =>
         (set4 (fst rs) n k j i (initial_abundances mb n k j i),
          set4 (snd rs) n k j i (initial_abundances mb n k j i * dens ic)))
      (r mb, s mb) in
  with_arrays mb w u (snd rs) (fst rs) (initial_abundances mb).

Definition UserWorkInLoop_cell (d : Defs) (g : Globals) (k j i : Z)
    (mb : MeshBlock) : result Real MeshBlock :=
  rad <- getRad d mb i j k ;;
  match nan_field mb k j i with
  | Some field => Fatal (NanDetected field k j i (time mb) (ncycle mb))
  | None =>
      if rad <=? r_replenish g then OK (replenish d g rad k j i mb)
      else OK mb
  end.

Definition UserWorkInLoop (d : Defs) (g : Globals) (mb : MeshBlock)
    : result Real MeshBlock :=
  let b := getMBBounds d mb in
  for_loopM (ks b) (ke b) (fun k =>
    for_loopM (js b) (je b) (fun j =>
      for_loopM (is_ b) (ie b) (fun i =>
        UserWorkInLoop_cell d g k j i))) mb.

(** The coordinate systems [getRad] accepts, and the radius it returns
    for them. *)
Definition supported (d : Defs) : Prop :=
  COORDINATE_SYSTEM d = "cartesian"%string \/
  COORDINATE_SYSTEM d = "spherical_polar"%string.

Definition radius (d : Defs) (mb : MeshBlock) (k j i : Z) : Real :=
  if String.eqb (COORDINATE_SYSTEM d) "cartesian" then
    rsqrt (x1v mb i * x1v mb i + x2v mb j * x2v mb j + x3v mb k * x3v mb k)
  else x1v mb i.

(** Two blocks that differ in the arrays [w], [u], [s], [r] at most. *)
Definition same_frame (mb0 mb : MeshBlock) : Prop :=
  bounds mb = bounds mb0 /\ nx2 mb = nx2 mb0 /\ nx3 mb = nx3 mb0 /\
  x1v mb = x1v mb0 /\ x2v mb = x2v mb0 /\ x3v mb = x3v mb0 /\
  m mb = m mb0 /\ time mb = time mb0 /\ ncycle mb = ncycle mb0 /\
  initial_abundances mb = initial_abundances mb0.

(** The names the diagnostic uses for the primitive variables. *)
Definition field_names : list (string * Z) :=
  [("dens"%string, IDN); ("press"%string, IPR); ("vel1"%string, IV1);
   ("vel2"%string, IV2); ("vel3"%string, IV3)].

(** What the cell loops do to a cell when [getRad] and the test for
    not-a-number let them pass. *)
Definition replenish_step (d : Defs) (g : Globals) (x : Z * Z * Z)
    (mb : MeshBlock) : MeshBlock :=
  let '(k, j, i) := x in
  let rad := radius d mb k j i in
  if rad <=? r_replenish g then replenish d g rad k j i mb else mb.

(** What a replenished cell holds afterwards in variable [n] of [w] and
    of [u], and in species [n] of [r] and of [s]; [old] is what it held
    before. *)
Definition replenished_w (ic : InitialConditions) (n : Z) (old : Real)
    : Real :=
  if Z.eqb n IV3 then v3 ic
  else if Z.eqb n IV2 then v2 ic
  else if Z.eqb n IV1 then v1 ic
  else if Z.eqb n IDN then dens ic
  else if Z.eqb n IPR then press ic
  else old.

Definition replenished_u (g : Globals) (ic : InitialConditions) (n : Z)
    (old : Real) : Real :=
  if Z.eqb n IM3 then v3 ic * dens ic
  else if Z.eqb n IM2 then v2 ic * dens ic
  else if Z.eqb n IM1 then v1 ic * dens ic
  else if Z.eqb n IDN then dens ic
  else if Z.eqb n IEN then press ic / (gas_gamma g - rq 1.0)
  else old.

Definition is_species (d : Defs) (n : Z) : bool :=
  ((0 <=? n)%Z && (n <? NSCALARS d)%Z)%bool.

Definition replenished_r (d : Defs) (mb : MeshBlock) (k j i n : Z)
    (old : Real) : Real :=
  if is_species d n then initial_abundances mb n k j i else old.

Definition replenished_s (d : Defs) (mb : MeshBlock)
    (ic : InitialConditions) (k j i n : Z) (old : Real) : Real :=
  if is_species d n then initial_abundances mb n k j i * dens ic else old.

(** The primitive variables the end-of-step check looks at. *)
Definition checked_variables : list Z := [IDN; IPR; IV1; IV2; IV3].

(** The mass fraction [SetInitialAbundances] stores for species [n] in a
    cell at radius [rad]. *)
Definition abundance (g : Globals) (mb : MeshBlock) (rad : Real) (n : Z)
    : Real :=
  let minval := sfloor g / m mb ELEC in
  let number :=
    if rad <=? r_e g then
      if Z.eqb n HYD then rq 1 / m mb HYD - minval else minval
    else
      if Z.eqb n HYD then minval else rq 1 / m mb HYD - minval in
  number * m mb n.

(** The base of the outer [pow] of [rho_func]. *)
Definition profile_base (g : Globals) (r : Real) : Real :=
  let gm1 := gas_gamma g - rq 1.0 in
  let K := rpow (rho_p g) (rq 1.0 - gas_gamma g) * rpow (cs g) (rq 2) in
  let rho_term_1 := gm1 / gas_gamma g * G g * Mp g / K in
  let rho_term_2 := rq 1.0 / r - rq 1.0 / Rp g in
  let rho_term_3 := rpow (rho_p g) gm1 in
  rho_term_1 * rho_term_2 + rho_term_3.

End WithReal.
End Tripathi.

(* ================================================================== *)
(** * Sample inputs *)
(* ================================================================== *)

(** Inputs on which the functions above are evaluated further down. *)
Module Samples.
Import IonizingAbsorber.
Local Open Scope R_scope.

(** One spectral sample that sits on the threshold wavelength. *)
Definition threshold_spec : Array1 (Spectrum R) := fun _ => {| wave := 91.2 |}.

Definition threshold_absorber : Absorber (Real := R) :=
  {| wavelength_coefficient := 1;
     lambda_0 := 91.2;
     h := fun _ => 0;
     q := fun _ => 0 |}.

(** A two-row table whose rows carry the same energy. *)
Definition flat_table : Array2 R :=
  fun i c => if Z.eqb c 0 then 24.6 else if Z.eqb i 0 then 7.4 else 7.3.

Definition blank_table : Array1 (float_triplet R) :=
  fun _ => {| tx := 0; ty := 0; tz := 0 |}.

(** A two-row table whose second row starts below the first. *)
Definition descending_table : Array2 R :=
  fun i c => if Z.eqb c 0 then (if Z.eqb i 0 then 30 else 24.6) else 7.4.

(** A two-row table in ascending order (energies in eV), the unit factors,
    and two spectra in nm: 30 nm lies inside the table, 10 nm beyond its
    last row. *)
Definition helium_table : Array2 R :=
  fun i c => if Z.eqb c 0 then (if Z.eqb i 0 then 24.6 else 100)
             else (if Z.eqb i 0 then 7.4 else 0.1).

Definition physical_constants : HeliumIonization.Constants (Real := R) :=
  {| HeliumIonization.speed_of_light := 299792458;
     HeliumIonization.planck_constant := 6.62607015e-34;
     HeliumIonization.eV_conversion := 1.602176634e-19;
     HeliumIonization.ry_conversion := 13.605693;
     HeliumIonization.mb_conversion := 1e-22 |}.

Definition inside_spec : Array1 (Spectrum R) := fun _ => {| wave := 30 |}.
Definition beyond_spec : Array1 (Spectrum R) := fun _ => {| wave := 10 |}.

(** Stand-ins for the routines of [math/interpolation.h] on a two-row
    table: [spline] leaves the rows as they are, the search returns the
    only interval, and the interpolation is linear. *)
Definition keep_rows (n : Z) (t : Array1 (float_triplet R)) (y1 yn : R)
    : Array1 (float_triplet R) := t.

Definition only_interval (n : Z) (t : Array1 (float_triplet R)) (x : R)
    (il : Z) : Z * R := (0%Z, tx (t 1%Z) - tx (t 0%Z)).

Definition linear (x : R) (t : Array1 (float_triplet R)) (dx : R) : R :=
  ty (t 0%Z) + (x - tx (t 0%Z)) / dx * (ty (t 1%Z) - ty (t 0%Z)).

(** A block of four interior cells in one dimension, two radiation bands
    that deposit 1 and 2 units of flux in every cell, cells of volume 2. *)
Definition block_1d : Bounds :=
  {| is_ := 2; ie := 5; js := 0; je := 0; ks := 0; ke := 0 |}.

Definition two_bands : list R := [1; 2].

Definition band_deposition (p : R) (k j il iu : Z) : Array1 R := fun _ => p.

Definition volume_2 (k j il iu : Z) : Array1 R := fun _ => 2.

(** One cell of unit volume that holds neutral hydrogen of density [mh]
    (one atom per unit volume) and no ions, and an absorbed flux that
    pays for two ionisations in a step [dt = 1]. *)
Definition one_cell : Bounds :=
  {| is_ := 0; ie := 0; js := 0; je := 0; ks := 0; ke := 0 |}.

Definition unit_volume (k j il iu : Z) : Array1 R := fun _ => 1.

Definition neutral_cell : Drum.Inputs (Real := R) :=
  {| Drum.bounds := one_cell;
     Drum.w := fun _ _ _ _ => 1;
     Drum.s := fun n _ _ _ => if Z.eqb n 0 then Drum.mh else 0;
     Drum.r := fun n _ _ _ => if Z.eqb n 0 then 1 else 0;
     Drum.prad_du := fun _ _ _ => 0;
     Drum.Rd := 1 |}.

Definition overshoot_state : Drum.State (Real := R) :=
  {| Drum.du := fun _ _ _ _ => 0;
     Drum.ds := fun _ _ _ _ => 0;
     Drum.rad_flux_ion := fun _ _ _ => - 2 * Drum.Ry;
     Drum.rad_eng := fun _ _ _ => 0;
     Drum.ionization_rate := fun _ _ _ => 0;
     Drum.recombination_rate := fun _ _ _ => 0;
     Drum.recombinative_cooling := fun _ _ _ => 0;
     Drum.lya_cooling := fun _ _ _ => 0;
     Drum.output_du := fun _ _ _ => 0 |}.

(** No flux absorbed for ionisation yet. *)
Definition no_flux : Array3 R := fun _ _ _ => 0.

(** A planet of radius [1e8] in spherical polar coordinates, on a
    one-dimensional block with two ghost zones on either side.  Cell
    centres are [2.5e7] apart, so the block reaches from inside the
    replenished core to outside the atmosphere. *)
Definition tripathi_defs : Tripathi.Defs :=
  {| Tripathi.COORDINATE_SYSTEM := "spherical_polar";
     Tripathi.NGHOST := 2;
     Tripathi.NSCALARS := 3 |}.

Definition planet_input : Tripathi.ParameterInput (Real := R) :=
  {| Tripathi.pin_G := 6.674e-11;
     Tripathi.pin_Mp := 1e27;
     Tripathi.pin_Rp := 1e8;
     Tripathi.pin_gamma := 1.4;
     Tripathi.pin_sfloor := 0;
     Tripathi.pin_rho_p := 1e-15;
     Tripathi.pin_cs := 3e5;
     Tripathi.pin_space_density_factor := 1e-4;
     Tripathi.pin_r_replenish_Rp := 0.75 |}.

(** Molar masses in atomic units: electron, hydrogen atom, proton. *)
Definition molar_mass : Array1 R :=
  fun n => if Z.eqb n 0 then 0.00054858
           else if Z.eqb n 1 then 1.00784 else 1.00728.

Definition planet_block : Tripathi.MeshBlock (Real := R) :=
  {| Tripathi.bounds := block_1d;
     Tripathi.nx2 := 1; Tripathi.nx3 := 1;
     Tripathi.x1v := fun i => IZR i * 2.5e7;
     Tripathi.x2v := fun _ => 0;
     Tripathi.x3v := fun _ => 0;
     Tripathi.w := fun _ _ _ _ => 1;
     Tripathi.u := fun _ _ _ _ => 1;
     Tripathi.s := fun _ _ _ _ => 0;
     Tripathi.r := fun _ _ _ _ => 0;
     Tripathi.m := molar_mass;
     Tripathi.time := 0;
     Tripathi.ncycle := 0;
     Tripathi.initial_abundances := fun _ _ _ _ => 0 |}.

Definition no_conversion (w u : Array4 R) (b : Bounds) : Array4 R := u.

(** The same block with not-a-number numerics, late in a run, with the
    first velocity of cell [i = 3] lost. *)
Definition lift_input (pin : Tripathi.ParameterInput (Real := R))
    : Tripathi.ParameterInput (Real := XR) :=
  {| Tripathi.pin_G := Fin (Tripathi.pin_G pin);
     Tripathi.pin_Mp := Fin (Tripathi.pin_Mp pin);
     Tripathi.pin_Rp := Fin (Tripathi.pin_Rp pin);
     Tripathi.pin_gamma := Fin (Tripathi.pin_gamma pin);
     Tripathi.pin_sfloor := Fin (Tripathi.pin_sfloor pin);
     Tripathi.pin_rho_p := Fin (Tripathi.pin_rho_p pin);
     Tripathi.pin_cs := Fin (Tripathi.pin_cs pin);
     Tripathi.pin_space_density_factor :=
       Fin (Tripathi.pin_space_density_factor pin);
     Tripathi.pin_r_replenish_Rp := Fin (Tripathi.pin_r_replenish_Rp pin) |}.

Definition nan_block : Tripathi.MeshBlock (Real := XR) :=
  {| Tripathi.bounds := block_1d;
     Tripathi.nx2 := 1; Tripathi.nx3 := 1;
     Tripathi.x1v := fun i => Fin (IZR i * 2.5e7);
     Tripathi.x2v := fun _ => Fin 0;
     Tripathi.x3v := fun _ => Fin 0;
     Tripathi.w := fun n _ _ i =>
       if (Z.eqb n IV1 && Z.eqb i 3)%bool then NaN else Fin 1;
     Tripathi.u := fun _ _ _ _ => Fin 1;
     Tripathi.s := fun _ _ _ _ => Fin 0;
     Tripathi.r := fun _ _ _ _ => Fin 0;
     Tripathi.m := fun n => Fin (molar_mass n);
     Tripathi.time := Fin 86400;
     Tripathi.ncycle := 1200;
     Tripathi.initial_abundances := fun _ _ _ _ => Fin 0 |}.

(** The same block with molar masses that add up: the mass of the atom
    is that of the proton plus that of the electron. *)
Definition balanced_mass : Array1 R :=
  fun n => if Z.eqb n 0 then 0.00054858
           else if Z.eqb n 1 then 1.00782505 else 1.00727647.

Definition balanced_block : Tripathi.MeshBlock (Real := R) :=
  {| Tripathi.bounds := block_1d;
     Tripathi.nx2 := 1; Tripathi.nx3 := 1;
     Tripathi.x1v := fun i => IZR i * 2.5e7;
     Tripathi.x2v := fun _ => 0;
     Tripathi.x3v := fun _ => 0;
     Tripathi.w := fun _ _ _ _ => 1;
     Tripathi.u := fun _ _ _ _ => 1;
     Tripathi.s := fun _ _ _ _ => 0;
     Tripathi.r := fun _ _ _ _ => 0;
     Tripathi.m := balanced_mass;
     Tripathi.time := 0;
     Tripathi.ncycle := 0;
     Tripathi.initial_abundances := fun _ _ _ _ => 0 |}.

End Samples.

(* ================================================================== *)
(** * src/radiation/radiation.cpp: the list of bands and the net flux *)
(* ================================================================== *)

Module RadiationBands.
Section WithReal.
Context {Real : Type} {RO : RealOps Real}.
Local Open Scope real_scope.

(** The members of a [RadiationBand] that [CalculateNetFlux] reads.  The
    member [next] is the tail of the list the band sits in: [pband] is a
    list of bands, [[]] for [NULL]. *)
Record RadiationBand : Type := {
  bflxup : Array3 Real;
  bflxdn : Array3 Real
}.

(** [Radiation::GetBand(n)].  The loop runs from the node [p] with the
    counter at [b]; it leaves with [p] when the counter meets [n] and
    with [NULL], here [None], when the list ends. *)
Fixpoint GetBand_from (p : list RadiationBand) (b n : Z)
    : option RadiationBand :=
  match p with
  | [] => None
  | band :: next =>
      if Z.eqb b n then Some band else GetBand_from next (b + 1) n
  end.

Definition GetBand (pband : list RadiationBand) (n : Z)
    : option RadiationBand :=
  GetBand_from pband 0 n.

(** [Radiation::GetNumBands()] *)
Fixpoint GetNumBands_from (p : list RadiationBand) (n : Z) : Z :=
  match p with
  | [] => n
  | _ :: next => GetNumBands_from next (n + 1)
  end.

Definition GetNumBands (pband : list RadiationBand) : Z :=
  GetNumBands_from pband 0.

(** The member [rad_flux] of [Radiation], one array per direction. *)
Record RadFlux : Type := {
  X1DIR : Array3 Real;
  X2DIR : Array3 Real;
  X3DIR : Array3 Real
}.

Definition add_net_flux (p : RadiationBand) (k j i : Z) (rf : RadFlux)
    : RadFlux :=
  {| X1DIR := set3 (X1DIR rf) k j i
                (X1DIR rf k j i + (bflxup p k j i - bflxdn p k j i));
     X2DIR := X2DIR rf;
     X3DIR := X3DIR rf |}.

(** [Radiation::CalculateNetFlux(k, j, il, iu)] *)
Definition CalculateNetFlux (pband : list RadiationBand) (k j il iu : Z)
    (rf : RadFlux) : RadFlux :=
  match pband with
  | [] => rf
  | _ => fold_left (fun rf p => for_loop il iu (add_net_flux p k j) rf)
           pband rf
  end.

(** [Radiation::ClearRadFlux()] *)
Definition ClearRadFlux (rf : RadFlux) : RadFlux :=
  {| X1DIR := fun _ _ _ => rq 0;
     X2DIR := fun _ _ _ => rq 0;
     X3DIR := fun _ _ _ => rq 0 |}.

End WithReal.
End RadiationBands.

(* ================================================================== *)
(** * drum/pgen/tripathi.cpp: absorption, initial state, end of step *)
(* ================================================================== *)

Module DrumSetup.
Section WithReal.
Context {Real : Type} {RO : RealOps Real}.
Local Open Scope real_scope.

(** The remaining file-scope constants: the photoionisation cross section
    of hydrogen at threshold (m^2), the Rydberg frequency (1/s), the speed
    of light (m/s), and the density (kg/m^3) and sound speed (m/s) at the
    surface of the planet. *)
Definition A0 : Real := rq 6.30431812E-22.
Definition nu_0 : Real := rq 3.2898419603E15.
Definition c : Real := rq 2.998E8.
Definition rho_p : Real := rq 1.0e-12.
Definition cs : Real := rq 3.0e3.

(** [AbsorptionCoefficient(pabs, wave, prim, k, j, i)]; [s] is the array
    of scalar densities the function reaches through [pabs]. *)
Definition AbsorptionCoefficient (wave_to_meters_conversion : Real)
    (s : Array4 Real) (wave : Real) (k j i : Z) : Real :=
  let freq := c / (wave * wave_to_meters_conversion) in
  let n_neutral := s 0%Z k j i / Drum.mh in
  if freq <? nu_0 then rq 0.0
  else if freq =? nu_0 then A0 * n_neutral
  else A0 * n_neutral.

(** The values [InitUserMeshData] reads from the input file for the
    initial profile. *)
Record ParameterInput : Type := {
  pin_G : Real;
  pin_Mp : Real;
  pin_Rp : Real;
  pin_gamma : Real;
  pin_sfloor : Real
}.

(** The file-scope variables the functions below read. *)
Record Globals : Type := {
  G : Real; Mp : Real; Rp : Real;
  sfloor : Real;
  gas_gamma : Real;
  r_0 : Real; r_e : Real;
  rho_0 : Real; rho_e : Real;
  P_0 : Real; P_e : Real
}.

Definition rho_func (g : Globals) (r : Real) : Real :=
  let gm1 := gas_gamma g - rq 1.0 in
  let K := rpow rho_p (rq 1.0 - gas_gamma g) * rpow cs (rq 2) in
  let rho_term_1 := gm1 / gas_gamma g * G g * Mp g / K in
  let rho_term_2 := rq 1.0 / r - rq 1.0 / Rp g in
  let rho_term_3 := rpow rho_p gm1 in
  rpow (rho_term_1 * rho_term_2 + rho_term_3) (rq 1.0 / gm1).

Definition press_func (g : Globals) (rho : Real) : Real :=
  let K := rpow rho_p (rq 1.0 - gas_gamma g) * rpow cs (rq 2) in
  K * rpow rho (gas_gamma g).

Definition InitUserMeshData (pin : ParameterInput) : Globals :=
  let Rp := pin_Rp pin in
  let r_0 := rq 0.5 * Rp in
  let r_e := rq 1.02 * Rp in
  let g (rho_0 rho_e P_0 P_e : Real) :=
    {| G := pin_G pin; Mp := pin_Mp pin; Rp := Rp;
       sfloor := pin_sfloor pin;
       gas_gamma := pin_gamma pin;
       r_0 := r_0; r_e := r_e;
       rho_0 := rho_0; rho_e := rho_e; P_0 := P_0; P_e := P_e |} in
  let z := rq 0 in
  let rho_0 := rho_func (g z z z z) r_0 in
  let rho_e := rho_func (g rho_0 z z z) r_e in
  let P_0 := press_func (g rho_0 rho_e z z) rho_0 in
  let P_e := press_func (g rho_0 rho_e P_0 z) rho_e in
  g rho_0 rho_e P_0 P_e.

(** The values [SetInitialConditions] stores through its references. *)
Record InitialConditions : Type := {
  dens : Real; press : Real; ion_f : Real;
  v1 : Real; v2 : Real; v3 : Real
}.

Definition SetInitialConditions (g : Globals) (rad : Real)
    : InitialConditions :=
  let v := rq 0 in
  if rad <=? r_0 g then
    {| dens := rho_0 g; press := P_0 g; ion_f := sfloor g;
       v1 := v; v2 := v; v3 := v |}
  else if rad <=? r_e g then
    let dens := rho_func g rad in
    {| dens := dens; press := press_func g dens; ion_f := sfloor g;
       v1 := v; v2 := v; v3 := v |}
  else
    {| dens := rho_e g * rq 1.0e-4; press := P_e g;
       ion_f := rq 1 - sfloor g;
       v1 := v; v2 := v; v3 := v |}.

Local Abbreviation Block := (Tripathi.MeshBlock (Real := Real)).

(** The body of the cell loop of [ProblemGenerator] after the radius is
    known, on the arrays [w] and [s]. *)
Definition generate_at (g : Globals) (rad : Real) (k j i : Z)
    (ws : Array4 Real * Array4 Real) : Array4 Real * Array4 Real :=
  let ic := SetInitialConditions g rad in
  let w := set4 (fst ws) IPR k j i (press ic) in
  let w := set4 w IDN k j i (dens ic) in
  let w := set4 w IV1 k j i (v1 ic) in
  let w := set4 w IV2 k j i (v2 ic) in
  let w := set4 w IV3 k j i (v3 ic) in
  let s := set4 (snd ws) 0%Z k j i ((rq 1 - ion_f ic) * dens ic) in
  let s := set4 s 1%Z k j i (ion_f ic * dens ic) in
  (w, s).

Definition ProblemGenerator_cell (d : Tripathi.Defs) (g : Globals)
    (mb : Block) (k j i : Z) (ws : Array4 Real * Array4 Real)
    : result Real (Array4 Real * Array4 Real) :=
  rad <- Tripathi.getRad d mb i j k ;;
  OK (generate_at g rad k j i ws).

Variable PrimitiveToConserved :
  Array4 Real -> Array4 Real -> Bounds -> Array4 Real.

(** [MeshBlock::ProblemGenerator] of this file, on the block of
    [Tripathi]: the coordinates, the loop limits and [getRad] are the
    same text in both files.  The file-scope arrays the function allocates
    first are those of [Drum.State]; the radiative transfer it calls after
    the cell loop works on the radiation object. *)
Definition ProblemGenerator (d : Tripathi.Defs) (g : Globals) (mb : Block)
    : result Real Block :=
  if negb (Z.eqb (Tripathi.NSCALARS d) 2) then
    Fatal (BadScalarCount (Tripathi.NSCALARS d))
  else
    let b := Tripathi.getMBBounds d mb in
    ws <- for_loopM (is_ b) (ie b) (fun i =>
            for_loopM (js b) (je b) (fun j =>
              for_loopM (ks b) (ke b) (fun k =>
                ProblemGenerator_cell d g mb k j i)))
            (Tripathi.w mb, Tripathi.s mb) ;;
    let '(w, s) := ws in
    let u := PrimitiveToConserved w (Tripathi.u mb) (Tripathi.bounds mb) in
    OK (Tripathi.with_arrays mb w u s (Tripathi.r mb)
          (Tripathi.initial_abundances mb)).

(** The assignments [UserWorkInLoop] makes to a cell inside [0.75 * Rp]. *)
Definition replenish (g : Globals) (rad : Real) (k j i : Z) (mb : Block)
    : Block :=
  let gm1 := gas_gamma g - rq 1.0 in
  let ic := SetInitialConditions g rad in
  let w := set4 (Tripathi.w mb) IPR k j i (press ic) in
  let w := set4 w IDN k j i (dens ic) in
  let w := set4 w IV1 k j i (v1 ic) in
  let w := set4 w IV2 k j i (v2 ic) in
  let w := set4 w IV3 k j i (v3 ic) in
  let u := set4 (Tripathi.u mb) IEN k j i (press ic / gm1) in
  let u := set4 u IDN k j i (dens ic) in
  let u := set4 u IM1 k j i (v1 ic * dens ic) in
  let u := set4 u IM2 k j i (v2 ic * dens ic) in
  let u := set4 u IM3 k j i (v3 ic * dens ic) in
  let s := set4 (Tripathi.s mb) 0%Z k j i ((rq 1.0 - ion_f ic) * dens ic) in
  let r := set4 (Tripathi.r mb) 0%Z k j i (rq 1.0 - ion_f ic) in
  let s := set4 s 1%Z k j i (ion_f ic * dens ic) in
  let r := set4 r 1%Z k j i (ion_f ic) in
  Tripathi.with_arrays mb w u s r (Tripathi.initial_abundances mb).

Definition UserWorkInLoop_cell (d : Tripathi.Defs) (g : Globals)
    (k j i : Z) (mb : Block) : result Real Block :=
  rad <- Tripathi.getRad d mb i j k ;;
  if rad <=? rq 0.75 * Rp g then OK (replenish g rad k j i mb)
  else OK mb.

(** [MeshBlock::UserWorkInLoop] of this file: the loops run over the
    interior of the block. *)
Definition UserWorkInLoop (d : Tripathi.Defs) (g : Globals) (mb : Block)
    : result Real Block :=
  let b := Tripathi.bounds mb in
  for_loopM (ks b) (ke b) (fun k =>
    for_loopM (js b) (je b) (fun j =>
      for_loopM (is_ b) (ie b) (fun i =>
        UserWorkInLoop_cell d g k j i))) mb.

(** What the cell loop does to a cell when [getRad] lets it pass. *)
Definition replenish_step (d : Tripathi.Defs) (g : Globals) (x : Z * Z * Z)
    (mb : Block) : Block :=
  let '(k, j, i) := x in
  let rad := Tripathi.radius d mb k j i in
  if rad <=? rq 0.75 * Rp g then replenish g rad k j i mb else mb.

(** What a cell the loop resets holds afterwards in variable [n] of [w]
    and of [u], and in species [n] of [s] and of [r]; [old] is what it
    held before. *)
Definition replenished_w (ic : InitialConditions) (n : Z) (old : Real)
    : Real :=
  if Z.eqb n IV3 then v3 ic
  else if Z.eqb n IV2 then v2 ic
  else if Z.eqb n IV1 then v1 ic
  else if Z.eqb n IDN then dens ic
  else if Z.eqb n IPR then press ic
  else old.

Definition replenished_u (g : Globals) (ic : InitialConditions) (n : Z)
    (old : Real) : Real :=
  if Z.eqb n IM3 then v3 ic * dens ic
  else if Z.eqb n IM2 then v2 ic * dens ic
  else if Z.eqb n IM1 then v1 ic * dens ic
  else if Z.eqb n IDN then dens ic
  else if Z.eqb n IEN then press ic / (gas_gamma g - rq 1.0)
  else old.

Definition replenished_s (ic : InitialConditions) (n : Z) (old : Real)
    : Real :=
  if Z.eqb n 1 then ion_f ic * dens ic
  else if Z.eqb n 0 then (rq 1.0 - ion_f ic) * dens ic
  else old.

Definition replenished_r (ic : InitialConditions) (n : Z) (old : Real)
    : Real :=
  if Z.eqb n 1 then ion_f ic
  else if Z.eqb n 0 then rq 1.0 - ion_f ic
  else old.

(** What the problem generator stores in species [n] of [s]. *)
Definition generated_s (ic : InitialConditions) (n : Z) (old : Real)
    : Real :=
  if Z.eqb n 1 then ion_f ic * dens ic
  else if Z.eqb n 0 then (rq 1 - ion_f ic) * dens ic
  else old.

End WithReal.
End DrumSetup.

(* ================================================================== *)
(** * src/pgen/tripathi.cpp: orbit, gravity and the radiation ramp *)
(* ================================================================== *)

Module Gravity.
Section WithReal.
Context {Real : Type} {RO : RealOps Real}.
Local Open Scope real_scope.

(** The variables of the anonymous namespace that [gravity_func] reads. *)
Record Globals : Type := {
  G : Real; Mp : Real; Ms : Real; Rp : Real; period : Real; a : Real
}.

(** [M_PI] of [<cmath>] *)
Definition M_PI : Real := rq 3.14159265358979323846.

(** The assignments of [Mesh::InitUserMeshData] to those variables: the
    orbital separation [a] is computed from the period, given in days. *)
Definition InitUserMeshData (pin_G pin_Mp pin_Ms pin_Rp pin_period : Real)
    : Globals :=
  let x := rq 4.0 * rpow M_PI (rq 2.0) / (pin_G * pin_Ms) in
  let a := rpow (rpow (pin_period * rq 86400.0) (rq 2.0) / x)
             (rq 1.0 / rq 3) in
  {| G := pin_G; Mp := pin_Mp; Ms := pin_Ms; Rp := pin_Rp;
     period := pin_period; a := a |}.

(** The three arrays [gravity_func] is handed by reference. *)
Record Acceleration : Type := {
  g1 : Array3 Real;
  g2 : Array3 Real;
  g3 : Array3 Real
}.

(** The position of a cell relative to the planet, its distance [r] from
    the planet and its distance [rs] from the star. *)
Record Position : Type := {
  x : Real; y : Real; z : Real; r : Real; rs : Real
}.

Local Abbreviation Block := (Tripathi.MeshBlock (Real := Real)).

Definition position (spherical_coords : bool) (g : Globals) (mb : Block)
    (k j i : Z) : Position :=
  if spherical_coords then
    let x := Tripathi.x1v mb i in
    {| x := x; y := rq 0; z := rq 0; r := x; rs := a g - x |}
  else
    let x := Tripathi.x1v mb i in
    let y := Tripathi.x2v mb j in
    let z := Tripathi.x3v mb k in
    let rsq := x * x + y * y + z * z in
    let r := rsqrt rsq in
    let rs_sq := (a g - x) * (a g - x) + y * y + z * z in
    let rs := rsqrt rs_sq in
    {| x := x; y := y; z := z; r := r; rs := rs |}.

(** The body of the cell loop of [gravity_func]. *)
Definition gravity_cell (spherical_coords : bool) (g : Globals) (mb : Block)
    (k j i : Z) (acc : Acceleration) : Acceleration :=
  let p := position spherical_coords g mb k j i in
  let r := if r p <? rq 0.5 * Rp g then rq 0.5 * Rp g else r p in
  let gp := (G g * Mp g) / rpow r (rq 3) in
  let gs := (G g * Ms g) / rpow (rs p) (rq 3) in
  let gc := (G g * Ms g) / rpow (a g) (rq 3) in
  {| g1 := set3 (g1 acc) k j i (gp * (- x p) + (gs - gc) * (a g - x p));
     g2 := set3 (g2 acc) k j i (gp * (- y p) + (gs - gc) * (- y p));
     g3 := set3 (g3 acc) k j i (gp * (- z p) + (gs - gc) * (- z p)) |}.

(** [gravity_func(pmb, g1, g2, g3)].  The flag [spherical_coords] is set
    for the two supported coordinate systems only; [unset] is the value
    the variable happens to hold otherwise. *)
Definition gravity_func (d : Tripathi.Defs) (unset : bool) (g : Globals)
    (mb : Block) (acc : Acceleration) : Acceleration :=
  let spherical_coords :=
    if String.eqb (Tripathi.COORDINATE_SYSTEM d) "cartesian" then false
    else if String.eqb (Tripathi.COORDINATE_SYSTEM d) "spherical_polar"
    then true
    else unset in
  let b := Tripathi.getMBBounds d mb in
  for_loop (ks b) (ke b) (fun k =>
    for_loop (js b) (je b) (fun j =>
      for_loop (is_ b) (ie b) (fun i =>
        gravity_cell spherical_coords g mb k j i))) acc.

(** [erf] of [<cmath>], which [RadiationTime] calls. *)
Variable erf : Real -> Real.

(** [RadiationTime(prim, time, k, j)]; [rad_scaling] is the variable of
    the anonymous namespace. *)
Definition RadiationTime (rad_scaling : Real) (time : Real) : Real :=
  let time_factor := rq 5 * erf (time / rq 8.0e4 - rq 1.5) + rq 5.1 in
  rad_scaling * time_factor.

End WithReal.
End Gravity.

(** The order in which three nested loops, [k] outermost, reach the
    cells. *)
Definition loop_before (x y : Z * Z * Z) : Prop :=
  let '(k, j, i) := x in
  let '(k', j', i') := y in
  (k < k')%Z \/ (k = k' /\ ((j < j')%Z \/ (j = j' /\ (i < i')%Z))).

(** Further inputs on which the functions above are evaluated. *)
Module MoreSamples.
Local Open Scope R_scope.

(** Two bands with net fluxes 2 and 1 in every cell, and flux arrays that
    hold 10 everywhere. *)
Definition flux_bands : list (RadiationBands.RadiationBand (Real := R)) :=
  [ {| RadiationBands.bflxup := fun _ _ _ => 3;
       RadiationBands.bflxdn := fun _ _ _ => 1 |};
    {| RadiationBands.bflxup := fun _ _ _ => 5;
       RadiationBands.bflxdn := fun _ _ _ => 4 |} ].

Definition flux_10 : RadiationBands.RadFlux (Real := R) :=
  {| RadiationBands.X1DIR := fun _ _ _ => 10;
     RadiationBands.X2DIR := fun _ _ _ => 10;
     RadiationBands.X3DIR := fun _ _ _ => 10 |}.

(** The configuration of the drum problem: two scalars. *)
Definition drum_defs : Tripathi.Defs :=
  {| Tripathi.COORDINATE_SYSTEM := "spherical_polar";
     Tripathi.NGHOST := 2;
     Tripathi.NSCALARS := 2 |}.

Definition drum_input : DrumSetup.ParameterInput (Real := R) :=
  {| DrumSetup.pin_G := 6.674e-11;
     DrumSetup.pin_Mp := 1e27;
     DrumSetup.pin_Rp := 1e8;
     DrumSetup.pin_gamma := 1.4;
     DrumSetup.pin_sfloor := 0 |}.

(** A build with a coordinate system the problem does not support. *)
Definition cylindrical_defs : Tripathi.Defs :=
  {| Tripathi.COORDINATE_SYSTEM := "cylindrical";
     Tripathi.NGHOST := 2;
     Tripathi.NSCALARS := 3 |}.

(** A build in Cartesian coordinates, and a planet at distance [1e10]
    from its star. *)
Definition cartesian_defs : Tripathi.Defs :=
  {| Tripathi.COORDINATE_SYSTEM := "cartesian";
     Tripathi.NGHOST := 2;
     Tripathi.NSCALARS := 3 |}.

Definition planet_orbit : Gravity.Globals (Real := R) :=
  {| Gravity.G := 6.674e-11; Gravity.Mp := 1e27; Gravity.Ms := 2e30;
     Gravity.Rp := 1e8; Gravity.period := 3; Gravity.a := 1e10 |}.

(** A stand-in for [erf]: odd, increasing, with values between -1 and 1. *)
Definition clamp (x : R) : R := Rmax (-1) (Rmin 1 x).

End MoreSamples.

(* ================================================================== *)
(** * Loops: general facts *)
(* ================================================================== *)

Unset Implicit Arguments.

Lemma range_In (lo hi x : Z) : In x (range lo hi) <-> (lo <= x <= hi)%Z.
Proof.
  unfold range. rewrite in_map_iff. split.
  - intros [n [Hn Hin]]. apply in_seq in Hin. lia.
  - intros Hx. exists (Z.to_nat (x - lo)). split; [lia|].
    apply in_seq. lia.
Qed.

Lemma range_NoDup (lo hi : Z) : NoDup (range lo hi).
Proof.
  unfold range. apply Injective_map_NoDup.
  - intros a b Hab. lia.
  - apply seq_NoDup.
Qed.

Lemma range_empty (lo hi : Z) : (hi < lo)%Z -> range lo hi = [].
Proof.
  intros Hlt. unfold range.
  replace (Z.to_nat (hi - lo + 1)) with 0%nat by lia. reflexivity.
Qed.

Lemma range_cons (lo hi : Z) :
  (lo <= hi)%Z -> range lo hi = lo :: range (lo + 1) hi.
Proof.
  intros Hle. unfold range.
  replace (Z.to_nat (hi - lo + 1)) with (S (Z.to_nat (hi - (lo + 1) + 1)))
    by lia.
  cbn [seq map]. f_equal; [lia|].
  rewrite <- seq_shift, map_map. apply map_ext. intros n. lia.
Qed.

Lemma cells3_In r1 r2 r3 a b c :
  In (a, b, c) (cells3 r1 r2 r3) <-> In a r1 /\ In b r2 /\ In c r3.
Proof.
  unfold cells3. rewrite in_flat_map. split.
  - intros [a' [Ha Hin]]. rewrite in_flat_map in Hin.
    destruct Hin as [b' [Hb Hin]]. rewrite in_map_iff in Hin.
    destruct Hin as [c' [Heq Hc]]. inversion Heq; subst. auto.
  - intros [Ha [Hb Hc]]. exists a. split; [exact Ha|].
    rewrite in_flat_map. exists b. split; [exact Hb|].
    rewrite in_map_iff. exists c. auto.
Qed.

Lemma NoDup_flat_map {A B} (f : A -> list B) (xs : list A) :
  NoDup xs ->
  (forall a, In a xs -> NoDup (f a)) ->
  (forall a a' b, In a xs -> In a' xs -> In b (f a) -> In b (f a') -> a = a') ->
  NoDup (flat_map f xs).
Proof.
  induction 1 as [|x xs Hx Hnd IH]; intros Hf Hdisj; cbn.
  - constructor.
  - apply NoDup_app.
    + apply Hf. now left.
    + apply IH.
      * intros a Ha. apply Hf. now right.
      * intros a a' b Ha Ha'. apply Hdisj; now right.
    + intros b Hb Hb'. apply in_flat_map in Hb'. destruct Hb' as [a [Ha Hba]].
      assert (x = a) by (apply (Hdisj x a b); auto; [now left | now right]).
      subst. contradiction.
Qed.

Lemma cells3_NoDup r1 r2 r3 :
  NoDup r1 -> NoDup r2 -> NoDup r3 -> NoDup (cells3 r1 r2 r3).
Proof.
  intros H1 H2 H3. unfold cells3. apply NoDup_flat_map; [exact H1| |].
  - intros a _. apply NoDup_flat_map; [exact H2| |].
    + intros b _. apply Injective_map_NoDup; [|exact H3].
      intros c c' Heq. now inversion Heq.
    + intros b b' [[a' b''] c] _ _ Hb Hb'.
      apply in_map_iff in Hb. apply in_map_iff in Hb'.
      destruct Hb as [? [Heq _]]. destruct Hb' as [? [Heq' _]].
      inversion Heq; inversion Heq'; subst. congruence.
  - intros a a' [[a'' b] c] _ _ Ha Ha'.
    apply in_flat_map in Ha. apply in_flat_map in Ha'.
    destruct Ha as [? [_ Ha]]. destruct Ha' as [? [_ Ha']].
    apply in_map_iff in Ha. apply in_map_iff in Ha'.
    destruct Ha as [? [Heq _]]. destruct Ha' as [? [Heq' _]].
    inversion Heq; inversion Heq'; subst. congruence.
Qed.

Lemma fold_left_flat_map {S A B} (f : S -> B -> S) (g : A -> list B)
    (xs : list A) (s : S) :
  fold_left f (flat_map g xs) s
  = fold_left (fun acc a => fold_left f (g a) acc) xs s.
Proof.
  revert s. induction xs as [|x xs IH]; intros s; cbn; [reflexivity|].
  now rewrite fold_left_app, IH.
Qed.

Lemma fold_left_map {S A B} (f : S -> B -> S) (g : A -> B)
    (xs : list A) (s : S) :
  fold_left f (map g xs) s = fold_left (fun acc a => f acc (g a)) xs s.
Proof.
  revert s. induction xs as [|x xs IH]; intros s; cbn; [reflexivity|].
  apply IH.
Qed.

Lemma fold_left_ext_in {S A} (f g : S -> A -> S) (xs : list A) (s : S) :
  (forall acc a, In a xs -> f acc a = g acc a) ->
  fold_left f xs s = fold_left g xs s.
Proof.
  revert s. induction xs as [|x xs IH]; intros s Heq; cbn; [reflexivity|].
  rewrite Heq by now left. apply IH. intros acc a Ha. apply Heq. now right.
Qed.

(** Three nested [for] loops visit [cells3] in order. *)
Lemma for_loop_nest3 {S} (l1 h1 l2 h2 l3 h3 : Z)
    (body : Z -> Z -> Z -> S -> S) (s : S) :
  for_loop l1 h1 (fun a =>
    for_loop l2 h2 (fun b => for_loop l3 h3 (body a b))) s
  = fold_left (fun acc x => uncurry3 body x acc)
      (cells3 (range l1 h1) (range l2 h2) (range l3 h3)) s.
Proof.
  unfold for_loop, cells3. rewrite fold_left_flat_map.
  apply fold_left_ext_in. intros acc1 x1 _.
  rewrite fold_left_flat_map. apply fold_left_ext_in. intros acc2 x2 _.
  now rewrite fold_left_map.
Qed.

Lemma foldM_app {Real S X} (body : X -> S -> result Real S)
    (xs ys : list X) (s : S) :
  foldM body (xs ++ ys) s = (s' <- foldM body xs s ;; foldM body ys s').
Proof.
  revert s. induction xs as [|x xs IH]; intros s; cbn; [reflexivity|].
  destruct (body x s); cbn; [apply IH | reflexivity].
Qed.

Lemma foldM_flat_map {Real S A B} (body : B -> S -> result Real S)
    (g : A -> list B) (xs : list A) (s : S) :
  foldM body (flat_map g xs) s = foldM (fun a => foldM body (g a)) xs s.
Proof.
  revert s. induction xs as [|x xs IH]; intros s; cbn; [reflexivity|].
  rewrite foldM_app. destruct (foldM body (g x) s); cbn; [apply IH | reflexivity].
Qed.

Lemma foldM_map {Real S A B} (body : B -> S -> result Real S) (g : A -> B)
    (xs : list A) (s : S) :
  foldM body (map g xs) s = foldM (fun a => body (g a)) xs s.
Proof.
  revert s. induction xs as [|x xs IH]; intros s; cbn; [reflexivity|].
  destruct (body (g x) s); cbn; [apply IH | reflexivity].
Qed.

Lemma foldM_ext_in {Real S A} (f g : A -> S -> result Real S)
    (xs : list A) (s : S) :
  (forall a acc, In a xs -> f a acc = g a acc) ->
  foldM f xs s = foldM g xs s.
Proof.
  revert s. induction xs as [|x xs IH]; intros s Heq; cbn; [reflexivity|].
  rewrite Heq by now left. destruct (g x s) as [s1|e]; cbn; [|reflexivity].
  apply IH. intros y acc Hy. apply Heq. now right.
Qed.

Lemma for_loopM_nest3 {Real S} (l1 h1 l2 h2 l3 h3 : Z)
    (body : Z -> Z -> Z -> S -> result Real S) (s : S) :
  for_loopM l1 h1 (fun a =>
    for_loopM l2 h2 (fun b => for_loopM l3 h3 (body a b))) s
  = foldM (uncurry3 body)
      (cells3 (range l1 h1) (range l2 h2) (range l3 h3)) s.
Proof.
  unfold for_loopM, cells3. rewrite foldM_flat_map.
  apply foldM_ext_in. intros x1 acc1 _.
  rewrite foldM_flat_map. apply foldM_ext_in. intros x2 acc2 _.
  now rewrite foldM_map.
Qed.

Lemma cells_kji_In (b : Bounds) (k j i : Z) :
  In (k, j, i) (cells_kji b) <-> within b k j i.
Proof.
  unfold cells_kji, within. rewrite cells3_In, !range_In. tauto.
Qed.

Lemma cells_kji_NoDup (b : Bounds) : NoDup (cells_kji b).
Proof. apply cells3_NoDup; apply range_NoDup. Qed.

Lemma cell_eq_dec (x y : Z * Z * Z) : {x = y} + {x <> y}.
Proof. repeat decide equality. Qed.

Lemma set1_same {V} (a : Array1 V) (i : Z) (v : V) : set1 a i v i = v.
Proof. unfold set1. now rewrite Z.eqb_refl. Qed.

Lemma set1_other {V} (a : Array1 V) (i i' : Z) (v : V) :
  i' <> i -> set1 a i v i' = a i'.
Proof. intros Hne. unfold set1. now apply Z.eqb_neq in Hne as ->. Qed.

Lemma set3_same {V} (a : Array3 V) (k j i : Z) (v : V) :
  set3 a k j i v k j i = v.
Proof. unfold set3. now rewrite !Z.eqb_refl. Qed.

Lemma set3_other {V} (a : Array3 V) (k j i k' j' i' : Z) (v : V) :
  (k', j', i') <> (k, j, i) -> set3 a k j i v k' j' i' = a k' j' i'.
Proof.
  intros Hne. unfold set3.
  destruct (Z.eqb_spec k' k); destruct (Z.eqb_spec j' j);
    destruct (Z.eqb_spec i' i); cbn; try reflexivity.
  subst. contradiction.
Qed.

Lemma set4_same {V} (a : Array4 V) (n k j i : Z) (v : V) :
  set4 a n k j i v n k j i = v.
Proof. unfold set4. now rewrite !Z.eqb_refl. Qed.

Lemma set4_other_cell {V} (a : Array4 V) (n k j i n' k' j' i' : Z) (v : V) :
  (k', j', i') <> (k, j, i) -> set4 a n k j i v n' k' j' i' = a n' k' j' i'.
Proof.
  intros Hne. unfold set4.
  destruct (Z.eqb_spec n' n); destruct (Z.eqb_spec k' k);
    destruct (Z.eqb_spec j' j); destruct (Z.eqb_spec i' i);
    cbn; try reflexivity.
  subst. contradiction.
Qed.

Lemma set4_same_cell {V} (a : Array4 V) (n k j i n' : Z) (v : V) :
  set4 a n k j i v n' k j i = if Z.eqb n' n then v else a n' k j i.
Proof. unfold set4. rewrite !Z.eqb_refl. now destruct (Z.eqb n' n). Qed.

Lemma set4_other_var {V} (a : Array4 V) (n k j i n' k' j' i' : Z) (v : V) :
  n' <> n -> set4 a n k j i v n' k' j' i' = a n' k' j' i'.
Proof.
  intros Hne. unfold set4. now apply Z.eqb_neq in Hne as ->.
Qed.

(** Reads of an array just written: at the written place, at another
    variable, at another cell. *)
Ltac read_set4 :=
  repeat first
    [ rewrite set4_same
    | rewrite set4_other_var
        by (assumption || discriminate || (cbv; intro; discriminate))
    | rewrite set4_other_cell by assumption ].

(** A loop whose body never throws is a plain fold. *)
Lemma foldM_total {Real S X} (body : X -> S -> result Real S)
    (step : X -> S -> S) (xs : list X) (s : S) :
  (forall x acc, In x xs -> body x acc = OK (step x acc)) ->
  foldM body xs s = OK (fold_left (fun acc x => step x acc) xs s).
Proof.
  revert s. induction xs as [|x xs IH]; intros s Hok; cbn; [reflexivity|].
  rewrite Hok by now left. cbn. apply IH. intros y acc Hy. apply Hok. now right.
Qed.

(** A loop over distinct cells whose body writes only the cell it visits:
    afterwards a visited cell holds the body's update of its first value
    and any other cell holds its first value.  [Inv] collects what the
    body reads besides the cell. *)
Section Pointwise.
Context {S X V : Type}.
Variable body : X -> S -> S.
Variable get : S -> X -> V.
Variable upd : X -> V -> V.
Variable Inv : S -> Prop.
Hypothesis Inv_body : forall x s, Inv s -> Inv (body x s).
Hypothesis get_same : forall x s, Inv s -> get (body x s) x = upd x (get s x).
Hypothesis get_other :
  forall x y s, Inv s -> y <> x -> get (body x s) y = get s y.

Lemma fold_left_Inv (xs : list X) (s : S) :
  Inv s -> Inv (fold_left (fun acc x => body x acc) xs s).
Proof.
  revert s. induction xs as [|x xs IH]; intros s Hs; cbn; auto.
Qed.

Lemma fold_left_untouched (xs : list X) (s : S) (y : X) :
  Inv s -> ~ In y xs ->
  get (fold_left (fun acc x => body x acc) xs s) y = get s y.
Proof.
  revert s. induction xs as [|x xs IH]; intros s Hs Hy; cbn; [reflexivity|].
  rewrite IH; auto.
  - apply get_other; auto. intros ->. apply Hy. now left.
  - intros Hin. apply Hy. now right.
Qed.

Lemma fold_left_visited (xs : list X) (s : S) (y : X) :
  Inv s -> NoDup xs -> In y xs ->
  get (fold_left (fun acc x => body x acc) xs s) y = upd y (get s y).
Proof.
  revert s. induction xs as [|x xs IH]; intros s Hs Hnd Hy; [destruct Hy|].
  inversion Hnd as [|? ? Hx Hnd']; subst. cbn. destruct Hy as [->|Hy].
  - rewrite fold_left_untouched; auto.
  - rewrite IH; auto. rewrite get_other; auto. intros ->. contradiction.
Qed.
End Pointwise.

(* ================================================================== *)
(** * Comparisons on the real instance *)
(* ================================================================== *)

Lemma Rleb_true (x y : R) : Rleb x y = true <-> (x <= y)%R.
Proof. unfold Rleb. destruct (Rle_dec x y); split; auto; discriminate. Qed.

Lemma Rleb_false (x y : R) : Rleb x y = false <-> (y < x)%R.
Proof.
  unfold Rleb. destruct (Rle_dec x y); split; auto; try discriminate; lra.
Qed.

Lemma Rltb_true (x y : R) : Rltb x y = true <-> (x < y)%R.
Proof. unfold Rltb. destruct (Rlt_dec x y); split; auto; discriminate. Qed.

Lemma Rltb_false (x y : R) : Rltb x y = false <-> (y <= x)%R.
Proof.
  unfold Rltb. destruct (Rlt_dec x y); split; auto; try discriminate; lra.
Qed.

(* ================================================================== *)
(** * Energy partition of an ionizing absorber *)
(* ================================================================== *)

Section EnergyFunctions.
Import IonizingAbsorber.
Context {Real : Type} {RO : RealOps Real}.
Local Open Scope real_scope.

Variable spec : Array1 (Spectrum Real).

Lemma CalculateEnergyFunctions_at (nspec : Z) (ab : Absorber) (n : Z) :
  (0 <= n < nspec)%Z ->
  let ab' := CalculateEnergyFunctions spec nspec ab in
  (h ab' n, q ab' n) = partition_of spec ab n.
Proof.
  intros Hn ab'. subst ab'. unfold CalculateEnergyFunctions, for_loop.
  rewrite (fold_left_visited
             (CalculateEnergyFunctions_body spec)
             (fun a m => (h a m, q a m))
             (fun m _ => partition_of spec ab m)
             (fun a => wavelength_coefficient a = wavelength_coefficient ab
                       /\ lambda_0 a = lambda_0 ab)).
  - reflexivity.
  - intros x s [Hc Hl]. unfold CalculateEnergyFunctions_body.
    destruct (_ >? _); cbn; auto.
  - intros x s [Hc Hl].
    unfold CalculateEnergyFunctions_body, partition_of. rewrite Hc, Hl.
    destruct (_ >? _); cbn; now rewrite !set1_same.
  - intros x y s _ Hne. unfold CalculateEnergyFunctions_body.
    destruct (_ >? _); cbn; now rewrite !set1_other.
  - auto.
  - apply range_NoDup.
  - apply range_In. lia.
Qed.

Lemma CalculateEnergyFunctions_outside (nspec : Z) (ab : Absorber) (n : Z) :
  ~ (0 <= n < nspec)%Z ->
  let ab' := CalculateEnergyFunctions spec nspec ab in
  h ab' n = h ab n /\ q ab' n = q ab n.
Proof.
  intros Hn ab'. subst ab'. unfold CalculateEnergyFunctions, for_loop.
  assert (Hpair :
    (fun a m => (h a m, q a m))
      (fold_left (fun acc x => CalculateEnergyFunctions_body spec x acc)
         (range 0 (nspec - 1)) ab) n = (h ab n, q ab n)).
  { apply (fold_left_untouched
             (CalculateEnergyFunctions_body spec)
             (fun a m => (h a m, q a m)) (fun _ => True)); auto.
    - intros x y s _ Hne. unfold CalculateEnergyFunctions_body.
      destruct (_ >? _); cbn; now rewrite !set1_other.
    - rewrite range_In. lia. }
  cbn in Hpair. now inversion Hpair.
Qed.

End EnergyFunctions.

Section EnergyFunctionsR.
Import IonizingAbsorber.
Local Open Scope R_scope.

Lemma partition_of_R (spec : Array1 (Spectrum R)) (ab : Absorber) (n : Z) :
  let wv := wave (spec n) * wavelength_coefficient ab in
  partition_of spec ab n
  = if Rlt_dec (lambda_0 ab) wv then (0, 0)
    else (wv / lambda_0 ab, 1 - wv / lambda_0 ab).
Proof.
  unfold partition_of. cbn. unfold Rltb, Q2R. cbn.
  destruct (Rlt_dec _ _); f_equal; lra.
Qed.

(** C2 (as amended).  For every spectral sample [n] of an ionizing
    absorber, with [wv] the sample's wavelength scaled by the band's
    wavelength coefficient: if [wv] is strictly above the threshold
    wavelength then [h(n) = q(n) = 0]; otherwise [h(n) = wv / lambda_0] and
    [q(n) = 1 - h(n)].  In particular a sample on a non-zero threshold gets
    [h = 1, q = 0], and a sample at half a positive threshold gets
    [h = q = 1/2]. *)
Theorem CalculateEnergyFunctions_partition
    (spec : Array1 (Spectrum R)) (nspec : Z) (ab : Absorber) (n : Z) :
  (0 <= n < nspec)%Z ->
  let ab' := CalculateEnergyFunctions spec nspec ab in
  let wv := wave (spec n) * wavelength_coefficient ab in
  (wv > lambda_0 ab -> h ab' n = 0 /\ q ab' n = 0) /\
  (wv <= lambda_0 ab ->
     h ab' n = wv / lambda_0 ab /\ q ab' n = 1 - h ab' n) /\
  (wv = lambda_0 ab -> lambda_0 ab <> 0 -> h ab' n = 1 /\ q ab' n = 0) /\
  (wv = lambda_0 ab / 2 -> 0 < lambda_0 ab ->
     h ab' n = 1 / 2 /\ q ab' n = 1 / 2).
Proof.
  intros Hn ab' wv.
  pose proof (CalculateEnergyFunctions_at spec nspec ab n Hn) as Hat.
  cbv zeta in Hat. fold ab' in Hat. rewrite partition_of_R in Hat.
  cbv zeta in Hat. fold wv in Hat.
  destruct (Rlt_dec (lambda_0 ab) wv) as [Hgt|Hle];
    inversion Hat as [[Hh Hq]]; clear Hat.
  - repeat split; intros; lra.
  - split; [intros; lra|]. split; [intros; split; lra|]. split.
    + intros Heq Hnz.
      assert (Hone : wv / lambda_0 ab = 1) by (rewrite Heq; now field).
      split; lra.
    + intros Heq Hpos.
      assert (Hhalf : wv / lambda_0 ab = 1 / 2) by (rewrite Heq; field; lra).
      split; lra.
Qed.

(** The theorem applied to a sample at half the threshold wavelength. *)
Lemma CalculateEnergyFunctions_partition_witness :
  (0 <= 0 < 1)%Z /\
  h (CalculateEnergyFunctions
       (fun _ => {| wave := 45.6 |}) 1 Samples.threshold_absorber) 0%Z = 1 / 2.
Proof.
  split; [lia|].
  apply (CalculateEnergyFunctions_partition
           (fun _ => {| wave := 45.6 |}) 1 Samples.threshold_absorber 0);
    cbn; lra || lia.
Defined.

(** C2, counterexample.  A sample whose wavelength equals the threshold
    is "at or above" it, yet the code stores [h = 1], not [h = q = 0]. *)
Lemma CalculateEnergyFunctions_at_threshold_nonzero :
  let ab' :=
    CalculateEnergyFunctions Samples.threshold_spec 1
      Samples.threshold_absorber in
  wave (Samples.threshold_spec 0%Z)
    * wavelength_coefficient Samples.threshold_absorber
    >= lambda_0 Samples.threshold_absorber
  /\ h ab' 0%Z = 1
  /\ ~ (h ab' 0%Z = 0 /\ q ab' 0%Z = 0).
Proof.
  intros ab'.
  assert (Hn : (0 <= 0 < 1)%Z) by lia.
  pose proof (CalculateEnergyFunctions_at Samples.threshold_spec 1
                Samples.threshold_absorber 0 Hn) as Hat.
  cbv zeta in Hat. fold ab' in Hat. clearbody ab'.
  rewrite partition_of_R in Hat. cbn in Hat.
  destruct (Rlt_dec _ _) as [Hgt|Hle]; [lra|].
  inversion Hat as [[Hh Hq]].
  split; [cbn; lra|]. split; [lra|]. intros [H0 _]. lra.
Qed.

End EnergyFunctionsR.

(* ================================================================== *)
(** * The cross-section table *)
(* ================================================================== *)

Lemma first_true {X} (P : X -> bool) (xs : list X) :
  (exists x, In x xs /\ P x = true) ->
  exists pre x post,
    xs = pre ++ x :: post /\ P x = true /\ forall y, In y pre -> P y = false.
Proof.
  induction xs as [|a xs IH]; intros [x [Hin HP]]; [destruct Hin|].
  destruct (P a) eqn:Ha.
  - exists [], a, xs. repeat split; auto. intros y [].
  - destruct IH as [pre [b [post [Heq [Hb Hpre]]]]].
    + destruct Hin as [->|Hin]; [congruence|]. now exists x.
    + exists (a :: pre), b, post. cbn. rewrite Heq. repeat split; auto.
      intros y [->|Hy]; auto.
Qed.

Section TableLoad.
Import HeliumIonization.
Context {Real : Type} {RO : RealOps Real}.
Local Open Scope real_scope.

Variable xc_file : string.
Variable file_data : Array2 Real.

Lemma read_row_test (lo : Z) (fs : Array1 (float_triplet Real)) :
  copied_before file_data lo fs ->
  read_row xc_file file_data lo fs
  = if descends file_data lo then Fatal (NotAscending xc_file)
    else OK (set1 fs lo {| tx := file_data lo 0%Z; ty := file_data lo 1%Z;
                           tz := tz (fs lo) |}).
Proof.
  intros [Hlo Hprev]. unfold read_row, descends.
  rewrite set1_same. cbn [tx].
  destruct (0 <? lo)%Z eqn:Hpos; cbn [andb]; [|reflexivity].
  apply Z.ltb_lt in Hpos. rewrite set1_other by lia. now rewrite Hprev.
Qed.

Lemma read_rows_fail (hi : Z) (n : nat) :
  forall lo fs,
    (hi - lo + 1 = Z.of_nat n)%Z ->
    copied_before file_data lo fs ->
    (exists i, (lo <= i <= hi)%Z /\ descends file_data i = true) ->
    foldM (read_row xc_file file_data) (range lo hi) fs
    = Fatal (NotAscending xc_file).
Proof.
  induction n as [|n IH]; intros lo fs Hlen Hinv [i [Hi Hdesc]]; [lia|].
  rewrite range_cons by lia. cbn [foldM]. rewrite read_row_test by exact Hinv.
  destruct (descends file_data lo) eqn:Hlo; [reflexivity|]. cbn [bind].
  apply IH.
  - lia.
  - destruct Hinv as [Hge _]. split; [lia|]. intros _.
    replace (lo + 1 - 1)%Z with lo by lia. now rewrite set1_same.
  - exists i. split; [|exact Hdesc].
    assert (i <> lo) by (intros ->; congruence). lia.
Qed.

Lemma read_rows_ok (hi : Z) (n : nat) :
  forall lo fs,
    (hi - lo + 1 = Z.of_nat n)%Z ->
    copied_before file_data lo fs ->
    (forall i, (lo <= i <= hi)%Z -> descends file_data i = false) ->
    exists fs',
      foldM (read_row xc_file file_data) (range lo hi) fs = OK fs' /\
      (forall i, (lo <= i <= hi)%Z ->
         tx (fs' i) = file_data i 0%Z /\ ty (fs' i) = file_data i 1%Z) /\
      (forall i, (i < lo)%Z -> fs' i = fs i).
Proof.
  induction n as [|n IH]; intros lo fs Hlen Hinv Hasc.
  - rewrite range_empty by lia. exists fs. cbn. repeat split; auto; lia.
  - rewrite range_cons by lia. cbn [foldM].
    rewrite read_row_test by exact Hinv. rewrite Hasc by lia. cbn [bind].
    set (fs1 := set1 fs lo _).
    destruct (IH (lo + 1)%Z fs1) as [fs' [Hrun [Hrows Hframe]]].
    + lia.
    + destruct Hinv as [Hge _]. split; [lia|]. intros _.
      replace (lo + 1 - 1)%Z with lo by lia. subst fs1. now rewrite set1_same.
    + intros i Hi. apply Hasc. lia.
    + exists fs'. split; [exact Hrun|]. split.
      * intros i Hi. destruct (Z.eq_dec i lo) as [->|Hne].
        -- rewrite Hframe by lia. subst fs1. rewrite set1_same. now cbn.
        -- apply Hrows. lia.
      * intros i Hi. rewrite Hframe by lia. subst fs1. apply set1_other. lia.
Qed.

Lemma read_file_spec_fails
    (n_file : Z) (fresh : Array1 (float_triplet Real)) :
  (exists i, (0 < i < n_file)%Z /\
             (file_data i 0%Z <? file_data (i - 1)%Z 0%Z) = true) ->
  read_file_spec xc_file file_data n_file fresh
  = Fatal (NotAscending xc_file).
Proof.
  unfold read_file_spec, for_loopM. intros [i [Hi Hlt]].
  apply (read_rows_fail (n_file - 1) (Z.to_nat (n_file - 1 - 0 + 1))).
  - lia.
  - split; lia.
  - exists i. split; [lia|]. unfold descends. rewrite Hlt.
    now replace (0 <? i)%Z with true by (symmetry; apply Z.ltb_lt; lia).
Qed.

Lemma read_file_spec_loads
    (n_file : Z) (fresh : Array1 (float_triplet Real)) :
  (forall i, (0 < i < n_file)%Z ->
             (file_data i 0%Z <? file_data (i - 1)%Z 0%Z) = false) ->
  exists file_spec,
    read_file_spec xc_file file_data n_file fresh = OK file_spec /\
    forall i, (0 <= i < n_file)%Z ->
      tx (file_spec i) = file_data i 0%Z /\
      ty (file_spec i) = file_data i 1%Z.
Proof.
  unfold read_file_spec, for_loopM. intros Hasc.
  destruct (Z_le_gt_dec n_file 0) as [Hempty|Hrows].
  - rewrite range_empty by lia. exists fresh. split; [reflexivity|]. lia.
  - destruct (read_rows_ok (n_file - 1) (Z.to_nat (n_file - 1 - 0 + 1))
                0%Z fresh) as [fs' [Hrun [Hvals _]]].
    + lia.
    + split; lia.
    + intros i Hi. unfold descends.
      destruct (0 <? i)%Z eqn:Hpos; [|reflexivity]. cbn.
      apply Z.ltb_lt in Hpos. apply Hasc. lia.
    + exists fs'. split; [exact Hrun|]. intros i Hi. apply Hvals. lia.
Qed.

(** C4 (as amended).  Reading the table throws the malformed-table error
    exactly when some row starts strictly below the row before it.  A table
    without such a row is copied into [file_spec] in full; rows with equal
    abscissae are accepted. *)
Theorem read_file_spec_descending
    (n_file : Z) (fresh : Array1 (float_triplet Real)) :
  ((exists i, (0 < i < n_file)%Z /\
              (file_data i 0%Z <? file_data (i - 1)%Z 0%Z) = true) ->
   read_file_spec xc_file file_data n_file fresh
   = Fatal (NotAscending xc_file)) /\
  ((forall i, (0 < i < n_file)%Z ->
              (file_data i 0%Z <? file_data (i - 1)%Z 0%Z) = false) ->
   exists file_spec,
     read_file_spec xc_file file_data n_file fresh = OK file_spec /\
     forall i, (0 <= i < n_file)%Z ->
       tx (file_spec i) = file_data i 0%Z /\
       ty (file_spec i) = file_data i 1%Z).
Proof.
  split; [apply read_file_spec_fails | apply read_file_spec_loads].
Qed.

Lemma read_file_spec_OK_inv
    (n_file : Z) (fresh file_spec : Array1 (float_triplet Real)) :
  read_file_spec xc_file file_data n_file fresh = OK file_spec ->
  (forall i, (0 < i < n_file)%Z ->
     (file_data i 0%Z <? file_data (i - 1)%Z 0%Z) = false) /\
  (forall i, (0 <= i < n_file)%Z ->
     tx (file_spec i) = file_data i 0%Z /\ ty (file_spec i) = file_data i 1%Z).
Proof.
  unfold read_file_spec, for_loopM. intros Hrun.
  assert (Hasc : forall i, (0 <= i <= n_file - 1)%Z ->
                           descends file_data i = false).
  { intros i Hi. destruct (descends file_data i) eqn:Hd; [|reflexivity].
    rewrite (read_rows_fail (n_file - 1) (Z.to_nat (n_file - 1 - 0 + 1)))
      in Hrun; [discriminate|lia|split; lia|].
    exists i. auto. }
  split.
  - intros i Hi. specialize (Hasc i ltac:(lia)). unfold descends in Hasc.
    now replace (0 <? i)%Z with true in Hasc
      by (symmetry; apply Z.ltb_lt; lia).
  - destruct (Z_le_gt_dec n_file 0) as [Hempty|Hrows]; [intros; lia|].
    destruct (read_rows_ok (n_file - 1) (Z.to_nat (n_file - 1 - 0 + 1))
                0%Z fresh) as [fs' [Hrun' [Hvals _]]];
      [lia|split; lia|exact Hasc|].
    rewrite Hrun in Hrun'. inversion Hrun'; subst fs'.
    intros i Hi. apply Hvals. lia.
Qed.

End TableLoad.

Section TableLoadR.
Import HeliumIonization.
Local Open Scope R_scope.

(** The theorem applied to a table whose second row starts below the
    first: the load throws. *)
Lemma read_file_spec_descending_witness :
  (exists i, (0 < i < 2)%Z /\
     Rltb (Samples.descending_table i 0%Z)
          (Samples.descending_table (i - 1)%Z 0%Z) = true) /\
  read_file_spec "He_xc.txt" Samples.descending_table 2 Samples.blank_table
  = Fatal (NotAscending "He_xc.txt").
Proof.
  assert (Hdesc : exists i, (0 < i < 2)%Z /\
     Rltb (Samples.descending_table i 0%Z)
          (Samples.descending_table (i - 1)%Z 0%Z) = true).
  { exists 1%Z. split; [lia|]. apply Rltb_true. cbn. lra. }
  split; [exact Hdesc|].
  apply (proj1 (read_file_spec_descending "He_xc.txt"
                  Samples.descending_table 2 Samples.blank_table)).
  exact Hdesc.
Defined.

(** C4, counterexample.  The two rows of [flat_table] carry the same
    energy, so the table is not strictly ascending, and it loads. *)
Lemma read_file_spec_accepts_equal_rows :
  Samples.flat_table 1%Z 0%Z = Samples.flat_table 0%Z 0%Z /\
  exists file_spec,
    read_file_spec "He_xc.txt" Samples.flat_table 2 Samples.blank_table
    = OK file_spec.
Proof.
  split; [reflexivity|].
  destruct (read_rows_ok "He_xc.txt" Samples.flat_table 1 2 0%Z
              Samples.blank_table) as [fs [Hrun _]].
  - lia.
  - split; lia.
  - intros i Hi. unfold descends. apply andb_false_iff. right.
    apply Rltb_false. cbn. lra.
  - exists fs. exact Hrun.
Qed.

End TableLoadR.

(* ================================================================== *)
(** * Cross sections from the table *)
(* ================================================================== *)

Section CrossSections.
Import HeliumIonization.
Context {Real : Type} {RO : RealOps Real}.
Local Open Scope real_scope.

Variable spline :
  Z -> Array1 (float_triplet Real) -> Real -> Real -> Array1 (float_triplet Real).
Variable find_place_in_table :
  Z -> Array1 (float_triplet Real) -> Real -> Z -> Z * Real.
Variable splint : Real -> Array1 (float_triplet Real) -> Real -> Real.

Variable c : @Constants Real.
Variable coef : Real.
Variable n_file : Z.
Variable file_spec : Array1 (float_triplet Real).
Variable spec : Array1 (Spectrum Real).

Local Abbreviation body :=
  (cross_section_body find_place_in_table splint c coef n_file file_spec spec).
Local Abbreviation step :=
  (cross_section_step find_place_in_table splint c coef n_file file_spec spec).
Local Abbreviation bad := (out_of_domain c coef n_file file_spec spec).

Lemma cross_section_body_cases (n : Z) (st : Z * Array1 Real) :
  body n st = if bad n then Fatal EnergyTooHigh else OK (step n st).
Proof.
  destruct st as [ii xs].
  unfold cross_section_body, cross_section_step, out_of_domain, below, beyond,
    interpolated.
  cbn [fst snd].
  destruct (sample_energy c coef (spec n) <? tx (file_spec 0%Z));
    cbn [negb andb]; [reflexivity|].
  destruct (_ >? _); [reflexivity|].
  now destruct (find_place_in_table _ _ _ _).
Qed.

Lemma cross_sections_ok (ns : list Z) (st : Z * Array1 Real) :
  (forall n, In n ns -> bad n = false) ->
  foldM body ns st = OK (fold_left (fun acc n => step n acc) ns st).
Proof.
  intros Hok. apply foldM_total. intros n acc Hn.
  rewrite cross_section_body_cases. now rewrite Hok.
Qed.

Lemma cross_sections_fail (ns : list Z) (st : Z * Array1 Real) :
  (exists n, In n ns /\ bad n = true) ->
  foldM body ns st = Fatal EnergyTooHigh.
Proof.
  intros Hbad. apply first_true in Hbad.
  destruct Hbad as [pre [n [post [-> [Hn Hpre]]]]].
  rewrite foldM_app, (cross_sections_ok pre) by exact Hpre.
  cbn. rewrite cross_section_body_cases. now rewrite Hn.
Qed.

Lemma cross_section_step_other (n m : Z) (st : Z * Array1 Real) :
  m <> n -> snd (step n st) m = snd st m.
Proof.
  intros Hne. unfold cross_section_step.
  destruct (below _ _ _ _ _); [|destruct (interpolated _ _ _ _ _ _ _ _)];
    cbn; now rewrite set1_other.
Qed.

Lemma cross_sections_untouched (ns : list Z) (st : Z * Array1 Real) (m : Z) :
  ~ In m ns -> snd (fold_left (fun acc n => step n acc) ns st) m = snd st m.
Proof.
  intros Hm.
  apply (fold_left_untouched (fun n acc => step n acc)
           (fun acc n => snd acc n) (fun _ => True)); auto.
  intros x y s _ Hne. now apply cross_section_step_other.
Qed.

Lemma cross_sections_visited (ns : list Z) :
  forall st m,
    NoDup ns -> In m ns ->
    let xs := snd (fold_left (fun acc n => step n acc) ns st) in
    (below c coef file_spec spec m = true -> xs m = rq 0.0) /\
    (below c coef file_spec spec m = false ->
     exists ii,
       xs m = snd (interpolated find_place_in_table splint
                     c coef n_file file_spec spec m ii)).
Proof.
  induction ns as [|n ns IH]; intros st m Hnd Hm; [destruct Hm|].
  inversion Hnd as [|? ? Hn Hnd']; subst. cbn [fold_left].
  destruct Hm as [->|Hm]; [|now apply IH].
  cbv zeta. rewrite cross_sections_untouched by exact Hn.
  unfold cross_section_step. split; intros Hb; rewrite Hb.
  - cbn. now rewrite set1_same.
  - exists (fst st).
    destruct (interpolated _ _ _ _ _ _ _ _ _) as [ii v]. cbn.
    now rewrite set1_same.
Qed.

End CrossSections.

Section CrossSectionsR.
Import HeliumIonization.
Local Open Scope R_scope.

Lemma Q2R_0 : Q2R 0 = 0.
Proof. unfold Q2R. cbn. lra. Qed.

Lemma Q2R_0_0 : Q2R 0.0 = 0.
Proof. unfold Q2R. cbn. lra. Qed.

Lemma ascending_from_first (file_data : Array2 R) (n_file : Z) :
  (forall i, (0 < i < n_file)%Z ->
     file_data (i - 1)%Z 0%Z <= file_data i 0%Z) ->
  forall k : nat, (Z.of_nat k < n_file)%Z ->
    file_data 0%Z 0%Z <= file_data (Z.of_nat k) 0%Z.
Proof.
  intros Hasc. induction k as [|k IH]; intros Hk; [cbn; lra|].
  specialize (Hasc (Z.of_nat (S k)) ltac:(lia)).
  replace (Z.of_nat (S k) - 1)%Z with (Z.of_nat k) in Hasc by lia.
  specialize (IH ltac:(lia)). lra.
Qed.

(** The three cases of the sample loop.  For a table of at least one
    row that loads (no row starts below the row before it) and samples of
    energy [energy n], compared with the first and the last tabulated
    energy: if some sample lies beyond the last row the evaluation throws
    the out-of-domain error; otherwise it returns, a sample below the
    first row gets cross section zero, and any other sample gets what
    [find_place_in_table] and [splint] deliver at the abscissa
    [energy n / ry_conversion], times the unit factor.  ([spline] is
    assumed to leave the abscissae of the table alone.) *)
Lemma CalculateCrossSections_cases
    (spline : Z -> Array1 (float_triplet R) -> R -> R ->
              Array1 (float_triplet R))
    (find_place_in_table : Z -> Array1 (float_triplet R) -> R -> Z -> Z * R)
    (splint : R -> Array1 (float_triplet R) -> R -> R)
    (c : Constants) (coef : R) (xc_file : string)
    (file_data : Array2 R) (n_file : Z) (fresh : Array1 (float_triplet R))
    (spec : Array1 (Spectrum R)) (nspec : Z) (crossSection : Array1 R) :
  (1 <= n_file)%Z ->
  (forall i, (0 < i < n_file)%Z ->
     file_data (i - 1)%Z 0%Z <= file_data i 0%Z) ->
  (forall t i, tx (spline n_file t 0 0 i) = tx (t i)) ->
  let lowest := file_data 0%Z 0%Z in
  let highest := file_data (n_file - 1)%Z 0%Z in
  let energy n := sample_energy c coef (spec n) in
  let result :=
    CalculateCrossSections spline find_place_in_table splint c coef xc_file
      file_data n_file fresh spec nspec crossSection in
  ((exists n, (0 <= n < nspec)%Z /\ energy n > highest) ->
   result = Fatal EnergyTooHigh) /\
  ((forall n, (0 <= n < nspec)%Z -> energy n <= highest) ->
   exists xs,
     result = OK xs /\
     forall n, (0 <= n < nspec)%Z ->
       (energy n < lowest -> xs n = 0) /\
       (lowest <= energy n ->
        exists file_spec0 ii ii' dx,
          read_file_spec xc_file file_data n_file fresh = OK file_spec0 /\
          let file_spec := spline n_file file_spec0 0 0 in
          find_place_in_table n_file file_spec
            (energy n / ry_conversion c) ii = (ii', dx) /\
          xs n = splint (energy n / ry_conversion c)
                   (fun t => file_spec (ii' + t)%Z) dx
                 * mb_conversion c)).
Proof.
  intros Hrows Hasc Hspline lowest highest energy result.
  destruct (read_file_spec_loads xc_file file_data n_file fresh)
    as [fs0 [Hrun Hvals]].
  { intros i Hi. apply Rltb_false. now apply Hasc. }
  subst result. unfold CalculateCrossSections. rewrite Hrun. cbn [bind].
  change (rq 0) with (Q2R 0). rewrite Q2R_0.
  set (file_spec := spline n_file fs0 0 0).
  assert (Hlow : tx (file_spec 0%Z) = lowest).
  { subst file_spec. rewrite Hspline. apply Hvals. lia. }
  assert (Hhigh : tx (file_spec (n_file - 1)%Z) = highest).
  { subst file_spec. rewrite Hspline. apply Hvals. lia. }
  assert (Hspan : lowest <= highest).
  { subst lowest highest.
    replace (n_file - 1)%Z with (Z.of_nat (Z.to_nat (n_file - 1))) by lia.
    apply (ascending_from_first file_data n_file Hasc). lia. }
  unfold for_loopM. split.
  - intros [n [Hn Habove]].
    rewrite (cross_sections_fail find_place_in_table splint c coef n_file
               file_spec spec); [reflexivity|].
    exists n. split; [apply range_In; lia|].
    unfold out_of_domain, below, beyond. cbn [rltb R_ops].
    rewrite Hlow, Hhigh. apply andb_true_iff. split.
    + apply negb_true_iff, Rltb_false. fold (energy n). lra.
    + apply Rltb_true. exact Habove.
  - intros Hin.
    rewrite (cross_sections_ok find_place_in_table splint c coef n_file
               file_spec spec).
    + cbn [bind]. eexists. split; [reflexivity|]. intros n Hn.
      destruct (cross_sections_visited find_place_in_table splint c coef
                  n_file file_spec spec (range 0 (nspec - 1))
                  ((-1)%Z, crossSection) n (range_NoDup _ _)
                  ltac:(apply range_In; lia)) as [Hzero Hinterp].
      split.
      * intros Hbelow. rewrite Hzero.
        -- change (rq 0.0) with (Q2R 0.0). apply Q2R_0_0.
        -- unfold below. cbn [rltb R_ops]. rewrite Hlow.
           now apply Rltb_true.
      * intros Hge. destruct Hinterp as [ii Hval].
        -- unfold below. cbn [rltb R_ops]. rewrite Hlow.
           now apply Rltb_false.
        -- unfold interpolated in Hval. cbn [rdiv rmul R_ops] in Hval.
           fold (energy n) in Hval.
           destruct (find_place_in_table n_file file_spec
                       (energy n / ry_conversion c) ii) as [ii' dx] eqn:Hfind.
           exists fs0, ii, ii', dx. split; [reflexivity|].
           split; [exact Hfind|exact Hval].
    + intros n Hn. apply range_In in Hn.
      unfold out_of_domain, beyond. cbn [rltb R_ops]. rewrite Hhigh.
      apply andb_false_iff. right. apply Rltb_false. apply Hin. lia.
Qed.

(** C3.  The domain of the table is tested at one abscissa and the table
    is read at another.  The failing input is the table with the rows
    (24.6, 7.4) and (100, 0.1), energies in eV, and one sample of
    wavelength 30 nm.  The energy of the sample, 41.3 eV, lies between
    the first and the last row, so the evaluation returns; but the value
    it stores is what [find_place_in_table] and [splint] deliver at
    [energy / ry_conversion], about 3.04, which lies below the first row
    of the table: no two rows bracket it.  This holds whatever the
    interpolation routines are, as long as [spline] leaves the abscissae
    of the table alone. *)
Theorem CalculateCrossSections_lookup_below_table
    (spline : Z -> Array1 (float_triplet R) -> R -> R ->
              Array1 (float_triplet R))
    (find_place_in_table : Z -> Array1 (float_triplet R) -> R -> Z -> Z * R)
    (splint : R -> Array1 (float_triplet R) -> R -> R) :
  (forall t i, tx (spline 2%Z t 0 0 i) = tx (t i)) ->
  let c := Samples.physical_constants in
  let energy := sample_energy c 1e-9 (Samples.inside_spec 0%Z) in
  let x := energy / ry_conversion c in
  Samples.helium_table 0%Z 0%Z <= energy <= Samples.helium_table 1%Z 0%Z /\
  x < Samples.helium_table 0%Z 0%Z /\
  exists xs file_spec0 ii ii' dx,
    CalculateCrossSections spline find_place_in_table splint c 1e-9
      "He_xc.txt" Samples.helium_table 2 Samples.blank_table
      Samples.inside_spec 1 (fun _ => 0)
    = OK xs /\
    read_file_spec "He_xc.txt" Samples.helium_table 2 Samples.blank_table
    = OK file_spec0 /\
    let file_spec := spline 2%Z file_spec0 0 0 in
    find_place_in_table 2%Z file_spec x ii = (ii', dx) /\
    xs 0%Z = splint x (fun t => file_spec (ii' + t)%Z) dx * mb_conversion c.
Proof.
  intros Hspline c energy x.
  assert (Hasc : forall i, (0 < i < 2)%Z ->
     Samples.helium_table (i - 1)%Z 0%Z <= Samples.helium_table i 0%Z).
  { intros i Hi. assert (i = 1%Z) by lia. subst i.
    change (24.6 <= 100). lra. }
  assert (Hin : 24.6 <= energy <= 100).
  { change (24.6 <= 6.62607015e-34 * (299792458 / (30 * 1e-9))
                    / 1.602176634e-19 <= 100).
    lra. }
  assert (Hx : x < 24.6).
  { change (6.62607015e-34 * (299792458 / (30 * 1e-9))
            / 1.602176634e-19 / 13.605693 < 24.6).
    lra. }
  split; [exact Hin|]. split; [exact Hx|].
  destruct (proj2 (CalculateCrossSections_cases spline find_place_in_table
                     splint c 1e-9 "He_xc.txt" Samples.helium_table 2
                     Samples.blank_table Samples.inside_spec 1 (fun _ => 0)
                     ltac:(lia) Hasc Hspline))
    as (xs & Hres & Hcell).
  { intros n _. exact (proj2 Hin). }
  destruct (Hcell 0%Z ltac:(lia)) as [_ Hlookup].
  destruct (Hlookup (proj1 Hin)) as (fs0 & ii & ii' & dx & Hread & Hfind & Hval).
  exists xs, fs0, ii, ii', dx.
  split; [exact Hres|]. split; [exact Hread|]. split; [exact Hfind|].
  exact Hval.
Qed.

(** The theorem applied to a search that returns the only interval of
    the table and to linear interpolation. *)
Lemma CalculateCrossSections_lookup_below_table_witness :
  (forall t i, tx (Samples.keep_rows 2%Z t 0 0 i) = tx (t i)) /\
  sample_energy Samples.physical_constants 1e-9 (Samples.inside_spec 0%Z)
    / ry_conversion Samples.physical_constants
  < Samples.helium_table 0%Z 0%Z.
Proof.
  assert (H : forall t i, tx (Samples.keep_rows 2%Z t 0 0 i) = tx (t i))
    by reflexivity.
  split; [exact H|].
  exact (proj1 (proj2
    (CalculateCrossSections_lookup_below_table Samples.keep_rows
       Samples.only_interval Samples.linear H))).
Defined.

End CrossSectionsR.

(* ================================================================== *)
(** * The radiation source term *)
(* ================================================================== *)

Section RadiationSource.
Import Radiation.
Context {Real : Type} {RO : RealOps Real}.
Local Open Scope real_scope.

Variable Band : Type.
Variable CalculateEnergyDeposition : Band -> Z -> Z -> Z -> Z -> Array1 Real.
Variable CellVolume : Z -> Z -> Z -> Z -> Array1 Real.
Variable b : Bounds.
Variable dt : Real.

(** What one band takes from the energy of cell [(k, j, i)]. *)
Local Abbreviation deposited p k j i :=
  (dt * CalculateEnergyDeposition p k j (is_ b) (ie b) i
   / CellVolume k j (is_ b) (ie b) i).

Local Abbreviation cell_body p :=
  (fun k j i =>
     deposit_cell dt (CalculateEnergyDeposition p k j (is_ b) (ie b))
       (CellVolume k j (is_ b) (ie b)) k j i).

Lemma deposit_band_cells (p : Band) (du : Array4 Real) :
  deposit_band CalculateEnergyDeposition CellVolume b dt du p
  = fold_left (fun acc x => uncurry3 (cell_body p) x acc) (cells_kji b) du.
Proof.
  unfold deposit_band, deposit_row, cells_kji.
  now rewrite <- for_loop_nest3.
Qed.

Lemma deposit_band_energy (p : Band) (du : Array4 Real) (k j i : Z) :
  within b k j i ->
  deposit_band CalculateEnergyDeposition CellVolume b dt du p IEN k j i
  = du IEN k j i - deposited p k j i.
Proof.
  intros Hin. rewrite deposit_band_cells.
  refine (fold_left_visited
            (uncurry3 (cell_body p))
            (fun (a : Array4 Real) x => uncurry3 (a IEN) x)
            (fun x v => v - uncurry3 (fun k j i => deposited p k j i) x)
            (fun _ => True) _ _ _ (cells_kji b) du (k, j, i) I
            (cells_kji_NoDup b) (proj2 (cells_kji_In b k j i) Hin)).
  - auto.
  - intros [[k' j'] i'] s _. unfold uncurry3, deposit_cell. cbn.
    now rewrite set4_same.
  - intros [[k' j'] i'] [[k'' j''] i''] s _ Hne.
    unfold uncurry3, deposit_cell. cbn. now rewrite set4_other_cell.
Qed.

Lemma deposit_band_frame (p : Band) (du : Array4 Real) (n k j i : Z) :
  ~ (n = IEN /\ within b k j i) ->
  deposit_band CalculateEnergyDeposition CellVolume b dt du p n k j i
  = du n k j i.
Proof.
  intros Hout. rewrite deposit_band_cells.
  destruct (Z.eq_dec n IEN) as [->|Hn].
  - apply (fold_left_untouched
             (uncurry3 (cell_body p))
             (fun (a : Array4 Real) x => uncurry3 (a IEN) x)
             (fun _ => True) ltac:(auto)
             ltac:(intros [[k' j'] i'] [[k'' j''] i''] s _ Hne;
                   unfold uncurry3, deposit_cell; cbn;
                   now rewrite set4_other_cell)
             (cells_kji b) du (k, j, i) I).
    rewrite cells_kji_In. tauto.
  - apply (fold_left_Inv (uncurry3 (cell_body p))
             (fun a : Array4 Real => a n k j i = du n k j i)); [|reflexivity].
    intros [[k' j'] i'] s Hs. unfold uncurry3, deposit_cell. cbn.
    now rewrite set4_other_var.
Qed.

(** C9.  [AddRadiationSourceTerm] changes [du] in its energy component
    and in interior cells only: there the energy has lost, band after band
    in the order of the list, [dt] times the band's deposition for the
    cell divided by the cell volume; every other component and every cell
    outside the interior is as before. *)
Theorem AddRadiationSourceTerm_energy_only
    (pband : list Band) (du : Array4 Real) (n k j i : Z) :
  let du' :=
    AddRadiationSourceTerm CalculateEnergyDeposition CellVolume pband b dt du
  in
  (within b k j i ->
   du' IEN k j i
   = fold_left (fun e p => e - deposited p k j i) pband (du IEN k j i)) /\
  (~ (n = IEN /\ within b k j i) -> du' n k j i = du n k j i).
Proof.
  cbv zeta.
  assert (Hfold :
    AddRadiationSourceTerm CalculateEnergyDeposition CellVolume pband b dt du
    = fold_left (deposit_band CalculateEnergyDeposition CellVolume b dt)
        pband du) by now destruct pband.
  rewrite Hfold. clear Hfold. revert du.
  induction pband as [|p ps IH]; intros du; cbn [fold_left].
  - split; reflexivity.
  - destruct (IH (deposit_band CalculateEnergyDeposition CellVolume b dt du p))
      as [Hen Hfr].
    split.
    + intros Hin. rewrite Hen by exact Hin.
      now rewrite deposit_band_energy.
    + intros Hout. rewrite Hfr by exact Hout.
      now apply deposit_band_frame.
Qed.

End RadiationSource.

(** The theorem applied to two bands and the interior cell [i = 3]. *)
Lemma AddRadiationSourceTerm_energy_only_witness :
  within Samples.block_1d 0 0 3 /\
  Radiation.AddRadiationSourceTerm Samples.band_deposition Samples.volume_2
    Samples.two_bands Samples.block_1d 1%R (fun _ _ _ _ => 10%R) IEN 0%Z 0%Z 3%Z
  = (10 - 1 * 1 / 2 - 1 * 2 / 2)%R.
Proof.
  assert (Hin : within Samples.block_1d 0 0 3) by (cbv; intuition discriminate).
  split; [exact Hin|].
  exact (proj1 (AddRadiationSourceTerm_energy_only R Samples.band_deposition
                  Samples.volume_2 Samples.block_1d 1%R Samples.two_bands
                  (fun _ _ _ _ => 10%R) IEN 0 0 3) Hin).
Defined.

(* ================================================================== *)
(** * Ionisation and recombination in [drum/pgen/tripathi.cpp] *)
(* ================================================================== *)

Section DrumSource.
Import Drum.
Context {Real : Type} {RO : RealOps Real}.
Local Open Scope real_scope.

Variable CellVolume : Z -> Z -> Z -> Z -> Array1 Real.
Variable dt : Real.
Variable inp : Inputs (Real := Real).

Local Abbreviation vol_of k j :=
  (CellVolume k j (is_ (bounds inp)) (ie (bounds inp))).

Local Abbreviation cell_body :=
  (fun k j i => SourceTerms_cell dt inp (vol_of k j) k j i).

Lemma SourceTerms_cells (st : State) :
  ds (SourceTerms CellVolume dt inp st)
  = ds (fold_left (fun acc x => uncurry3 cell_body x acc)
          (cells_kji (bounds inp)) st).
Proof.
  unfold SourceTerms, SourceTerms_row, cells_kji. cbn [ds].
  now rewrite <- for_loop_nest3.
Qed.

(** The two scalar updates in a visited cell, with the quantities of the
    first state. *)
Lemma SourceTerms_ds_at (st : State) (k j i : Z) :
  within (bounds inp) k j i ->
  let st' := SourceTerms CellVolume dt inp st in
  let gain := n_ion_gain dt (vol_of k j) st k j i in
  let recomb := n_recomb dt inp k j i in
  ds st' 0%Z k j i = ds st 0%Z k j i + (recomb - gain) * mh /\
  ds st' 1%Z k j i = ds st 1%Z k j i + (- recomb + gain) * mh.
Proof.
  intros Hin. cbv zeta. rewrite SourceTerms_cells.
  pose proof
    (fold_left_visited
       (uncurry3 cell_body)
       (fun (a : State) x => (uncurry3 (ds a 0%Z) x, uncurry3 (ds a 1%Z) x))
       (fun x v =>
          let recomb := uncurry3 (n_recomb dt inp) x in
          let gain :=
            uncurry3 (fun k j i => n_ion_gain dt (vol_of k j) st k j i) x in
          (fst v + (recomb - gain) * mh, snd v + (- recomb + gain) * mh))
       (fun a => rad_flux_ion a = rad_flux_ion st)) as Hvisit.
  specialize (Hvisit ltac:(now intros [[? ?] ?] s Hs)).
  assert (Hsame : forall x s, rad_flux_ion s = rad_flux_ion st ->
    (uncurry3 (ds (uncurry3 cell_body x s) 0%Z) x,
     uncurry3 (ds (uncurry3 cell_body x s) 1%Z) x)
    = (uncurry3 (ds s 0%Z) x
         + (uncurry3 (n_recomb dt inp) x
            - uncurry3 (fun k j i => n_ion_gain dt (vol_of k j) st k j i) x)
           * mh,
       uncurry3 (ds s 1%Z) x
         + (- uncurry3 (n_recomb dt inp) x
            + uncurry3 (fun k j i => n_ion_gain dt (vol_of k j) st k j i) x)
           * mh)).
  { intros [[k' j'] i'] s Hs. unfold uncurry3, SourceTerms_cell.
    cbn [fst snd ds]. unfold n_ion_gain. rewrite Hs. now read_set4. }
  specialize (Hvisit Hsame). clear Hsame.
  assert (Hother : forall x y s, rad_flux_ion s = rad_flux_ion st -> y <> x ->
    (uncurry3 (ds (uncurry3 cell_body x s) 0%Z) y,
     uncurry3 (ds (uncurry3 cell_body x s) 1%Z) y)
    = (uncurry3 (ds s 0%Z) y, uncurry3 (ds s 1%Z) y)).
  { intros [[k' j'] i'] [[k'' j''] i''] s _ Hne.
    unfold uncurry3, SourceTerms_cell. cbn [fst snd ds]. now read_set4. }
  specialize (Hvisit Hother (cells_kji (bounds inp)) st (k, j, i) eq_refl
                (cells_kji_NoDup _) (proj2 (cells_kji_In _ k j i) Hin)).
  unfold uncurry3 in Hvisit. cbn in Hvisit.
  now inversion Hvisit.
Qed.

End DrumSource.

Section DrumSourceR.
Import Drum.
Local Open Scope R_scope.

Variable CellVolume : Z -> Z -> Z -> Z -> Array1 R.

(** C7.  For every cell, [SourceTerms] leaves the total of the species
    densities as it was: what it adds to the change [ds] of the neutral
    species and of the ionised species sums to zero, and it adds nothing to
    any other species. *)
Theorem SourceTerms_conserves_mass
    (dt : R) (inp : Inputs) (st : State) (k j i : Z) :
  let st' := SourceTerms CellVolume dt inp st in
  (ds st' 0%Z k j i - ds st 0%Z k j i)
    + (ds st' 1%Z k j i - ds st 1%Z k j i) = 0 /\
  (s inp 0%Z k j i + ds st' 0%Z k j i) + (s inp 1%Z k j i + ds st' 1%Z k j i)
  = (s inp 0%Z k j i + ds st 0%Z k j i) + (s inp 1%Z k j i + ds st 1%Z k j i)
  /\
  (forall n, n <> 0%Z -> n <> 1%Z -> ds st' n k j i = ds st n k j i).
Proof.
  cbv zeta. rewrite SourceTerms_cells.
  set (Inv := fun a : State =>
    ds a 0%Z k j i + ds a 1%Z k j i = ds st 0%Z k j i + ds st 1%Z k j i /\
    forall n, n <> 0%Z -> n <> 1%Z -> ds a n k j i = ds st n k j i).
  assert (Hinv : Inv
    (fold_left
       (fun acc x =>
          uncurry3 (fun k j i =>
            SourceTerms_cell dt inp
              (CellVolume k j (is_ (bounds inp)) (ie (bounds inp))) k j i)
            x acc)
       (cells_kji (bounds inp)) st)).
  { apply fold_left_Inv; [|split; auto].
    intros [[k' j'] i'] a [Hsum Hrest]. unfold uncurry3. cbn [fst snd].
    destruct (cell_eq_dec (k, j, i) (k', j', i')) as [Heq|Hne].
    - inversion Heq; subst k' j' i'. split.
      + unfold SourceTerms_cell. cbn [ds]. read_set4.
        cbn [radd rsub rmul rneg R_ops]. lra.
      + intros n Hn0 Hn1. unfold SourceTerms_cell. cbn [ds].
        read_set4. now apply Hrest.
    - split.
      + unfold SourceTerms_cell. cbn [ds]. now read_set4.
      + intros n Hn0 Hn1. unfold SourceTerms_cell. cbn [ds].
        read_set4. now apply Hrest. }
  destruct Hinv as [Hsum Hrest]. repeat split; [lra | lra | exact Hrest].
Qed.

Lemma Q2R_pos (x : Q) : (0 < Qnum x)%Z -> 0 < Q2R x.
Proof.
  intros Hnum. unfold Q2R. apply Rmult_lt_0_compat.
  - now apply IZR_lt.
  - apply Rinv_0_lt_compat. now apply IZR_lt.
Qed.

Lemma mh_pos : 0 < mh (Real := R).
Proof. apply Q2R_pos. reflexivity. Qed.

Lemma Ry_pos : 0 < Ry (Real := R).
Proof. apply Q2R_pos. reflexivity. Qed.

(** C1 (as amended).  In every interior cell whose ionisation gain does
    not exceed the neutral number density, the case that passes the
    function's own test, [SourceTerms] applies the update without scaling
    it: the change of the neutral species receives
    [(n_recomb - n_ion_gain) * mh] and the change of the ionised species
    the opposite.  With a time step that is not negative, a positive
    temperature and a change of the neutral species that was not negative
    before, the neutral density after the update is then not negative. *)
Theorem SourceTerms_unclamped
    (dt : R) (inp : Inputs) (st : State) (k j i : Z) :
  within (bounds inp) k j i ->
  let st' := SourceTerms CellVolume dt inp st in
  let gain :=
    n_ion_gain dt (CellVolume k j (is_ (bounds inp)) (ie (bounds inp)))
      st k j i in
  let recomb := n_recomb dt inp k j i in
  gain <= n_neu inp k j i ->
  ds st' 0%Z k j i = ds st 0%Z k j i + (recomb - gain) * mh /\
  ds st' 1%Z k j i = ds st 1%Z k j i + (- recomb + gain) * mh /\
  (0 <= dt -> 0 < temperature inp k j i -> 0 <= ds st 0%Z k j i ->
   0 <= s inp 0%Z k j i + ds st' 0%Z k j i).
Proof.
  intros Hin st' gain recomb Hsupply.
  destruct (SourceTerms_ds_at CellVolume dt inp st k j i Hin) as [H0 H1].
  fold st' gain recomb in H0, H1. cbn [radd rsub rmul rneg R_ops] in H0, H1.
  split; [exact H0|]. split; [exact H1|].
  intros Hdt HT Hds. rewrite H0. unfold n_neu in Hsupply.
  cbn [rdiv R_ops] in Hsupply.
  pose proof mh_pos as Hm.
  assert (Hs : s inp 0%Z k j i / mh * mh = s inp 0%Z k j i) by (field; lra).
  assert (Hrecomb : 0 <= recomb).
  { unfold recomb, n_recomb. cbv zeta. cbn [rq rmul rdiv rpow R_ops].
    apply Rmult_le_pos; [apply Rmult_le_pos; [exact Hdt|]|].
    - apply Rmult_le_pos.
      + apply Rlt_le, Q2R_pos. reflexivity.
      + unfold Rpower. apply Rlt_le, exp_pos.
    - apply Rle_0_sqr. }
  assert (Hgain : gain * mh <= s inp 0%Z k j i).
  { rewrite <- Hs. apply Rmult_le_compat_r; lra. }
  assert (0 <= recomb * mh) by (apply Rmult_le_pos; lra).
  lra.
Qed.

End DrumSourceR.

Section DrumSamples.
Import Drum.
Local Open Scope R_scope.

Lemma one_cell_within : within Samples.one_cell 0 0 0.
Proof. cbv. intuition discriminate. Qed.

Lemma neutral_cell_gain :
  n_ion_gain 1 (Samples.unit_volume 0 0 0 0) Samples.overshoot_state 0 0 0 = 2.
Proof.
  change (- 1 * (- 2 * Ry) / Ry / 1 = 2). pose proof Ry_pos. field. lra.
Qed.

Lemma neutral_cell_recomb : n_recomb 1 Samples.neutral_cell 0 0 0 = 0.
Proof.
  unfold n_recomb, n_ion.
  change (s Samples.neutral_cell 1%Z 0%Z 0%Z 0%Z) with 0.
  cbn [rmul rdiv R_ops]. unfold Rdiv. ring.
Qed.

Lemma neutral_cell_quarter_gain :
  n_ion_gain (1 / 4) (Samples.unit_volume 0 0 0 0) Samples.overshoot_state 0 0 0
  = 1 / 2.
Proof.
  change (- (1 / 4) * (- 2 * Ry) / Ry / 1 = 1 / 2). pose proof Ry_pos.
  field. lra.
Qed.

Lemma neutral_cell_atoms : n_neu Samples.neutral_cell 0 0 0 = 1.
Proof. change (mh / mh = 1). pose proof mh_pos. field. lra. Qed.

Lemma neutral_cell_temperature : temperature Samples.neutral_cell 0 0 0 = 1.
Proof.
  change (1 / (1 * 1) * (Q2R 1.0 - 0 / Q2R 2.0) = 1).
  unfold Q2R. cbn [Qnum Qden]. lra.
Qed.

(** The theorem applied to the cell of [neutral_cell] and a quarter of
    the time step: the gain is half of what the cell holds. *)
Lemma SourceTerms_unclamped_witness :
  within (bounds Samples.neutral_cell) 0 0 0 /\
  n_ion_gain (1 / 4) (Samples.unit_volume 0 0 0 0) Samples.overshoot_state 0 0 0
  <= n_neu Samples.neutral_cell 0 0 0 /\
  0 <= 1 / 4 /\
  0 < temperature Samples.neutral_cell 0 0 0 /\
  0 <= ds Samples.overshoot_state 0%Z 0%Z 0%Z 0%Z /\
  0 <= s Samples.neutral_cell 0%Z 0%Z 0%Z 0%Z
       + ds (SourceTerms Samples.unit_volume (1 / 4) Samples.neutral_cell
               Samples.overshoot_state) 0%Z 0%Z 0%Z 0%Z.
Proof.
  assert (H1 : n_ion_gain (1 / 4) (Samples.unit_volume 0 0 0 0)
                 Samples.overshoot_state 0 0 0
               <= n_neu Samples.neutral_cell 0 0 0).
  { rewrite neutral_cell_quarter_gain, neutral_cell_atoms. lra. }
  assert (H2 : 0 <= 1 / 4) by lra.
  assert (H3 : 0 < temperature Samples.neutral_cell 0 0 0).
  { rewrite neutral_cell_temperature. lra. }
  assert (H4 : 0 <= ds Samples.overshoot_state 0%Z 0%Z 0%Z 0%Z).
  { change (0 <= 0). lra. }
  split; [exact one_cell_within|]. split; [exact H1|]. split; [exact H2|].
  split; [exact H3|]. split; [exact H4|].
  exact (proj2 (proj2
    (SourceTerms_unclamped Samples.unit_volume (1 / 4) Samples.neutral_cell
       Samples.overshoot_state 0 0 0 one_cell_within H1)) H2 H3 H4).
Defined.

(** C1, counterexample.  The cell holds neutral density [d = mh] and the
    step would ionise two atoms per unit volume, that is consume [2 d].
    The update consumes [2 d], not [d], and leaves the neutral density at
    [- d]. *)
Lemma SourceTerms_overshoot_goes_negative :
  let st' :=
    SourceTerms Samples.unit_volume 1 Samples.neutral_cell
      Samples.overshoot_state in
  let d := s Samples.neutral_cell 0%Z 0%Z 0%Z 0%Z in
  0 < d /\
  n_ion_gain 1 (Samples.unit_volume 0 0 0 0) Samples.overshoot_state 0 0 0
    * mh = 2 * d /\
  ds st' 0%Z 0%Z 0%Z 0%Z = - (2 * d) /\
  d + ds st' 0%Z 0%Z 0%Z 0%Z = - d /\
  d + ds st' 0%Z 0%Z 0%Z 0%Z < 0.
Proof.
  intros st' d.
  destruct (SourceTerms_ds_at Samples.unit_volume 1 Samples.neutral_cell
              Samples.overshoot_state 0 0 0 one_cell_within) as [H0 _].
  fold st' in H0. cbn [radd rsub rmul R_ops] in H0.
  change (is_ (bounds Samples.neutral_cell)) with 0%Z in H0.
  change (ie (bounds Samples.neutral_cell)) with 0%Z in H0.
  rewrite neutral_cell_gain, neutral_cell_recomb in H0.
  change (ds Samples.overshoot_state 0%Z 0%Z 0%Z 0%Z) with 0 in H0.
  assert (Hd : d = mh) by reflexivity.
  pose proof mh_pos as Hm. rewrite neutral_cell_gain, H0, Hd.
  repeat split; lra.
Qed.

End DrumSamples.

(* ================================================================== *)
(** * The share of absorbed flux that ionises *)
(* ================================================================== *)

Section AbsorbedFlux.
Import Drum.
Local Open Scope R_scope.

Lemma Q2R_lit_1 : Q2R 1 = 1.
Proof. unfold Q2R. cbn [Qnum Qden]. lra. Qed.

Lemma Q2R_lit_1e9 : Q2R 1e9 = 1e9.
Proof. rewrite Q2R_mult. unfold Q2R. cbn [Qnum Qden]. lra. Qed.

Lemma nm_0_value : nm_0 (Real := R) = 91.126705058.
Proof. unfold nm_0. cbn [rq R_ops]. unfold Q2R. cbn [Qnum Qden]. lra. Qed.

Lemma EnergyAbsorption_R (wtm wave flux : R) (k j i : Z) (rfi : Array3 R) :
  EnergyAbsorption wtm wave flux k j i rfi
  = if Rlt_dec nm_0 (wave * wtm * 1e9) then (flux, rfi)
    else (flux * 0.15, set3 rfi k j i (rfi k j i + (1 - 0.15) * flux)).
Proof.
  unfold EnergyAbsorption. cbn [rq radd rsub rmul rltb R_ops].
  change (Q2R 0.15) with 0.15. rewrite Q2R_lit_1, Q2R_lit_1e9. unfold Rltb.
  now destruct (Rlt_dec _ _).
Qed.

(** C5 (as amended).  For a sample at or below the hydrogen threshold
    [nm_0], [EnergyAbsorption] adds the fixed share [1 - 0.15] of the flux
    to the cell's [rad_flux_ion] and hands back the share [0.15], whatever
    the wavelength; above the threshold it hands back the whole flux and
    adds nothing.  [SourceTerms] turns the accumulated [rad_flux_ion] into
    the ion number gain by multiplying with [- dt] and dividing by the
    ionisation energy [Ry] and by the cell volume. *)
Theorem EnergyAbsorption_fixed_share
    (wtm wave flux : R) (k j i : Z) (rfi : Array3 R) :
  let wave_nm := wave * wtm * 1e9 in
  let out := EnergyAbsorption wtm wave flux k j i rfi in
  (wave_nm <= nm_0 ->
   fst out = 0.15 * flux /\
   snd out k j i = rfi k j i + 0.85 * flux /\
   forall dt vol st,
     rad_flux_ion st = snd out ->
     n_ion_gain dt vol st k j i
     = - dt * (rfi k j i + 0.85 * flux) / Ry / vol i) /\
  (wave_nm > nm_0 -> fst out = flux /\ snd out = rfi) /\
  (forall k' j' i',
     (k', j', i') <> (k, j, i) -> snd out k' j' i' = rfi k' j' i').
Proof.
  intros wave_nm out. subst out. rewrite EnergyAbsorption_R. fold wave_nm.
  destruct (Rlt_dec nm_0 wave_nm) as [Habove|Hbelow]; cbn [fst snd].
  - split; [intros Hle; exfalso; lra|]. split; [auto|]. auto.
  - split.
    + intros _. split; [lra|]. rewrite set3_same. split; [lra|].
      intros dt vol st Hst. unfold n_ion_gain.
      cbn [rneg rmul rdiv R_ops]. rewrite Hst, set3_same.
      f_equal. f_equal. f_equal. lra.
    + split; [intros Hgt; exfalso; lra|].
      intros k' j' i' Hne. now apply set3_other.
Qed.

(** The theorem applied to a 50 nm sample carrying one unit of flux. *)
Lemma EnergyAbsorption_fixed_share_witness :
  50 * 1e-9 * 1e9 <= nm_0 /\
  fst (EnergyAbsorption 1e-9 50 1 0 0 0 Samples.no_flux) = 0.15 * 1.
Proof.
  assert (Hle : 50 * 1e-9 * 1e9 <= nm_0) by (rewrite nm_0_value; lra).
  split; [exact Hle|].
  exact (proj1 (proj1 (EnergyAbsorption_fixed_share 1e-9 50 1 0 0 0
                         Samples.no_flux) Hle)).
Defined.

(** C5, counterexample.  For a 50 nm sample the partition of the
    absorber gives [q = 1 - 50 / nm_0], about 0.45.  The code sends 0.85 of
    the flux to ionisation and 0.15 to heating, neither [q] nor [1 - q]. *)
Lemma EnergyAbsorption_share_is_not_q :
  let out := EnergyAbsorption 1e-9 50 1 0 0 0 Samples.no_flux in
  let q := 1 - 50 * 1e-9 * 1e9 / nm_0 in
  snd out 0%Z 0%Z 0%Z = 0.85 /\
  snd out 0%Z 0%Z 0%Z <> q * 1 /\
  fst out = 0.15 /\
  fst out <> (1 - q) * 1.
Proof.
  intros out q. subst out q. rewrite EnergyAbsorption_R, nm_0_value.
  destruct (Rlt_dec _ _) as [Habove|_]; [lra|]. cbn [fst snd].
  rewrite set3_same. unfold Samples.no_flux.
  assert (Hq : 50 * 1e-9 * 1e9 / 91.126705058 < 0.6) by lra.
  assert (Hq' : 0.5 < 50 * 1e-9 * 1e9 / 91.126705058) by lra.
  repeat split; lra.
Qed.

End AbsorbedFlux.

(* ================================================================== *)
(** * The end-of-step work of [src/pgen/tripathi.cpp] *)
(* ================================================================== *)

(** A loop over the species that writes one array at one cell. *)
Lemma species_loop {V} (f : Z -> V -> V) (N k j i : Z) (a : Array4 V) :
  let a' :=
    for_loop 0 (N - 1) (fun n a => set4 a n k j i (f n (a n k j i))) a in
  (forall n, (0 <= n < N)%Z -> a' n k j i = f n (a n k j i)) /\
  (forall n, ~ (0 <= n < N)%Z -> a' n k j i = a n k j i) /\
  (forall n k' j' i', (k', j', i') <> (k, j, i) ->
     a' n k' j' i' = a n k' j' i').
Proof.
  cbv zeta. unfold for_loop. split; [|split].
  - intros n Hn.
    apply (fold_left_visited
             (fun n (a : Array4 V) => set4 a n k j i (f n (a n k j i)))
             (fun (a : Array4 V) n => a n k j i)
             f (fun _ => True)); auto.
    + intros x s _. now rewrite set4_same.
    + intros x y s _ Hne. now rewrite set4_other_var.
    + apply range_NoDup.
    + apply range_In. lia.
  - intros n Hn.
    apply (fold_left_untouched
             (fun n (a : Array4 V) => set4 a n k j i (f n (a n k j i)))
             (fun (a : Array4 V) n => a n k j i) (fun _ => True)); auto.
    + intros x y s _ Hne. now rewrite set4_other_var.
    + rewrite range_In. lia.
  - intros n k' j' i' Hne.
    apply (fold_left_Inv
             (fun n (a : Array4 V) => set4 a n k j i (f n (a n k j i)))
             (fun a' : Array4 V => a' n k' j' i' = a n k' j' i'));
      [|reflexivity].
    intros x s Hs. now rewrite set4_other_cell.
Qed.

(** A loop on a pair of arrays that treats each on its own. *)
Lemma fold_left_pair {A B X} (F : X -> A -> A) (G : X -> B -> B)
    (xs : list X) (a : A) (b : B) :
  fold_left (fun ab x => (F x (fst ab), G x (snd ab))) xs (a, b)
  = (fold_left (fun a x => F x a) xs a, fold_left (fun b x => G x b) xs b).
Proof.
  revert a b. induction xs as [|x xs IH]; intros a b; cbn; [reflexivity|].
  apply IH.
Qed.

Section EndOfStep.
Import Tripathi.
Context {Real : Type} {RO : RealOps Real}.
Local Open Scope real_scope.

Variable d : Defs.
Variable g : Globals (Real := Real).

Local Abbreviation Block := (MeshBlock (Real := Real)).

Lemma getRad_supported (mb : Block) (k j i : Z) :
  supported d -> getRad d mb i j k = OK (radius d mb k j i).
Proof.
  unfold supported, getRad, radius. intros [Hc|Hs].
  - now rewrite Hc.
  - now rewrite Hs.
Qed.

Lemma same_frame_refl (mb : Block) : same_frame mb mb.
Proof. unfold same_frame. tauto. Qed.

Lemma same_frame_radius (mb0 mb : Block) (k j i : Z) :
  same_frame mb0 mb -> radius d mb k j i = radius d mb0 k j i.
Proof.
  unfold same_frame, radius.
  intros (_ & _ & _ & H1 & H2 & H3 & _). now rewrite H1, H2, H3.
Qed.

Lemma replenish_step_frame (mb0 mb : Block) (x : Z * Z * Z) :
  same_frame mb0 mb -> same_frame mb0 (replenish_step d g x mb).
Proof.
  destruct x as [[k j] i]. unfold replenish_step.
  destruct (_ <=? _); [|auto]. unfold same_frame, replenish, with_arrays.
  cbn. tauto.
Qed.

(** The arrays of a block at one cell, as one value per variable. *)
Lemma replenish_step_other (mb : Block) (x y : Z * Z * Z) (n : Z) :
  y <> x ->
  uncurry3 (w (replenish_step d g x mb) n) y = uncurry3 (w mb n) y /\
  uncurry3 (u (replenish_step d g x mb) n) y = uncurry3 (u mb n) y /\
  uncurry3 (s (replenish_step d g x mb) n) y = uncurry3 (s mb n) y /\
  uncurry3 (r (replenish_step d g x mb) n) y = uncurry3 (r mb n) y.
Proof.
  destruct x as [[k j] i], y as [[k' j'] i']. intros Hne.
  unfold replenish_step, uncurry3. cbn [fst snd].
  destruct (_ <=? _); [|auto]. unfold replenish, with_arrays. cbn [w u s r].
  unfold for_loop. cbv beta.
  rewrite (fold_left_pair
             (fun n (a : Array4 Real) =>
                set4 a n k j i (initial_abundances mb n k j i))
             (fun n (a : Array4 Real) =>
                set4 a n k j i
                  (initial_abundances mb n k j i
                   * dens (SetInitialConditions g (radius d mb k j i))))).
  cbn [fst snd].
  destruct (species_loop
              (fun n _ => initial_abundances mb n k j i)
              (NSCALARS d) k j i (r mb)) as (_ & _ & Hr).
  destruct (species_loop
              (fun n _ => initial_abundances mb n k j i
                          * dens (SetInitialConditions g (radius d mb k j i)))
              (NSCALARS d) k j i (s mb)) as (_ & _ & Hs).
  unfold for_loop in Hr, Hs.
  rewrite Hr, Hs by exact Hne. read_set4. auto.
Qed.

Lemma nan_field_other (mb : Block) (x : Z * Z * Z) (k j i : Z) :
  (k, j, i) <> x ->
  nan_field (replenish_step d g x mb) k j i = nan_field mb k j i.
Proof.
  intros Hne. unfold nan_field.
  destruct (replenish_step_other mb x (k, j, i) IDN Hne) as (H0 & _).
  destruct (replenish_step_other mb x (k, j, i) IPR Hne) as (H1 & _).
  destruct (replenish_step_other mb x (k, j, i) IV1 Hne) as (H2 & _).
  destruct (replenish_step_other mb x (k, j, i) IV2 Hne) as (H3 & _).
  destruct (replenish_step_other mb x (k, j, i) IV3 Hne) as (H4 & _).
  unfold uncurry3 in *. cbn [fst snd] in *.
  now rewrite H0, H1, H2, H3, H4.
Qed.

Lemma UserWorkInLoop_cell_cases (mb : Block) (x : Z * Z * Z) :
  supported d ->
  uncurry3 (UserWorkInLoop_cell d g) x mb
  = match uncurry3 (nan_field mb) x with
    | Some field =>
        Fatal (NanDetected field (fst (fst x)) (snd (fst x)) (snd x)
                 (time mb) (ncycle mb))
    | None => OK (replenish_step d g x mb)
    end.
Proof.
  intros Hsup. destruct x as [[k j] i].
  unfold uncurry3, UserWorkInLoop_cell, replenish_step. cbn [fst snd].
  rewrite getRad_supported by exact Hsup. cbn [bind].
  destruct (nan_field mb k j i); [reflexivity|].
  now destruct (_ <=? _).
Qed.

Lemma end_of_step_ok (cs : list (Z * Z * Z)) :
  supported d ->
  forall mb : Block,
    NoDup cs ->
    (forall x, In x cs -> uncurry3 (nan_field mb) x = None) ->
    foldM (uncurry3 (UserWorkInLoop_cell d g)) cs mb
    = OK (fold_left (fun acc x => replenish_step d g x acc) cs mb).
Proof.
  intros Hsup. induction cs as [|x cs IH]; intros mb Hnd Hclean;
    [reflexivity|].
  inversion Hnd as [|? ? Hx Hnd']; subst.
  cbn [foldM fold_left]. rewrite UserWorkInLoop_cell_cases by exact Hsup.
  rewrite Hclean by now left. cbn [bind]. apply IH; [exact Hnd'|].
  intros [[k j] i] Hy. unfold uncurry3. cbn [fst snd].
  rewrite nan_field_other.
  - apply (Hclean (k, j, i)). now right.
  - intros <-. contradiction.
Qed.

Lemma end_of_step_frame (cs : list (Z * Z * Z)) (mb : Block) :
  same_frame mb (fold_left (fun acc x => replenish_step d g x acc) cs mb).
Proof.
  apply (fold_left_Inv (replenish_step d g) (same_frame mb)).
  - intros x s0. apply replenish_step_frame.
  - apply same_frame_refl.
Qed.

Lemma end_of_step_untouched (cs : list (Z * Z * Z)) (mb : Block)
    (k j i : Z) :
  ~ In (k, j, i) cs ->
  let mb' := fold_left (fun acc x => replenish_step d g x acc) cs mb in
  forall n,
    w mb' n k j i = w mb n k j i /\ u mb' n k j i = u mb n k j i /\
    s mb' n k j i = s mb n k j i /\ r mb' n k j i = r mb n k j i.
Proof.
  intros Hout mb' n. subst mb'.
  pose proof (fold_left_untouched (replenish_step d g)
                (fun a x => (uncurry3 (w a n) x, uncurry3 (u a n) x,
                             uncurry3 (s a n) x, uncurry3 (r a n) x))
                (fun _ => True) ltac:(auto)) as Hfold.
  specialize (Hfold ltac:(intros x y s0 _ Hne;
    destruct (replenish_step_other s0 x y n Hne) as (H0 & H1 & H2 & H3);
    now rewrite H0, H1, H2, H3)).
  specialize (Hfold cs mb (k, j, i) I Hout).
  unfold uncurry3 in Hfold. cbn [fst snd] in Hfold.
  inversion Hfold as [[Hw Hu Hs Hr]]. auto.
Qed.

Lemma end_of_step_nan (pre post : list (Z * Z * Z)) (x : Z * Z * Z)
    (field : string) (mb : Block) :
  supported d ->
  NoDup (pre ++ x :: post) ->
  (forall y, In y pre -> uncurry3 (nan_field mb) y = None) ->
  uncurry3 (nan_field mb) x = Some field ->
  foldM (uncurry3 (UserWorkInLoop_cell d g)) (pre ++ x :: post) mb
  = Fatal (NanDetected field (fst (fst x)) (snd (fst x)) (snd x)
             (time mb) (ncycle mb)).
Proof.
  intros Hsup Hnd Hpre Hx.
  assert (Hnd_pre : NoDup pre) by (apply NoDup_app_remove_r in Hnd; exact Hnd).
  assert (Hx_pre : ~ In x pre).
  { intros Hin. apply NoDup_remove_2 in Hnd. apply Hnd.
    apply in_or_app. now left. }
  rewrite foldM_app, end_of_step_ok by assumption. cbn [bind foldM].
  rewrite UserWorkInLoop_cell_cases by exact Hsup.
  set (mb1 := fold_left _ pre mb).
  assert (Hnan : uncurry3 (nan_field mb1) x = uncurry3 (nan_field mb) x).
  { destruct x as [[k j] i]. unfold uncurry3, nan_field. cbn [fst snd].
    destruct (end_of_step_untouched pre mb k j i Hx_pre IDN) as (H0 & _).
    destruct (end_of_step_untouched pre mb k j i Hx_pre IPR) as (H1 & _).
    destruct (end_of_step_untouched pre mb k j i Hx_pre IV1) as (H2 & _).
    destruct (end_of_step_untouched pre mb k j i Hx_pre IV2) as (H3 & _).
    destruct (end_of_step_untouched pre mb k j i Hx_pre IV3) as (H4 & _).
    fold mb1 in H0, H1, H2, H3, H4. now rewrite H0, H1, H2, H3, H4. }
  rewrite Hnan, Hx. cbn [bind].
  destruct (end_of_step_frame pre mb) as (_ & _ & _ & _ & _ & _ & _ & Ht & Hc & _).
  fold mb1 in Ht, Hc. now rewrite Ht, Hc.
Qed.

Lemma is_species_true (n : Z) :
  is_species d n = true <-> (0 <= n < NSCALARS d)%Z.
Proof. unfold is_species. rewrite andb_true_iff, Z.leb_le, Z.ltb_lt. tauto. Qed.

Lemma replenish_at (mb : Block) (rad : Real) (k j i n : Z) :
  let mb1 := replenish d g rad k j i mb in
  let ic := SetInitialConditions g rad in
  w mb1 n k j i = replenished_w ic n (w mb n k j i) /\
  u mb1 n k j i = replenished_u g ic n (u mb n k j i) /\
  r mb1 n k j i = replenished_r d mb k j i n (r mb n k j i) /\
  s mb1 n k j i = replenished_s d mb ic k j i n (s mb n k j i).
Proof.
  cbv zeta. unfold replenish, with_arrays. cbn [w u s r].
  unfold for_loop. cbv beta.
  rewrite (fold_left_pair
             (fun n (a : Array4 Real) =>
                set4 a n k j i (initial_abundances mb n k j i))
             (fun n (a : Array4 Real) =>
                set4 a n k j i
                  (initial_abundances mb n k j i
                   * dens (SetInitialConditions g rad)))).
  cbn [fst snd].
  destruct (species_loop
              (fun n _ => initial_abundances mb n k j i)
              (NSCALARS d) k j i (r mb)) as (Hr_in & Hr_out & _).
  destruct (species_loop
              (fun n _ => initial_abundances mb n k j i
                          * dens (SetInitialConditions g rad))
              (NSCALARS d) k j i (s mb)) as (Hs_in & Hs_out & _).
  unfold for_loop in Hr_in, Hr_out, Hs_in, Hs_out.
  split; [|split; [|split]].
  - unfold replenished_w. now rewrite !set4_same_cell.
  - unfold replenished_u. now rewrite !set4_same_cell.
  - unfold replenished_r.
    destruct (is_species d n) eqn:Hn.
    + apply Hr_in. now apply is_species_true.
    + apply Hr_out. rewrite <- is_species_true. congruence.
  - unfold replenished_s.
    destruct (is_species d n) eqn:Hn.
    + apply Hs_in. now apply is_species_true.
    + apply Hs_out. rewrite <- is_species_true. congruence.
Qed.

(** The arrays at a visited cell after the whole loop. *)
Lemma end_of_step_visited (cs : list (Z * Z * Z)) (mb : Block) (k j i n : Z) :
  NoDup cs -> In (k, j, i) cs ->
  let mb' := fold_left (fun acc x => replenish_step d g x acc) cs mb in
  let rad := radius d mb k j i in
  let ic := SetInitialConditions g rad in
  if rad <=? r_replenish g then
    w mb' n k j i = replenished_w ic n (w mb n k j i) /\
    u mb' n k j i = replenished_u g ic n (u mb n k j i) /\
    r mb' n k j i = replenished_r d mb k j i n (r mb n k j i) /\
    s mb' n k j i = replenished_s d mb ic k j i n (s mb n k j i)
  else
    w mb' n k j i = w mb n k j i /\ u mb' n k j i = u mb n k j i /\
    r mb' n k j i = r mb n k j i /\ s mb' n k j i = s mb n k j i.
Proof.
  intros Hnd Hin. cbv zeta.
  pose proof
    (fold_left_visited (replenish_step d g)
       (fun a x => (uncurry3 (w a n) x, uncurry3 (u a n) x,
                    uncurry3 (r a n) x, uncurry3 (s a n) x))
       (fun x v =>
          let rad := uncurry3 (radius d mb) x in
          let ic := SetInitialConditions g rad in
          if rad <=? r_replenish g then
            (replenished_w ic n (fst (fst (fst v))),
             replenished_u g ic n (snd (fst (fst v))),
             uncurry3 (fun k j i => replenished_r d mb k j i n) x
               (snd (fst v)),
             uncurry3 (fun k j i => replenished_s d mb ic k j i n) x (snd v))
          else v)
       (same_frame mb)) as Hfold.
  specialize (Hfold ltac:(intros x s0; apply replenish_step_frame)).
  assert (Hsame : forall x s0, same_frame mb s0 ->
    (uncurry3 (w (replenish_step d g x s0) n) x,
     uncurry3 (u (replenish_step d g x s0) n) x,
     uncurry3 (r (replenish_step d g x s0) n) x,
     uncurry3 (s (replenish_step d g x s0) n) x)
    = (let rad := uncurry3 (radius d mb) x in
       let ic := SetInitialConditions g rad in
       if rad <=? r_replenish g then
         (replenished_w ic n (uncurry3 (w s0 n) x),
          replenished_u g ic n (uncurry3 (u s0 n) x),
          uncurry3 (fun k j i => replenished_r d mb k j i n) x
            (uncurry3 (r s0 n) x),
          uncurry3 (fun k j i => replenished_s d mb ic k j i n) x
            (uncurry3 (s s0 n) x))
       else (uncurry3 (w s0 n) x, uncurry3 (u s0 n) x,
             uncurry3 (r s0 n) x, uncurry3 (s s0 n) x))).
  { intros [[k' j'] i'] s0 Hfr. unfold uncurry3, replenish_step.
    cbn [fst snd]. cbv zeta.
    rewrite (same_frame_radius mb s0) by exact Hfr.
    destruct (_ <=? _); [|reflexivity].
    destruct (replenish_at s0 (radius d mb k' j' i') k' j' i' n)
      as (Hw & Hu & Hr & Hs).
    rewrite Hw, Hu, Hr, Hs. unfold replenished_r, replenished_s.
    destruct Hfr as (_ & _ & _ & _ & _ & _ & _ & _ & _ & Hia).
    now rewrite Hia. }
  specialize (Hfold Hsame). clear Hsame.
  specialize (Hfold ltac:(intros x y s0 _ Hne;
    destruct (replenish_step_other s0 x y n Hne) as (H0 & H1 & H2 & H3);
    now rewrite H0, H1, H2, H3)).
  specialize (Hfold cs mb (k, j, i) (same_frame_refl mb) Hnd Hin).
  unfold uncurry3 in Hfold. cbn [fst snd] in Hfold. cbv zeta in Hfold.
  destruct (_ <=? _); inversion Hfold as [[Hw Hu Hr Hs]]; auto.
Qed.

Lemma UserWorkInLoop_cells (mb : Block) :
  UserWorkInLoop d g mb
  = foldM (uncurry3 (UserWorkInLoop_cell d g))
      (cells_kji (getMBBounds d mb)) mb.
Proof. unfold UserWorkInLoop, cells_kji. now rewrite for_loopM_nest3. Qed.

Lemma nan_field_None (mb : Block) (k j i : Z) :
  nan_field mb k j i = None <->
  forall v, In v checked_variables -> risnan (w mb v k j i) = false.
Proof.
  unfold nan_field, checked_variables. split.
  - intros Hnone v Hv.
    destruct (risnan (w mb IDN k j i)) eqn:H0; [discriminate|].
    destruct (risnan (w mb IPR k j i)) eqn:H1; [discriminate|].
    destruct (risnan (w mb IV1 k j i)) eqn:H2; [discriminate|].
    destruct (risnan (w mb IV2 k j i)) eqn:H3; [discriminate|].
    destruct (risnan (w mb IV3 k j i)) eqn:H4; [discriminate|].
    cbn in Hv. intuition (subst; assumption).
  - intros Hall.
    rewrite (Hall IDN), (Hall IPR), (Hall IV1), (Hall IV2), (Hall IV3);
      cbn; tauto.
Qed.

Lemma nan_field_Some (mb : Block) (k j i : Z) (field : string) :
  nan_field mb k j i = Some field ->
  exists v, In (field, v) field_names /\ risnan (w mb v k j i) = true.
Proof.
  unfold nan_field, field_names. intros Hsome.
  destruct (risnan (w mb IDN k j i)) eqn:H0;
    [inversion Hsome; exists IDN; cbn; auto|].
  destruct (risnan (w mb IPR k j i)) eqn:H1;
    [inversion Hsome; exists IPR; cbn; auto|].
  destruct (risnan (w mb IV1 k j i)) eqn:H2;
    [inversion Hsome; exists IV1; cbn; auto|].
  destruct (risnan (w mb IV2 k j i)) eqn:H3;
    [inversion Hsome; exists IV2; cbn; auto 6|].
  destruct (risnan (w mb IV3 k j i)) eqn:H4;
    [inversion Hsome; exists IV3; cbn; auto 7|].
  discriminate.
Qed.

(** C8.  With a coordinate system [getRad] accepts: if some primitive
    variable of some cell within the loop bounds is not-a-number,
    [UserWorkInLoop] throws, and the diagnostic names a variable and a cell
    [(k, j, i)] within the bounds for which that variable is not-a-number,
    together with the time and the cycle of the mesh; if no primitive
    variable of any such cell is not-a-number, it returns. *)
Theorem UserWorkInLoop_nan_check (mb : Block) :
  supported d ->
  let b := getMBBounds d mb in
  ((exists k j i v,
      within b k j i /\ In v checked_variables /\
      risnan (w mb v k j i) = true) ->
   exists field v k j i,
     UserWorkInLoop d g mb
     = Fatal (NanDetected field k j i (time mb) (ncycle mb)) /\
     within b k j i /\ In (field, v) field_names /\
     risnan (w mb v k j i) = true) /\
  ((forall k j i v,
      within b k j i -> In v checked_variables ->
      risnan (w mb v k j i) = false) ->
   exists mb', UserWorkInLoop d g mb = OK mb').
Proof.
  intros Hsup b. rewrite UserWorkInLoop_cells. fold b. split.
  - intros (k & j & i & v & Hin & Hv & Hnan).
    destruct (first_true
                (fun x => match uncurry3 (nan_field mb) x with
                          | Some _ => true | None => false end)
                (cells_kji b)) as (pre & x & post & Hsplit & Hx & Hpre).
    { exists (k, j, i). split; [now apply cells_kji_In|].
      unfold uncurry3. cbn [fst snd].
      destruct (nan_field mb k j i) eqn:Hf; [reflexivity|].
      rewrite nan_field_None in Hf. rewrite (Hf v Hv) in Hnan. discriminate. }
    destruct (uncurry3 (nan_field mb) x) as [field|] eqn:Hfield;
      [|discriminate].
    destruct x as [[k' j'] i']. unfold uncurry3 in Hfield.
    cbn [fst snd] in Hfield.
    destruct (nan_field_Some mb k' j' i' field Hfield) as (v' & Hname & Hnan').
    exists field, v', k', j', i'. split; [|split; [|split]]; auto.
    + rewrite Hsplit.
      rewrite (end_of_step_nan pre post (k', j', i') field mb); auto.
      * rewrite <- Hsplit. apply cells_kji_NoDup.
      * intros y Hy. specialize (Hpre y Hy). cbv beta in Hpre.
        now destruct (uncurry3 (nan_field mb) y).
    + apply cells_kji_In. rewrite Hsplit. apply in_or_app. right. now left.
  - intros Hclean. eexists. apply end_of_step_ok; auto.
    + apply cells_kji_NoDup.
    + intros [[k j] i] Hin. unfold uncurry3. cbn [fst snd].
      apply nan_field_None. intros v Hv. apply Hclean; auto.
      now apply cells_kji_In.
Qed.

(** C10.  With a coordinate system [getRad] accepts and no not-a-number
    among the primitive variables, [UserWorkInLoop] returns, and in the
    block it returns: a cell within the loop bounds whose radius is at most
    [r_replenish] holds the initial conditions of its radius in the
    primitive variables, their conserved counterparts (energy
    [press / (gamma - 1)], momenta velocity times density) and, for every
    species, the initial abundance in [r] and the abundance times the
    density in [s]; every other cell holds what it held before. *)
Theorem UserWorkInLoop_replenishes (mb : Block) :
  supported d ->
  let b := getMBBounds d mb in
  (forall k j i v,
     within b k j i -> In v checked_variables ->
     risnan (w mb v k j i) = false) ->
  exists mb',
    UserWorkInLoop d g mb = OK mb' /\
    forall k j i,
      let rad := radius d mb k j i in
      let ic := SetInitialConditions g rad in
      (within b k j i -> (rad <=? r_replenish g) = true ->
       (w mb' IPR k j i = press ic /\ w mb' IDN k j i = dens ic /\
        w mb' IV1 k j i = v1 ic /\ w mb' IV2 k j i = v2 ic /\
        w mb' IV3 k j i = v3 ic) /\
       (u mb' IEN k j i = press ic / (gas_gamma g - rq 1.0) /\
        u mb' IDN k j i = dens ic /\
        u mb' IM1 k j i = v1 ic * dens ic /\
        u mb' IM2 k j i = v2 ic * dens ic /\
        u mb' IM3 k j i = v3 ic * dens ic) /\
       (forall n, (0 <= n < NSCALARS d)%Z ->
          r mb' n k j i = initial_abundances mb n k j i /\
          s mb' n k j i = initial_abundances mb n k j i * dens ic)) /\
      (~ (within b k j i /\ (rad <=? r_replenish g) = true) ->
       forall n,
         w mb' n k j i = w mb n k j i /\ u mb' n k j i = u mb n k j i /\
         r mb' n k j i = r mb n k j i /\ s mb' n k j i = s mb n k j i).
Proof.
  intros Hsup b Hclean. rewrite UserWorkInLoop_cells. fold b.
  rewrite end_of_step_ok; auto.
  2: apply cells_kji_NoDup.
  2: { intros [[k j] i] Hin. unfold uncurry3. cbn [fst snd].
       apply nan_field_None. intros v Hv. apply Hclean; auto.
       now apply cells_kji_In. }
  eexists. split; [reflexivity|]. intros k j i rad ic. split.
  - intros Hin Hrad.
    assert (Hvis := fun n =>
      end_of_step_visited (cells_kji b) mb k j i n (cells_kji_NoDup b)
        (proj2 (cells_kji_In b k j i) Hin)).
    cbv zeta in Hvis. fold rad ic in Hvis. rewrite Hrad in Hvis.
    split; [|split].
    + destruct (Hvis IPR) as (H4 & _), (Hvis IDN) as (H0 & _),
        (Hvis IV1) as (H1 & _), (Hvis IV2) as (H2 & _),
        (Hvis IV3) as (H3 & _).
      rewrite H0, H1, H2, H3, H4. unfold replenished_w. cbn. tauto.
    + destruct (Hvis IEN) as (_ & H4 & _), (Hvis IDN) as (_ & H0 & _),
        (Hvis IM1) as (_ & H1 & _), (Hvis IM2) as (_ & H2 & _),
        (Hvis IM3) as (_ & H3 & _).
      rewrite H0, H1, H2, H3, H4. unfold replenished_u. cbn. tauto.
    + intros n Hn. destruct (Hvis n) as (_ & _ & Hr & Hs).
      rewrite Hr, Hs. unfold replenished_r, replenished_s.
      now rewrite (proj2 (is_species_true n) Hn).
  - intros Hout n.
    destruct (in_dec cell_eq_dec (k, j, i) (cells_kji b)) as [Hin|Hnot].
    + pose proof (end_of_step_visited (cells_kji b) mb k j i n
                    (cells_kji_NoDup b) Hin) as Hvis.
      cbv zeta in Hvis. fold rad in Hvis.
      destruct (rad <=? r_replenish g).
      * exfalso. apply Hout. split; [now apply cells_kji_In|reflexivity].
      * exact Hvis.
    + destruct (end_of_step_untouched (cells_kji b) mb k j i Hnot n)
        as (Hw & Hu & Hs & Hr).
      auto.
Qed.

End EndOfStep.

Section EndOfStepSamples.
Import Tripathi.

Lemma tripathi_defs_supported : supported Samples.tripathi_defs.
Proof. right. reflexivity. Qed.

(** The theorem applied to a block whose first velocity is not-a-number
    in the interior cell [i = 3]. *)
Lemma UserWorkInLoop_nan_check_witness :
  supported Samples.tripathi_defs /\
  (exists k j i v,
     within (getMBBounds Samples.tripathi_defs Samples.nan_block) k j i /\
     In v checked_variables /\
     risnan (w Samples.nan_block v k j i) = true) /\
  exists field v k j i,
    UserWorkInLoop Samples.tripathi_defs
      (InitUserMeshData (Samples.lift_input Samples.planet_input))
      Samples.nan_block
    = Fatal (NanDetected field k j i (time Samples.nan_block)
               (ncycle Samples.nan_block)) /\
    within (getMBBounds Samples.tripathi_defs Samples.nan_block) k j i /\
    In (field, v) field_names /\
    risnan (w Samples.nan_block v k j i) = true.
Proof.
  assert (Hnan : exists k j i v,
     within (getMBBounds Samples.tripathi_defs Samples.nan_block) k j i /\
     In v checked_variables /\
     risnan (w Samples.nan_block v k j i) = true).
  { exists 0%Z, 0%Z, 3%Z, IV1. split; [|split].
    - cbv. intuition discriminate.
    - cbn. auto.
    - reflexivity. }
  split; [exact tripathi_defs_supported|]. split; [exact Hnan|].
  exact (proj1 (UserWorkInLoop_nan_check Samples.tripathi_defs
                  (InitUserMeshData (Samples.lift_input Samples.planet_input))
                  Samples.nan_block tripathi_defs_supported) Hnan).
Defined.

(** On that block the loop passes the ghost zones and the first interior
    cell, and stops at cell [(0, 0, 3)] with the name of the velocity. *)
Lemma UserWorkInLoop_nan_block :
  UserWorkInLoop Samples.tripathi_defs
    (InitUserMeshData (Samples.lift_input Samples.planet_input))
    Samples.nan_block
  = Fatal (NanDetected "vel1" 0 0 3 (Fin 86400) 1200).
Proof.
  rewrite UserWorkInLoop_cells.
  change (cells_kji (getMBBounds Samples.tripathi_defs Samples.nan_block))
    with ([(0, 0, 0); (0, 0, 1); (0, 0, 2)]%Z
          ++ (0, 0, 3)%Z :: [(0, 0, 4); (0, 0, 5); (0, 0, 6); (0, 0, 7)]%Z).
  apply (end_of_step_nan Samples.tripathi_defs
           (InitUserMeshData (Samples.lift_input Samples.planet_input))
           [(0, 0, 0); (0, 0, 1); (0, 0, 2)]%Z
           [(0, 0, 4); (0, 0, 5); (0, 0, 6); (0, 0, 7)]%Z (0, 0, 3)%Z
           "vel1" Samples.nan_block tripathi_defs_supported).
  - apply (cells_kji_NoDup
             (getMBBounds Samples.tripathi_defs Samples.nan_block)).
  - intros y [<-|[<-|[<-|[]]]]; reflexivity.
  - reflexivity.
Qed.

(** The theorem applied to the block of [planet_block], whose numbers are
    real. *)
Lemma UserWorkInLoop_replenishes_witness :
  supported Samples.tripathi_defs /\
  (forall k j i v,
     within (getMBBounds Samples.tripathi_defs Samples.planet_block) k j i ->
     In v checked_variables ->
     risnan (w Samples.planet_block v k j i) = false) /\
  exists mb',
    UserWorkInLoop Samples.tripathi_defs
      (InitUserMeshData Samples.planet_input) Samples.planet_block = OK mb'.
Proof.
  split; [exact tripathi_defs_supported|]. split; [reflexivity|].
  destruct (UserWorkInLoop_replenishes (RO := R_ops) Samples.tripathi_defs
              (InitUserMeshData Samples.planet_input) Samples.planet_block
              tripathi_defs_supported (fun _ _ _ _ _ _ => eq_refl false))
    as [mb' [Hrun _]].
  exists mb'. exact Hrun.
Defined.

End EndOfStepSamples.

(* ================================================================== *)
(** * The initial state of [src/pgen/tripathi.cpp] *)
(* ================================================================== *)

Section InitialState.
Import Tripathi.
Context {Real : Type} {RO : RealOps Real}.
Local Open Scope real_scope.

Variable PrimitiveToConserved :
  Array4 Real -> Array4 Real -> Bounds -> Array4 Real.
Variable d : Defs.
Variable g : Globals (Real := Real).

Local Abbreviation Block := (MeshBlock (Real := Real)).

Lemma three_species (n : Z) :
  (0 <= n < 3)%Z -> n = ELEC \/ n = HYD \/ n = HPLUS.
Proof. unfold ELEC, HYD, HPLUS. lia. Qed.

Lemma abundances_at_cell (mb : Block) (rad : Real) (k j i n : Z)
    (ia : Array4 Real) :
  NSCALARS d = 3%Z -> (0 <= n < 3)%Z ->
  abundances_at d g mb rad k j i ia n k j i = abundance g mb rad n.
Proof.
  intros HN Hn. unfold abundances_at, abundance. rewrite HN.
  match goal with
  | |- for_loop _ _ _ ?a _ _ _ _ = _ =>
      destruct (species_loop (fun n v => v * m mb n) 3 k j i a)
        as (Hin & _ & _)
  end.
  rewrite Hin by exact Hn. f_equal.
  destruct (rad <=? r_e g);
    destruct (three_species n Hn) as [ -> | [ -> | -> ] ];
    rewrite !set4_same_cell; reflexivity.
Qed.

Lemma abundances_at_other (mb : Block) (rad : Real) (k j i n k' j' i' : Z)
    (ia : Array4 Real) :
  (k', j', i') <> (k, j, i) ->
  abundances_at d g mb rad k j i ia n k' j' i' = ia n k' j' i'.
Proof.
  intros Hne. unfold abundances_at.
  match goal with
  | |- for_loop _ _ _ ?a _ _ _ _ = _ =>
      destruct (species_loop (fun n v => v * m mb n) (NSCALARS d) k j i a)
        as (_ & _ & Hout)
  end.
  rewrite Hout by exact Hne.
  destruct (rad <=? r_e g); now read_set4.
Qed.

Lemma SetInitialAbundances_result (mb : Block) (ia0 : Array4 Real) :
  supported d -> NSCALARS d = 3%Z ->
  exists ia,
    SetInitialAbundances d g mb ia0 = OK ia /\
    forall k j i n,
      within (getMBBounds d mb) k j i -> (0 <= n < 3)%Z ->
      ia n k j i = abundance g mb (radius d mb k j i) n.
Proof.
  intros Hsup HN. unfold SetInitialAbundances.
  rewrite for_loopM_nest3.
  rewrite (foldM_total _
             (uncurry3 (fun k j i =>
                abundances_at d g mb (radius d mb k j i) k j i))).
  2: { intros [[k j] i] acc _. unfold uncurry3, SetInitialAbundances_cell.
       cbn [fst snd]. now rewrite getRad_supported. }
  eexists. split; [reflexivity|]. intros k j i n Hin Hn.
  refine (fold_left_visited
            (uncurry3 (fun k j i =>
               abundances_at d g mb (radius d mb k j i) k j i))
            (fun (a : Array4 Real) x => uncurry3 (a n) x)
            (fun x _ => abundance g mb (uncurry3 (radius d mb) x) n)
            (fun _ => True) _ _ _ (cells_kji (getMBBounds d mb)) ia0
            (k, j, i) I (cells_kji_NoDup _)
            (proj2 (cells_kji_In _ k j i) Hin)).
  - auto.
  - intros [[k' j'] i'] a _. unfold uncurry3. cbn [fst snd].
    now apply abundances_at_cell.
  - intros [[k' j'] i'] [[k'' j''] i''] a _ Hne. unfold uncurry3.
    cbn [fst snd]. now apply abundances_at_other.
Qed.

Lemma generate_at_cell (mb : Block) (rad : Real) (k j i : Z)
    (ws : Array4 Real * Array4 Real) :
  let ws' := generate_at d g mb rad k j i ws in
  let ic := SetInitialConditions g rad in
  fst ws' IDN k j i = dens ic /\
  forall n, (0 <= n < NSCALARS d)%Z ->
    snd ws' n k j i = initial_abundances mb n k j i * dens ic.
Proof.
  cbv zeta. unfold generate_at. cbn [fst snd]. split.
  - now read_set4.
  - intros n Hn.
    destruct (species_loop
                (fun n _ => initial_abundances mb n k j i
                            * dens (SetInitialConditions g rad))
                (NSCALARS d) k j i (snd ws)) as (Hin & _ & _).
    now apply Hin.
Qed.

Lemma generate_at_other (mb : Block) (rad : Real) (k j i n k' j' i' : Z)
    (ws : Array4 Real * Array4 Real) :
  (k', j', i') <> (k, j, i) ->
  let ws' := generate_at d g mb rad k j i ws in
  fst ws' n k' j' i' = fst ws n k' j' i' /\
  snd ws' n k' j' i' = snd ws n k' j' i'.
Proof.
  intros Hne. cbv zeta. unfold generate_at. cbn [fst snd]. split.
  - now read_set4.
  - destruct (species_loop
                (fun n _ => initial_abundances mb n k j i
                            * dens (SetInitialConditions g rad))
                (NSCALARS d) k j i (snd ws)) as (_ & _ & Hout).
    now apply Hout.
Qed.

(** The block [ProblemGenerator] returns: density and species densities
    of the cells within the loop bounds. *)
Lemma ProblemGenerator_result (mb : Block) :
  supported d -> NSCALARS d = 3%Z ->
  exists mb',
    ProblemGenerator PrimitiveToConserved d g mb = OK mb' /\
    forall k j i,
      within (getMBBounds d mb) k j i ->
      let ic := SetInitialConditions g (radius d mb k j i) in
      w mb' IDN k j i = dens ic /\
      forall n, (0 <= n < 3)%Z ->
        s mb' n k j i = abundance g mb (radius d mb k j i) n * dens ic.
Proof.
  intros Hsup HN. unfold ProblemGenerator. rewrite HN. cbn [Z.eqb negb].
  change (Pos.eqb 3 3) with true. cbn [negb].
  destruct (SetInitialAbundances_result mb (fun _ _ _ _ => rq 0) Hsup HN)
    as (ia & Hia & Hvals).
  rewrite Hia. cbn [bind].
  set (mb1 := with_arrays mb (w mb) (u mb) (s mb) (r mb) ia).
  change (getMBBounds d mb1) with (getMBBounds d mb).
  rewrite for_loopM_nest3.
  set (cells := cells3 _ _ _).
  rewrite (foldM_total _
             (uncurry3 (fun i j k =>
                generate_at d g mb1 (radius d mb k j i) k j i))).
  2: { intros [[i j] k] acc _. unfold uncurry3, ProblemGenerator_cell.
       cbn [fst snd]. now rewrite getRad_supported. }
  cbn [bind].
  set (ws := fold_left _ cells _).
  destruct ws as [w' s'] eqn:Hws.
  eexists. split; [reflexivity|]. intros k j i Hin. cbv zeta.
  unfold with_arrays. cbn [w s].
  assert (Hcell : In (i, j, k) cells).
  { subst cells. apply cells3_In. rewrite !range_In.
    unfold within in Hin. tauto. }
  assert (Hnd : NoDup cells).
  { subst cells. apply cells3_NoDup; apply range_NoDup. }
  assert (Hw : fst ws IDN k j i
               = dens (SetInitialConditions g (radius d mb k j i))).
  { subst ws.
    refine (fold_left_visited
              (uncurry3 (fun i j k =>
                 generate_at d g mb1 (radius d mb k j i) k j i))
              (fun (a : Array4 Real * Array4 Real) x =>
                 uncurry3 (fun i j k => fst a IDN k j i) x)
              (fun x _ =>
                 uncurry3 (fun i j k =>
                   dens (SetInitialConditions g (radius d mb k j i))) x)
              (fun _ => True) _ _ _ cells _ (i, j, k) I Hnd Hcell).
    - auto.
    - intros [[i' j'] k'] a _. unfold uncurry3. cbn [fst snd].
      apply generate_at_cell.
    - intros [[i' j'] k'] [[i'' j''] k''] a _ Hne. unfold uncurry3.
      cbn [fst snd]. apply generate_at_other. congruence. }
  assert (Hs : forall n, (0 <= n < 3)%Z ->
                 snd ws n k j i
                 = ia n k j i
                   * dens (SetInitialConditions g (radius d mb k j i))).
  { intros n Hn. subst ws.
    refine (fold_left_visited
              (uncurry3 (fun i j k =>
                 generate_at d g mb1 (radius d mb k j i) k j i))
              (fun (a : Array4 Real * Array4 Real) x =>
                 uncurry3 (fun i j k => snd a n k j i) x)
              (fun x _ =>
                 uncurry3 (fun i j k =>
                   ia n k j i
                   * dens (SetInitialConditions g (radius d mb k j i))) x)
              (fun _ => True) _ _ _ cells _ (i, j, k) I Hnd Hcell).
    - auto.
    - intros [[i' j'] k'] a _. unfold uncurry3. cbn [fst snd].
      apply generate_at_cell. rewrite HN. exact Hn.
    - intros [[i' j'] k'] [[i'' j''] k''] a _ Hne. unfold uncurry3.
      cbn [fst snd]. apply generate_at_other. congruence. }
  rewrite Hws in Hw, Hs. cbn [fst snd] in Hw, Hs.
  split; [exact Hw|]. intros n Hn. rewrite Hs by exact Hn.
  now rewrite Hvals.
Qed.

End InitialState.

Section PowerFacts.
Local Open Scope R_scope.

Lemma Q2R_lit_1_0 : Q2R 1.0 = 1.
Proof. unfold Q2R. cbn [Qnum Qden]. lra. Qed.

Lemma Q2R_lit_2 : Q2R 2 = 2.
Proof. unfold Q2R. cbn [Qnum Qden]. lra. Qed.

Lemma Rpower_2 (x : R) : 0 < x -> Rpower x 2 = x * x.
Proof.
  intros Hx. replace 2 with (INR 2) by (simpl; lra).
  rewrite Rpower_pow by exact Hx. simpl. ring.
Qed.

End PowerFacts.

Section InitialStateR.
Import Tripathi.
Local Open Scope R_scope.

Variable PrimitiveToConserved : Array4 R -> Array4 R -> Bounds -> Array4 R.

Lemma profile_base_R (g : Globals) (r : R) :
  profile_base g r
  = (gas_gamma g - 1) / gas_gamma g * G g * Mp g
      / (Rpower (rho_p g) (1 - gas_gamma g) * Rpower (cs g) 2)
    * (1 / r - 1 / Rp g)
    + Rpower (rho_p g) (gas_gamma g - 1).
Proof.
  unfold profile_base. cbv zeta. cbn [rq radd rsub rmul rdiv rpow R_ops].
  now rewrite !Q2R_lit_1_0, Q2R_lit_2.
Qed.

Lemma rho_func_base (g : Globals) (r : R) :
  rho_func g r = Rpower (profile_base g r) (1 / (gas_gamma g - 1)).
Proof.
  unfold rho_func, profile_base. cbv zeta.
  cbn [rq radd rsub rmul rdiv rpow R_ops]. now rewrite !Q2R_lit_1_0.
Qed.

(** [rho_func] is positive where the profile is defined: where the base
    of its outer power is positive. *)
Lemma rho_func_pos (g : Globals) (r : R) :
  0 < profile_base g r -> 0 < rho_func g r.
Proof.
  intros Hbase. rewrite rho_func_base. unfold Rpower. apply exp_pos.
Qed.

Lemma r_0_value (pin : ParameterInput) :
  r_0 (InitUserMeshData pin) = 0.5 * pin_Rp pin.
Proof.
  change (Q2R 0.5 * pin_Rp pin = 0.5 * pin_Rp pin).
  unfold Q2R. cbn [Qnum Qden]. lra.
Qed.

Lemma r_e_value (pin : ParameterInput) :
  r_e (InitUserMeshData pin) = 1.02 * pin_Rp pin.
Proof.
  change (Q2R 1.02 * pin_Rp pin = 1.02 * pin_Rp pin).
  unfold Q2R. cbn [Qnum Qden]. lra.
Qed.

(** The configurations for which the hydrostatic profile is defined up
    to the outer radius [r_e]: positive reference density and sound
    speed, an adiabatic index above 1, attracting gravity, a positive
    planet radius, and a positive base of the power at [r_e].  The base
    decreases with the radius, so it is then positive at every radius up
    to [r_e]. *)
Lemma profile_defined (pin : ParameterInput) (r : R) :
  0 < pin_rho_p pin -> 0 < pin_cs pin -> 1 < pin_gamma pin ->
  0 <= pin_G pin * pin_Mp pin ->
  let g := InitUserMeshData pin in
  0 < profile_base g (r_e g) ->
  0 < r <= r_e g ->
  0 < profile_base g r.
Proof.
  intros Hrho Hcs Hgamma Hgrav g Hedge Hr.
  rewrite profile_base_R in Hedge |- *.
  change (gas_gamma g) with (pin_gamma pin) in *.
  change (G g) with (pin_G pin) in *.
  change (Mp g) with (pin_Mp pin) in *.
  change (rho_p g) with (pin_rho_p pin) in *.
  change (cs g) with (pin_cs pin) in *.
  set (K := Rpower (pin_rho_p pin) (1 - pin_gamma pin)
            * Rpower (pin_cs pin) 2) in *.
  assert (HK : 0 < K).
  { unfold K, Rpower. apply Rmult_lt_0_compat; apply exp_pos. }
  set (t1 := (pin_gamma pin - 1) / pin_gamma pin * pin_G pin * pin_Mp pin
             / K) in *.
  assert (Ht1 : 0 <= t1).
  { unfold t1.
    replace ((pin_gamma pin - 1) / pin_gamma pin * pin_G pin * pin_Mp pin
             / K)
      with ((pin_gamma pin - 1) * / pin_gamma pin
            * (pin_G pin * pin_Mp pin) * / K) by (unfold Rdiv; ring).
    apply Rmult_le_pos; [apply Rmult_le_pos; [apply Rmult_le_pos|]|].
    - lra.
    - apply Rlt_le, Rinv_0_lt_compat. lra.
    - exact Hgrav.
    - apply Rlt_le, Rinv_0_lt_compat. exact HK. }
  assert (Hinv : / r_e g <= / r).
  { apply Rinv_le_contravar; lra. }
  unfold Rdiv in Hedge |- *. nra.
Qed.

Lemma dens_nonneg (pin : ParameterInput) (rad : R) :
  0 < pin_rho_p pin -> 0 < pin_cs pin -> 1 < pin_gamma pin ->
  0 <= pin_G pin * pin_Mp pin -> 0 < pin_Rp pin ->
  0 < profile_base (InitUserMeshData pin) (r_e (InitUserMeshData pin)) ->
  0 <= pin_space_density_factor pin ->
  0 <= dens (SetInitialConditions (InitUserMeshData pin) rad).
Proof.
  intros Hrho Hcs Hgamma Hgrav HRp Hedge Hsdf.
  set (g := InitUserMeshData pin) in *.
  pose proof (r_0_value pin) as H0. pose proof (r_e_value pin) as He.
  fold g in H0, He.
  assert (Hbase : forall r, 0 < r <= r_e g -> 0 < profile_base g r).
  { intros r Hr.
    exact (profile_defined pin r Hrho Hcs Hgamma Hgrav Hedge Hr). }
  unfold SetInitialConditions. cbn [rleb R_ops].
  destruct (Rleb rad (r_0 g)) eqn:Hin0;
    [|destruct (Rleb rad (r_e g)) eqn:Hine]; cbn [dens].
  - change (rho_0 g) with (rho_func g (r_0 g)).
    apply Rlt_le, rho_func_pos, Hbase. lra.
  - apply Rleb_false in Hin0. apply Rleb_true in Hine.
    apply Rlt_le, rho_func_pos, Hbase. lra.
  - change (rho_e g) with (rho_func g (r_e g)).
    change (space_density_factor g) with (pin_space_density_factor pin).
    cbn [rmul R_ops]. apply Rmult_le_pos; [|exact Hsdf].
    apply Rlt_le, rho_func_pos, Hbase. lra.
Qed.

(** The three mass fractions of a cell, over the reals. *)
Lemma abundance_R (g : Globals) (mb : MeshBlock) (rad : R) :
  let minval := sfloor g / m mb ELEC in
  let rest := 1 / m mb HYD - minval in
  if Rle_dec rad (r_e g) then
    abundance g mb rad ELEC = minval * m mb ELEC /\
    abundance g mb rad HYD = rest * m mb HYD /\
    abundance g mb rad HPLUS = minval * m mb HPLUS
  else
    abundance g mb rad ELEC = rest * m mb ELEC /\
    abundance g mb rad HYD = minval * m mb HYD /\
    abundance g mb rad HPLUS = rest * m mb HPLUS.
Proof.
  cbv zeta. unfold abundance. cbn [rq rleb rsub rmul rdiv R_ops].
  rewrite Q2R_lit_1. unfold Rleb.
  destruct (Rle_dec rad (r_e g)); cbn [Z.eqb ELEC HYD HPLUS]; auto.
Qed.

Lemma abundance_sum (g : Globals) (mb : MeshBlock) (rad : R) :
  m mb HYD = m mb ELEC + m mb HPLUS ->
  m mb ELEC <> 0 -> m mb HYD <> 0 ->
  abundance g mb rad ELEC + abundance g mb rad HYD
    + abundance g mb rad HPLUS = 1.
Proof.
  intros Hbal He Hh. pose proof (abundance_R g mb rad) as Hab.
  cbv zeta in Hab.
  destruct (Rle_dec rad (r_e g)); destruct Hab as (-> & -> & ->).
  - replace (m mb HPLUS) with (m mb HYD - m mb ELEC) by lra. now field.
  - replace (m mb HPLUS) with (m mb HYD - m mb ELEC) by lra. now field.
Qed.

Lemma abundance_nonneg (g : Globals) (mb : MeshBlock) (rad : R) (n : Z) :
  0 < m mb ELEC -> 0 < m mb HYD -> 0 < m mb HPLUS ->
  0 <= sfloor g -> sfloor g * m mb HYD <= m mb ELEC ->
  (0 <= n < 3)%Z ->
  0 <= abundance g mb rad n.
Proof.
  intros He Hh Hp Hfloor Hcap Hn.
  pose proof (abundance_R g mb rad) as Hab. cbv zeta in Hab.
  assert (Hmin : 0 <= sfloor g / m mb ELEC).
  { apply Rmult_le_pos; [exact Hfloor|]. apply Rlt_le.
    now apply Rinv_0_lt_compat. }
  assert (Hrest : 0 <= 1 / m mb HYD - sfloor g / m mb ELEC).
  { assert (Hle : sfloor g / m mb ELEC <= 1 / m mb HYD); [|lra].
    apply (Rmult_le_reg_r (m mb ELEC * m mb HYD)); [nra|].
    replace (sfloor g / m mb ELEC * (m mb ELEC * m mb HYD))
      with (sfloor g * m mb HYD) by (field; lra).
    replace (1 / m mb HYD * (m mb ELEC * m mb HYD))
      with (m mb ELEC) by (field; lra).
    exact Hcap. }
  destruct (Rle_dec rad (r_e g)); destruct Hab as (H0 & H1 & H2);
    destruct (three_species n Hn) as [ -> | [ -> | -> ] ];
    rewrite ?H0, ?H1, ?H2; apply Rmult_le_pos; lra.
Qed.

(** C6 (as amended).  Provided the molar mass of hydrogen is the sum of
    those of the electron and of the proton, all positive, and
    [0 <= sfloor <= m(ELEC) / m(HYD)], the density factor of space is not
    negative, and the hydrostatic profile is defined up to the outer
    radius [r_e = 1.02 Rp] (positive reference density, sound speed and
    planet radius, adiabatic index above 1, [G * Mp] not negative, and a
    positive base of the power in [rho_func] at [r_e]):
    [ProblemGenerator] returns, and in every cell within its loop bounds
    the three species densities sum to the gas density [w(IDN)] and none
    of them is negative. *)
Theorem ProblemGenerator_mass_fractions
    (d : Defs) (pin : ParameterInput) (mb : MeshBlock) :
  supported d -> NSCALARS d = 3%Z ->
  m mb HYD = m mb ELEC + m mb HPLUS ->
  0 < m mb ELEC -> 0 < m mb HPLUS ->
  0 <= pin_sfloor pin -> pin_sfloor pin * m mb HYD <= m mb ELEC ->
  0 <= pin_space_density_factor pin ->
  0 < pin_rho_p pin -> 0 < pin_cs pin -> 1 < pin_gamma pin ->
  0 <= pin_G pin * pin_Mp pin -> 0 < pin_Rp pin ->
  0 < profile_base (InitUserMeshData pin) (r_e (InitUserMeshData pin)) ->
  exists mb',
    ProblemGenerator PrimitiveToConserved d (InitUserMeshData pin) mb
    = OK mb' /\
    forall k j i,
      within (getMBBounds d mb) k j i ->
      s mb' ELEC k j i + s mb' HYD k j i + s mb' HPLUS k j i
      = w mb' IDN k j i /\
      0 <= w mb' IDN k j i /\
      forall n, (0 <= n < 3)%Z -> 0 <= s mb' n k j i.
Proof.
  intros Hsup HN Hbal He Hp Hfloor Hcap Hsdf Hrho Hcs Hgamma Hgrav HRp Hedge.
  destruct (ProblemGenerator_result PrimitiveToConserved d
              (InitUserMeshData pin) mb Hsup HN) as (mb' & Hrun & Hvals).
  exists mb'. split; [exact Hrun|]. intros k j i Hin.
  destruct (Hvals k j i Hin) as (Hw & Hs). cbn [rmul R_ops] in Hs.
  set (g := InitUserMeshData pin) in *.
  set (rad := radius d mb k j i) in *.
  pose proof (dens_nonneg pin rad Hrho Hcs Hgamma Hgrav HRp Hedge Hsdf)
    as Hdens.
  fold g in Hdens.
  assert (Hh : 0 < m mb HYD) by lra.
  split; [|split].
  - rewrite Hw, (Hs ELEC), (Hs HYD), (Hs HPLUS) by (cbv; intuition discriminate).
    pose proof (abundance_sum g mb rad Hbal ltac:(lra) ltac:(lra)) as Hsum.
    nra.
  - rewrite Hw. exact Hdens.
  - intros n Hn. rewrite (Hs n Hn). apply Rmult_le_pos; [|exact Hdens].
    apply abundance_nonneg; auto.
Qed.

End InitialStateR.

Section InitialStateSamples.
Import Tripathi.
Local Open Scope R_scope.

Lemma Rpower_planet : Rpower 1e-15 0.4 = 1e-6.
Proof.
  assert (H : 1e-15 = Rpower 1e-3 5).
  { replace 5 with (INR 5) by (simpl; lra).
    rewrite Rpower_pow by lra. cbn [pow]. lra. }
  rewrite H, Rpower_mult.
  replace (5 * 0.4) with 2 by lra.
  rewrite Rpower_2 by lra. lra.
Qed.

(** The profile of the sample planet is defined at its outer radius. *)
Lemma planet_profile_defined :
  0 < profile_base (InitUserMeshData Samples.planet_input)
        (r_e (InitUserMeshData Samples.planet_input)).
Proof.
  rewrite profile_base_R, r_e_value.
  change (0 < (1.4 - 1) / 1.4 * 6.674e-11 * 1e27
              / (Rpower 1e-15 (1 - 1.4) * Rpower 3e5 2)
              * (1 / (1.02 * 1e8) - 1 / 1e8)
              + Rpower 1e-15 (1.4 - 1)).
  replace (1 - 1.4) with (Ropp 0.4) by lra.
  replace (1.4 - 1) with 0.4 by lra.
  rewrite Rpower_Ropp, Rpower_planet, Rpower_2 by lra.
  lra.
Qed.

(** The theorem applied to the block with balanced molar masses. *)
Lemma ProblemGenerator_mass_fractions_witness :
  supported Samples.tripathi_defs /\
  NSCALARS Samples.tripathi_defs = 3%Z /\
  m Samples.balanced_block HYD
  = m Samples.balanced_block ELEC + m Samples.balanced_block HPLUS /\
  0 < m Samples.balanced_block ELEC /\
  0 < m Samples.balanced_block HPLUS /\
  0 <= pin_sfloor Samples.planet_input /\
  pin_sfloor Samples.planet_input * m Samples.balanced_block HYD
  <= m Samples.balanced_block ELEC /\
  0 <= pin_space_density_factor Samples.planet_input /\
  0 < pin_rho_p Samples.planet_input /\
  0 < pin_cs Samples.planet_input /\
  1 < pin_gamma Samples.planet_input /\
  0 <= pin_G Samples.planet_input * pin_Mp Samples.planet_input /\
  0 < pin_Rp Samples.planet_input /\
  0 < profile_base (InitUserMeshData Samples.planet_input)
        (r_e (InitUserMeshData Samples.planet_input)) /\
  exists mb',
    ProblemGenerator Samples.no_conversion Samples.tripathi_defs
      (InitUserMeshData Samples.planet_input) Samples.balanced_block
    = OK mb'.
Proof.
  assert (H1 : m Samples.balanced_block HYD
               = m Samples.balanced_block ELEC
                 + m Samples.balanced_block HPLUS).
  { change (1.00782505 = 0.00054858 + 1.00727647). lra. }
  assert (H2 : 0 < m Samples.balanced_block ELEC).
  { change (0 < 0.00054858). lra. }
  assert (H3 : 0 < m Samples.balanced_block HPLUS).
  { change (0 < 1.00727647). lra. }
  assert (H4 : 0 <= pin_sfloor Samples.planet_input).
  { change (0 <= 0). lra. }
  assert (H5 : pin_sfloor Samples.planet_input * m Samples.balanced_block HYD
               <= m Samples.balanced_block ELEC).
  { change (0 * 1.00782505 <= 0.00054858). lra. }
  assert (H6 : 0 <= pin_space_density_factor Samples.planet_input).
  { change (0 <= 1e-4). lra. }
  assert (H7 : 0 < pin_rho_p Samples.planet_input).
  { change (0 < 1e-15). lra. }
  assert (H8 : 0 < pin_cs Samples.planet_input).
  { change (0 < 3e5). lra. }
  assert (H9 : 1 < pin_gamma Samples.planet_input).
  { change (1 < 1.4). lra. }
  assert (H10 : 0 <= pin_G Samples.planet_input
                     * pin_Mp Samples.planet_input).
  { change (0 <= 6.674e-11 * 1e27). lra. }
  assert (H11 : 0 < pin_Rp Samples.planet_input).
  { change (0 < 1e8). lra. }
  pose proof planet_profile_defined as H12.
  repeat (split; [assumption || exact tripathi_defs_supported
                  || reflexivity|]).
  destruct (ProblemGenerator_mass_fractions Samples.no_conversion
              Samples.tripathi_defs Samples.planet_input
              Samples.balanced_block tripathi_defs_supported eq_refl
              H1 H2 H3 H4 H5 H6 H7 H8 H9 H10 H11 H12) as [mb' [Hrun _]].
  exists mb'. exact Hrun.
Defined.

(** C6, counterexample.  With the molar masses 0.00054858, 1.00784 and
    1.00728 of electron, hydrogen and proton and [sfloor = 0], the cell
    [i = 5], which lies outside [r_e], receives the mass fractions
    [m(ELEC) / m(HYD)], [0] and [m(HPLUS) / m(HYD)]: the species densities
    sum to less than the gas density. *)
Lemma ProblemGenerator_fractions_fall_short :
  exists mb',
    ProblemGenerator Samples.no_conversion Samples.tripathi_defs
      (InitUserMeshData Samples.planet_input) Samples.planet_block
    = OK mb' /\
    within (getMBBounds Samples.tripathi_defs Samples.planet_block) 0 0 5 /\
    s mb' ELEC 0%Z 0%Z 5%Z + s mb' HYD 0%Z 0%Z 5%Z + s mb' HPLUS 0%Z 0%Z 5%Z
    < w mb' IDN 0%Z 0%Z 5%Z.
Proof.
  assert (Hin : within (getMBBounds Samples.tripathi_defs
                          Samples.planet_block) 0 0 5)
    by (cbv; intuition discriminate).
  destruct (ProblemGenerator_result Samples.no_conversion
              Samples.tripathi_defs (InitUserMeshData Samples.planet_input)
              Samples.planet_block tripathi_defs_supported eq_refl)
    as (mb' & Hrun & Hvals).
  exists mb'. split; [exact Hrun|]. split; [exact Hin|].
  destruct (Hvals 0%Z 0%Z 5%Z Hin) as (Hw & Hs). cbn [rmul R_ops] in Hs.
  set (g := InitUserMeshData Samples.planet_input) in *.
  change (radius Samples.tripathi_defs Samples.planet_block 0 0 5)
    with (5 * 2.5e7) in *.
  (* the cell lies outside the atmosphere *)
  assert (Hr0 : Rleb (5 * 2.5e7) (r_0 g) = false).
  { apply Rleb_false. change (r_0 g) with (0.5 * 1e8). lra. }
  assert (Hre : ~ 5 * 2.5e7 <= r_e g).
  { change (r_e g) with (1.02 * 1e8). lra. }
  assert (Hdens : dens (SetInitialConditions g (5 * 2.5e7))
                  = rho_e g * 1e-4).
  { unfold SetInitialConditions. cbn [rleb R_ops]. rewrite Hr0.
    replace (Rleb (5 * 2.5e7) (r_e g)) with false
      by (symmetry; apply Rleb_false; lra).
    reflexivity. }
  pose proof (rho_func_pos g (r_e g) planet_profile_defined) as Hrho.
  change (rho_func g (r_e g)) with (rho_e g) in Hrho.
  pose proof (abundance_R g Samples.planet_block (5 * 2.5e7)) as Hab.
  cbv zeta in Hab. destruct (Rle_dec _ _) as [Hle|_]; [contradiction|].
  destruct Hab as (Ha0 & Ha1 & Ha2).
  change (sfloor g) with 0 in Ha0, Ha1, Ha2.
  change (m Samples.planet_block ELEC) with 0.00054858 in Ha0, Ha1, Ha2.
  change (m Samples.planet_block HYD) with 1.00784 in Ha0, Ha1, Ha2.
  change (m Samples.planet_block HPLUS) with 1.00728 in Ha0, Ha2.
  rewrite Hw, (Hs ELEC), (Hs HYD), (Hs HPLUS), Hdens, Ha0, Ha1, Ha2
    by (cbv; intuition discriminate).
  assert (Hpos : 0 < rho_e g * 1e-4) by lra.
  assert (Hfrac :
    (1 / 1.00784 - 0 / 0.00054858) * 0.00054858
    + 0 / 0.00054858 * 1.00784
    + (1 / 1.00784 - 0 / 0.00054858) * 1.00728 < 1) by lra.
  nra.
Qed.

End InitialStateSamples.

(* ================================================================== *)
(** * Further properties: the energy partition of an ionizing absorber *)
(* ================================================================== *)

Section EnergyFunctionsFrame.
Import IonizingAbsorber.
Context {Real : Type} {RO : RealOps Real}.
Local Open Scope real_scope.

Variable spec : Array1 (Spectrum Real).

Lemma CalculateEnergyFunctions_body_constants (n : Z) (ab : Absorber) :
  lambda_0 (CalculateEnergyFunctions_body spec n ab) = lambda_0 ab /\
  wavelength_coefficient (CalculateEnergyFunctions_body spec n ab)
  = wavelength_coefficient ab.
Proof.
  unfold CalculateEnergyFunctions_body. destruct (rltb _ _); cbn; auto.
Qed.

Lemma CalculateEnergyFunctions_constants (nspec : Z) (ab : Absorber) :
  let ab' := CalculateEnergyFunctions spec nspec ab in
  lambda_0 ab' = lambda_0 ab /\
  wavelength_coefficient ab' = wavelength_coefficient ab.
Proof.
  unfold CalculateEnergyFunctions, for_loop.
  generalize (range 0 (nspec - 1)). intros ns. revert ab.
  induction ns as [|n ns IH]; intros ab; cbn; [auto|].
  destruct (IH (CalculateEnergyFunctions_body spec n ab)) as [H1 H2].
  destruct (CalculateEnergyFunctions_body_constants n ab) as [H3 H4].
  cbn in H1, H2. rewrite H1, H2. auto.
Qed.

Lemma partition_of_constants (ab ab' : Absorber) (n : Z) :
  lambda_0 ab' = lambda_0 ab ->
  wavelength_coefficient ab' = wavelength_coefficient ab ->
  partition_of spec ab' n = partition_of spec ab n.
Proof. intros H1 H2. unfold partition_of. now rewrite H1, H2. Qed.

(** X1.  [CalculateEnergyFunctions] leaves the threshold [lambda_0] and
    the wavelength coefficient as they are and writes [h] and [q] at the
    indices [0 .. nspec - 1] only; what it writes depends on the spectrum
    and on those two constants alone, so that a second call changes
    nothing. *)
Theorem CalculateEnergyFunctions_idempotent
    (nspec : Z) (ab : Absorber) (n : Z) :
  let ab1 := CalculateEnergyFunctions spec nspec ab in
  let ab2 := CalculateEnergyFunctions spec nspec ab1 in
  lambda_0 ab1 = lambda_0 ab /\
  wavelength_coefficient ab1 = wavelength_coefficient ab /\
  (~ (0 <= n < nspec)%Z -> h ab1 n = h ab n /\ q ab1 n = q ab n) /\
  h ab2 n = h ab1 n /\ q ab2 n = q ab1 n.
Proof.
  intros ab1 ab2.
  destruct (CalculateEnergyFunctions_constants nspec ab) as [Hl Hc].
  fold ab1 in Hl, Hc.
  split; [exact Hl|]. split; [exact Hc|]. split.
  - intros Hout. exact (CalculateEnergyFunctions_outside spec nspec ab n Hout).
  - destruct (Z_le_dec 0 n) as [H0|H0]; [destruct (Z_lt_dec n nspec) as [H1|H1]|].
    + pose proof (CalculateEnergyFunctions_at spec nspec ab1 n (conj H0 H1))
        as H2.
      pose proof (CalculateEnergyFunctions_at spec nspec ab n (conj H0 H1))
        as H3.
      cbv zeta in H2, H3. fold ab1 in H3. fold ab2 in H2.
      rewrite (partition_of_constants ab ab1 n Hl Hc) in H2.
      rewrite <- H3 in H2. now inversion H2.
    + apply (CalculateEnergyFunctions_outside spec nspec ab1 n). lia.
    + apply (CalculateEnergyFunctions_outside spec nspec ab1 n). lia.
Qed.

End EnergyFunctionsFrame.

Section EnergyFunctionsBounds.
Import IonizingAbsorber.
Local Open Scope R_scope.

(** X2.  Over the reals, for a positive threshold and a sample of
    non-negative wavelength, the two shares [h(n)] and [q(n)] lie between
    0 and 1, and they add up to 1 exactly when the sample is at or below
    the threshold. *)
Theorem CalculateEnergyFunctions_shares
    (spec : Array1 (Spectrum R)) (nspec : Z) (ab : Absorber) (n : Z) :
  (0 <= n < nspec)%Z ->
  0 < lambda_0 ab ->
  0 <= wave (spec n) * wavelength_coefficient ab ->
  let ab' := CalculateEnergyFunctions spec nspec ab in
  let wv := wave (spec n) * wavelength_coefficient ab in
  0 <= h ab' n <= 1 /\ 0 <= q ab' n <= 1 /\
  (h ab' n + q ab' n = 1 <-> wv <= lambda_0 ab).
Proof.
  intros Hn Hpos Hwv ab' wv.
  pose proof (CalculateEnergyFunctions_at spec nspec ab n Hn) as Hat.
  cbv zeta in Hat. fold ab' in Hat.
  rewrite partition_of_R in Hat. cbv zeta in Hat. fold wv in Hat, Hwv.
  destruct (Rlt_dec (lambda_0 ab) wv) as [Hgt|Hle];
    inversion Hat as [[Hh Hq]].
  - repeat split; try lra.
  - assert (Hinv : 0 < / lambda_0 ab) by now apply Rinv_0_lt_compat.
    assert (H0 : 0 <= wv / lambda_0 ab).
    { unfold Rdiv. apply Rmult_le_pos; lra. }
    assert (H1 : wv / lambda_0 ab <= 1).
    { unfold Rdiv. apply Rmult_le_reg_r with (lambda_0 ab); [exact Hpos|].
      rewrite Rmult_assoc, Rinv_l by lra. lra. }
    repeat split; try lra.
Qed.

Lemma CalculateEnergyFunctions_shares_witness :
  (0 <= 0 < 1)%Z /\
  0 < lambda_0 Samples.threshold_absorber /\
  let ab' :=
    CalculateEnergyFunctions (fun _ => {| wave := 45.6 |}) 1
      Samples.threshold_absorber in
  h ab' 0%Z + q ab' 0%Z = 1.
Proof.
  split; [lia|]. split; [cbn; lra|].
  apply (CalculateEnergyFunctions_shares
           (fun _ => {| wave := 45.6 |}) 1 Samples.threshold_absorber 0).
  - lia.
  - cbn. lra.
  - cbn. lra.
  - cbn. lra.
Defined.

End EnergyFunctionsBounds.

(* ================================================================== *)
(** * Further properties: the errors of the helium cross sections *)
(* ================================================================== *)

Section CrossSectionErrors.
Import HeliumIonization.
Context {Real : Type} {RO : RealOps Real}.
Local Open Scope real_scope.

Variable spline :
  Z -> Array1 (float_triplet Real) -> Real -> Real -> Array1 (float_triplet Real).
Variable find_place_in_table :
  Z -> Array1 (float_triplet Real) -> Real -> Z -> Z * Real.
Variable splint : Real -> Array1 (float_triplet Real) -> Real -> Real.

(** X3.  [CalculateCrossSections] has two ways to fail and tries them in
    this order, for every numeric type.  A table with a row that starts
    below the one before it is rejected before any spectral sample is
    looked at.  With an accepted table, the function fails exactly when
    some sample's energy is not below the first row and is beyond the last
    row of the splined table; otherwise it returns, and the entries of
    [crossSection] outside [0 .. nspec - 1] are what they were. *)
Theorem CalculateCrossSections_errors
    (c : @Constants Real) (coef : Real) (xc_file : string)
    (file_data : Array2 Real) (n_file : Z)
    (fresh : Array1 (float_triplet Real))
    (spec : Array1 (Spectrum Real)) (nspec : Z)
    (crossSection : Array1 Real) :
  let result :=
    CalculateCrossSections spline find_place_in_table splint c coef xc_file
      file_data n_file fresh spec nspec crossSection in
  ((exists i, (0 < i < n_file)%Z /\
              (file_data i 0%Z <? file_data (i - 1)%Z 0%Z) = true) ->
   result = Fatal (NotAscending xc_file)) /\
  (forall file_spec0,
     read_file_spec xc_file file_data n_file fresh = OK file_spec0 ->
     let file_spec := spline n_file file_spec0 (rq 0) (rq 0) in
     ((exists n, (0 <= n < nspec)%Z /\
                 out_of_domain c coef n_file file_spec spec n = true) ->
      result = Fatal EnergyTooHigh) /\
     ((forall n, (0 <= n < nspec)%Z ->
                 out_of_domain c coef n_file file_spec spec n = false) ->
      exists xs,
        result = OK xs /\
        forall n, ~ (0 <= n < nspec)%Z -> xs n = crossSection n)).
Proof.
  intros result. split.
  - intros Hdesc. unfold result, CalculateCrossSections.
    rewrite (read_file_spec_fails xc_file file_data n_file fresh Hdesc).
    reflexivity.
  - intros file_spec0 Hload file_spec. split.
    + intros [n [Hn Hbad]]. unfold result, CalculateCrossSections.
      rewrite Hload. cbn [bind]. fold file_spec. unfold for_loopM.
      rewrite (cross_sections_fail find_place_in_table splint c coef n_file
                 file_spec spec (range 0 (nspec - 1)) ((-1)%Z, crossSection)).
      * reflexivity.
      * exists n. split; [apply range_In; lia | exact Hbad].
    + intros Hgood. unfold result, CalculateCrossSections.
      rewrite Hload. cbn [bind]. fold file_spec. unfold for_loopM.
      rewrite (cross_sections_ok find_place_in_table splint c coef n_file
                 file_spec spec (range 0 (nspec - 1)) ((-1)%Z, crossSection)).
      * cbn [bind]. eexists. split; [reflexivity|].
        intros n Hout.
        rewrite (cross_sections_untouched find_place_in_table splint c coef
                   n_file file_spec spec).
        -- reflexivity.
        -- rewrite range_In. lia.
      * intros n Hin. apply Hgood. apply range_In in Hin. lia.
Qed.

End CrossSectionErrors.

Section CrossSectionErrorsR.
Import HeliumIonization.
Local Open Scope R_scope.

Lemma CalculateCrossSections_errors_witness :
  (exists i, (0 < i < 2)%Z /\
     Rltb (Samples.descending_table i 0%Z)
          (Samples.descending_table (i - 1)%Z 0%Z) = true) /\
  CalculateCrossSections Samples.keep_rows Samples.only_interval
    Samples.linear Samples.physical_constants 1e-9 "He_xc.txt"
    Samples.descending_table 2 Samples.blank_table Samples.beyond_spec 1
    (fun _ => 0)
  = Fatal (NotAscending "He_xc.txt").
Proof.
  assert (Hdesc : exists i, (0 < i < 2)%Z /\
     Rltb (Samples.descending_table i 0%Z)
          (Samples.descending_table (i - 1)%Z 0%Z) = true).
  { exists 1%Z. split; [lia|]. apply Rltb_true. cbn. lra. }
  split; [exact Hdesc|].
  exact (proj1 (CalculateCrossSections_errors (RO := R_ops)
                  Samples.keep_rows Samples.only_interval Samples.linear
                  Samples.physical_constants 1e-9 "He_xc.txt"
                  Samples.descending_table 2 Samples.blank_table
                  Samples.beyond_spec 1 (fun _ => 0)) Hdesc).
Defined.

End CrossSectionErrorsR.

(* ================================================================== *)
(** * Further properties: the radiation bands *)
(* ================================================================== *)

Lemma within_dec (b : Bounds) (k j i : Z) :
  {within b k j i} + {~ within b k j i}.
Proof.
  unfold within.
  destruct (Z_le_dec (ks b) k); [|right; lia].
  destruct (Z_le_dec k (ke b)); [|right; lia].
  destruct (Z_le_dec (js b) j); [|right; lia].
  destruct (Z_le_dec j (je b)); [|right; lia].
  destruct (Z_le_dec (is_ b) i); [|right; lia].
  destruct (Z_le_dec i (ie b)); [|right; lia].
  left. lia.
Qed.

Section RadiationTotal.
Import Radiation.
Local Open Scope R_scope.

Variable Band : Type.
Variable CalculateEnergyDeposition : Band -> Z -> Z -> Z -> Z -> Array1 R.
Variable CellVolume : Z -> Z -> Z -> Z -> Array1 R.
Variable b : Bounds.
Variable dt : R.

Local Abbreviation flux_of k j i :=
  (fun p => CalculateEnergyDeposition p k j (is_ b) (ie b) i).

Lemma AddRadiationSourceTerm_fold (pband : list Band) (du : Array4 R) :
  AddRadiationSourceTerm CalculateEnergyDeposition CellVolume pband b dt du
  = fold_left (deposit_band CalculateEnergyDeposition CellVolume b dt)
      pband du.
Proof. now destruct pband. Qed.

Lemma deposit_bands_energy (pband : list Band) :
  forall (du : Array4 R) (k j i : Z),
    within b k j i ->
    fold_left (deposit_band CalculateEnergyDeposition CellVolume b dt)
      pband du IEN k j i
    = du IEN k j i
      - dt * fold_right Rplus 0 (map (flux_of k j i) pband)
        / CellVolume k j (is_ b) (ie b) i.
Proof.
  induction pband as [|p rest IH]; intros du k j i Hin; cbn [fold_left map fold_right].
  - unfold Rdiv. ring.
  - rewrite (IH _ k j i Hin).
    rewrite (deposit_band_energy Band CalculateEnergyDeposition CellVolume
               b dt p du k j i Hin).
    cbn [rsub rmul rdiv R_ops]. unfold Rdiv. ring.
Qed.

Lemma deposit_bands_frame (pband : list Band) :
  forall (du : Array4 R) (n k j i : Z),
    ~ (n = IEN /\ within b k j i) ->
    fold_left (deposit_band CalculateEnergyDeposition CellVolume b dt)
      pband du n k j i
    = du n k j i.
Proof.
  induction pband as [|p rest IH]; intros du n k j i Hout; cbn [fold_left].
  - reflexivity.
  - rewrite (IH _ n k j i Hout).
    exact (deposit_band_frame Band CalculateEnergyDeposition CellVolume
             b dt p du n k j i Hout).
Qed.

Lemma fold_right_Rplus_perm (xs ys : list R) :
  Permutation xs ys -> fold_right Rplus 0 xs = fold_right Rplus 0 ys.
Proof.
  induction 1; cbn [fold_right]; try lra.
Qed.

(** X4.  Over the reals, [AddRadiationSourceTerm] lowers the energy of an
    interior cell by the time step times the deposition of all bands
    together, divided by the cell volume; the order in which the bands are
    linked makes no difference to any entry of [du]. *)
Theorem AddRadiationSourceTerm_total
    (pband : list Band) (du : Array4 R) (k j i : Z) :
  let run pband :=
    AddRadiationSourceTerm CalculateEnergyDeposition CellVolume pband b dt du
  in
  (within b k j i ->
   run pband IEN k j i
   = du IEN k j i
     - dt * fold_right Rplus 0 (map (flux_of k j i) pband)
       / CellVolume k j (is_ b) (ie b) i) /\
  (forall pband' n,
     Permutation pband pband' -> run pband' n k j i = run pband n k j i).
Proof.
  intros run. split.
  - intros Hin. unfold run. rewrite AddRadiationSourceTerm_fold.
    now apply deposit_bands_energy.
  - intros pband' n Hperm. unfold run.
    rewrite !AddRadiationSourceTerm_fold.
    destruct (Z.eq_dec n IEN) as [->|Hn];
      [destruct (within_dec b k j i) as [Hin|Hout]|].
    + rewrite !deposit_bands_energy by exact Hin.
      rewrite (fold_right_Rplus_perm _ _
                 (Permutation_map (flux_of k j i) Hperm)).
      reflexivity.
    + rewrite !deposit_bands_frame by tauto. reflexivity.
    + rewrite !deposit_bands_frame by tauto. reflexivity.
Qed.

End RadiationTotal.

Lemma AddRadiationSourceTerm_total_witness :
  within Samples.block_1d 0 0 3 /\
  Radiation.AddRadiationSourceTerm Samples.band_deposition Samples.volume_2
    Samples.two_bands Samples.block_1d 1%R (fun _ _ _ _ => 10%R) IEN 0%Z 0%Z 3%Z
  = (10 - 1 * (1 + (2 + 0)) / 2)%R.
Proof.
  assert (Hin : within Samples.block_1d 0 0 3).
  { unfold within. cbn. lia. }
  split; [exact Hin|].
  exact (proj1 (AddRadiationSourceTerm_total R Samples.band_deposition
                  Samples.volume_2 Samples.block_1d 1%R Samples.two_bands
                  (fun _ _ _ _ => 10%R) 0 0 3) Hin).
Defined.

Section Bands.
Import RadiationBands.
Context {Real : Type} {RO : RealOps Real}.
Local Open Scope real_scope.

Local Abbreviation BandT := (RadiationBand (Real := Real)).

Lemma GetNumBands_from_length (p : list BandT) :
  forall n, GetNumBands_from p n = (n + Z.of_nat (List.length p))%Z.
Proof.
  induction p as [|band next IH]; intros n; cbn [GetNumBands_from List.length].
  - lia.
  - rewrite IH. lia.
Qed.

Lemma GetBand_from_nth (p : list BandT) :
  forall b n,
    GetBand_from p b n
    = if (n <? b)%Z then None else nth_error p (Z.to_nat (n - b)).
Proof.
  induction p as [|band next IH]; intros b n; cbn [GetBand_from].
  - destruct (n <? b)%Z; [reflexivity|]. now destruct (Z.to_nat (n - b)).
  - destruct (Z.eqb_spec b n) as [->|Hne].
    + rewrite Z.ltb_irrefl, Z.sub_diag. reflexivity.
    + rewrite IH.
      destruct (Z.ltb_spec n b) as [Hlt|Hge].
      * destruct (Z.ltb_spec n (b + 1)); [reflexivity|lia].
      * destruct (Z.ltb_spec n (b + 1)); [lia|].
        replace (Z.to_nat (n - b)) with (S (Z.to_nat (n - (b + 1)))) by lia.
        reflexivity.
Qed.

(** X5.  [GetNumBands] returns the length of the list of bands, and
    [GetBand(n)] returns the band at position [n], counted from 0: it
    returns a band exactly for [0 <= n < GetNumBands()], and [NULL] for
    every other [n], negative ones included. *)
Theorem GetBand_in_range (pband : list BandT) (n : Z) :
  GetNumBands pband = Z.of_nat (List.length pband) /\
  GetBand pband n
  = (if (n <? 0)%Z then None else nth_error pband (Z.to_nat n)) /\
  (GetBand pband n <> None <-> (0 <= n < GetNumBands pband)%Z).
Proof.
  assert (Hnum : GetNumBands pband = Z.of_nat (List.length pband)).
  { unfold GetNumBands. rewrite GetNumBands_from_length. lia. }
  assert (Hget : GetBand pband n
            = if (n <? 0)%Z then None else nth_error pband (Z.to_nat n)).
  { unfold GetBand. rewrite GetBand_from_nth. now rewrite Z.sub_0_r. }
  split; [exact Hnum|]. split; [exact Hget|].
  rewrite Hget, Hnum.
  destruct (Z.ltb_spec n 0) as [Hneg|Hpos].
  - split; [congruence|lia].
  - rewrite nth_error_Some. lia.
Qed.

Variable k j il iu : Z.

Lemma add_net_flux_row (p : BandT) (rf : RadFlux) :
  let rf' := for_loop il iu (add_net_flux p k j) rf in
  X2DIR rf' = X2DIR rf /\ X3DIR rf' = X3DIR rf /\
  (forall i, (il <= i <= iu)%Z ->
     X1DIR rf' k j i
     = X1DIR rf k j i + (bflxup p k j i - bflxdn p k j i)) /\
  (forall k' j' i', ~ (k' = k /\ j' = j /\ (il <= i' <= iu)%Z) ->
     X1DIR rf' k' j' i' = X1DIR rf k' j' i').
Proof.
  intros rf'. unfold rf', for_loop. clear rf'.
  split; [|split; [|split]].
  - generalize (range il iu). intros xs. revert rf.
    induction xs as [|x xs IH]; intros rf; cbn [fold_left]; [reflexivity|].
    now rewrite IH.
  - generalize (range il iu). intros xs. revert rf.
    induction xs as [|x xs IH]; intros rf; cbn [fold_left]; [reflexivity|].
    now rewrite IH.
  - intros i Hi.
    refine (fold_left_visited (add_net_flux p k j)
              (fun rf i => X1DIR rf k j i)
              (fun i v => v + (bflxup p k j i - bflxdn p k j i))
              (fun _ => True) _ _ _ (range il iu) rf i I
              (range_NoDup il iu) _).
    + auto.
    + intros x s _. cbn [add_net_flux X1DIR]. apply set3_same.
    + intros x y s _ Hne. cbn [add_net_flux X1DIR]. apply set3_other.
      congruence.
    + apply range_In. exact Hi.
  - intros k' j' i' Hout.
    assert (Hgen : forall xs rf0,
              (forall x, In x xs -> (il <= x <= iu)%Z) ->
              X1DIR (fold_left (fun acc x => add_net_flux p k j x acc) xs rf0)
                k' j' i' = X1DIR rf0 k' j' i').
    { induction xs as [|x xs IH]; intros rf0 Hxs; cbn [fold_left];
        [reflexivity|].
      rewrite IH by (intros y Hy; apply Hxs; now right).
      cbn [add_net_flux X1DIR]. apply set3_other.
      intros Heq. inversion Heq; subst. apply Hout.
      repeat split; apply (Hxs x); now left. }
    apply Hgen. intros x Hx. now apply range_In.
Qed.

Lemma net_flux_bands (pband : list BandT) :
  forall rf : RadFlux,
    let rf' :=
      fold_left (fun rf p => for_loop il iu (add_net_flux p k j) rf)
        pband rf in
    X2DIR rf' = X2DIR rf /\ X3DIR rf' = X3DIR rf /\
    (forall i, (il <= i <= iu)%Z ->
       X1DIR rf' k j i
       = fold_left
           (fun acc p => acc + (bflxup p k j i - bflxdn p k j i))
           pband (X1DIR rf k j i)) /\
    (forall k' j' i', ~ (k' = k /\ j' = j /\ (il <= i' <= iu)%Z) ->
       X1DIR rf' k' j' i' = X1DIR rf k' j' i').
Proof.
  induction pband as [|p rest IH]; intros rf; cbn [fold_left].
  - repeat split; reflexivity.
  - destruct (IH (for_loop il iu (add_net_flux p k j) rf))
      as [H2 [H3 [Hin Hout]]].
    destruct (add_net_flux_row p rf) as [R2 [R3 [Rin Rout]]].
    cbv zeta in *.
    split; [congruence|]. split; [congruence|]. split.
    + intros i Hi. rewrite (Hin i Hi), (Rin i Hi). reflexivity.
    + intros k' j' i' Ho. rewrite (Hout k' j' i' Ho). now apply Rout.
Qed.

(** X6.  [CalculateNetFlux(k, j, il, iu)] adds to the x1 flux of each
    cell [il .. iu] of row [(k, j)] the net flux, up minus down, of every
    band in the order of the list; it changes no other cell and neither of
    the other two flux arrays.  Called after [ClearRadFlux], it leaves
    the sum of the net fluxes started from zero, while a second call
    without clearing adds the net fluxes once more. *)
Theorem CalculateNetFlux_accumulates
    (pband : list BandT) (rf : RadFlux) :
  let net i acc :=
    fold_left (fun acc p => acc + (bflxup p k j i - bflxdn p k j i))
      pband acc in
  let rf1 := CalculateNetFlux pband k j il iu rf in
  let rf2 := CalculateNetFlux pband k j il iu rf1 in
  let rf0 := CalculateNetFlux pband k j il iu (ClearRadFlux rf) in
  X2DIR rf1 = X2DIR rf /\ X3DIR rf1 = X3DIR rf /\
  (forall k' j' i', ~ (k' = k /\ j' = j /\ (il <= i' <= iu)%Z) ->
     X1DIR rf1 k' j' i' = X1DIR rf k' j' i') /\
  (forall i, (il <= i <= iu)%Z ->
     X1DIR rf1 k j i = net i (X1DIR rf k j i) /\
     X1DIR rf2 k j i = net i (net i (X1DIR rf k j i)) /\
     X1DIR rf0 k j i = net i (rq 0)).
Proof.
  intros net rf1 rf2 rf0.
  assert (Hfold : forall rf,
            CalculateNetFlux pband k j il iu rf
            = fold_left (fun rf p => for_loop il iu (add_net_flux p k j) rf)
                pband rf).
  { intros rf'. now destruct pband. }
  subst rf0 rf2 rf1. rewrite !Hfold.
  destruct (net_flux_bands pband rf) as [H2 [H3 [Hin Hout]]].
  cbv zeta in *.
  split; [exact H2|]. split; [exact H3|]. split; [exact Hout|].
  intros i Hi. split; [exact (Hin i Hi)|]. split.
  - destruct (net_flux_bands pband
                (fold_left
                   (fun rf p => for_loop il iu (add_net_flux p k j) rf)
                   pband rf)) as [_ [_ [Hin2 _]]].
    cbv zeta in Hin2. rewrite (Hin2 i Hi), (Hin i Hi). reflexivity.
  - destruct (net_flux_bands pband (ClearRadFlux rf)) as [_ [_ [Hin0 _]]].
    cbv zeta in Hin0. rewrite (Hin0 i Hi). reflexivity.
Qed.

End Bands.

(* ================================================================== *)
(** * Further properties: the source terms of the drum problem *)
(* ================================================================== *)

Section DrumEnergy.
Import Drum.
Context {Real : Type} {RO : RealOps Real}.
Local Open Scope real_scope.

Variable CellVolume : Z -> Z -> Z -> Z -> Array1 Real.
Variable dt : Real.
Variable inp : Inputs (Real := Real).

Local Abbreviation vol_of k j :=
  (CellVolume k j (is_ (bounds inp)) (ie (bounds inp))).

Local Abbreviation cell_body :=
  (fun k j i => SourceTerms_cell dt inp (vol_of k j) k j i).

Local Abbreviation loop st :=
  (fold_left (fun acc x => uncurry3 cell_body x acc)
     (cells_kji (bounds inp)) st).

Lemma SourceTerms_loop (st : State) :
  let st' := SourceTerms CellVolume dt inp st in
  du st' = du (loop st) /\
  rad_flux_ion st' = zero_clear3 /\
  rad_eng st' = rad_eng (loop st) /\
  ionization_rate st' = ionization_rate (loop st) /\
  recombination_rate st' = recombination_rate (loop st) /\
  recombinative_cooling st' = recombinative_cooling (loop st) /\
  lya_cooling st' = lya_cooling (loop st) /\
  output_du st' = output_du (loop st).
Proof.
  unfold SourceTerms, SourceTerms_row, cells_kji.
  cbn [du rad_flux_ion rad_eng ionization_rate recombination_rate
       recombinative_cooling lya_cooling output_du].
  rewrite <- for_loop_nest3. repeat split; reflexivity.
Qed.

Lemma SourceTerms_cell_flux (x : Z * Z * Z) (s : State) :
  rad_flux_ion (uncurry3 cell_body x s) = rad_flux_ion s.
Proof. now destruct x as [[k j] i]. Qed.

(** The energy variable [n] of [du] in a cell of the loop. *)
Lemma SourceTerms_du_visited (st : State) (n k j i : Z) :
  within (bounds inp) k j i ->
  du (loop st) n k j i
  = if Z.eqb n IEN then
      du st n k j i
      - (recomb_cooling_rate inp k j i + lya_cooling_rate inp k j i) * dt
    else du st n k j i.
Proof.
  intros Hin.
  refine (fold_left_visited (uncurry3 cell_body)
            (fun (a : State) x => uncurry3 (du a n) x)
            (fun x v =>
               if Z.eqb n IEN then
                 v - (uncurry3 (recomb_cooling_rate inp) x
                      + uncurry3 (lya_cooling_rate inp) x) * dt
               else v)
            (fun a => True) _ _ _ (cells_kji (bounds inp)) st (k, j, i) I
            (cells_kji_NoDup _) (proj2 (cells_kji_In _ k j i) Hin)).
  - auto.
  - intros [[k' j'] i'] s _. unfold uncurry3, SourceTerms_cell.
    cbn [fst snd du]. rewrite set4_same_cell.
    destruct (Z.eqb_spec n IEN) as [->|_]; reflexivity.
  - intros [[k' j'] i'] [[k'' j''] i''] s _ Hne.
    unfold uncurry3, SourceTerms_cell. cbn [fst snd du].
    now rewrite set4_other_cell.
Qed.

Lemma SourceTerms_du_untouched (st : State) (n k j i : Z) :
  ~ within (bounds inp) k j i ->
  du (loop st) n k j i = du st n k j i.
Proof.
  intros Hout.
  refine (fold_left_untouched (uncurry3 cell_body)
            (fun (a : State) x => uncurry3 (du a n) x)
            (fun a => True) _ _ (cells_kji (bounds inp)) st (k, j, i) I _).
  - auto.
  - intros [[k' j'] i'] [[k'' j''] i''] s _ Hne.
    unfold uncurry3, SourceTerms_cell. cbn [fst snd du].
    now rewrite set4_other_cell.
  - rewrite cells_kji_In. exact Hout.
Qed.

(** The output arrays, together with the energy entry of [du], at one
    cell. *)
Local Abbreviation outputs a x :=
  (uncurry3 (du a IEN) x,
   (uncurry3 (output_du a) x,
    (uncurry3 (rad_eng a) x,
     (uncurry3 (ionization_rate a) x,
      (uncurry3 (recombination_rate a) x,
       (uncurry3 (recombinative_cooling a) x,
        uncurry3 (lya_cooling a) x)))))).

Local Abbreviation outputs_at a k j i :=
  (du a IEN k j i,
   (output_du a k j i,
    (rad_eng a k j i,
     (ionization_rate a k j i,
      (recombination_rate a k j i,
       (recombinative_cooling a k j i, lya_cooling a k j i)))))).

Lemma SourceTerms_outputs_visited (st : State) (k j i : Z) :
  within (bounds inp) k j i ->
  let e :=
    du st IEN k j i
    - (recomb_cooling_rate inp k j i + lya_cooling_rate inp k j i) * dt in
  outputs_at (loop st) k j i
  = (e, (e, (prad_du inp k j i,
      (n_ion_gain dt (vol_of k j) st k j i / dt,
       (n_recomb dt inp k j i / dt,
        (recomb_cooling_rate inp k j i, lya_cooling_rate inp k j i)))))).
Proof.
  intros Hin e. unfold e. clear e.
  refine (fold_left_visited (uncurry3 cell_body)
            (fun (a : State) x => outputs a x)
            (fun x v =>
               let e :=
                 fst v
                 - (uncurry3 (recomb_cooling_rate inp) x
                    + uncurry3 (lya_cooling_rate inp) x) * dt in
               (e, (e, (uncurry3 (prad_du inp) x,
                 (uncurry3
                    (fun k j i => n_ion_gain dt (vol_of k j) st k j i) x / dt,
                  (uncurry3 (n_recomb dt inp) x / dt,
                   (uncurry3 (recomb_cooling_rate inp) x,
                    uncurry3 (lya_cooling_rate inp) x)))))))
            (fun a => rad_flux_ion a = rad_flux_ion st) _ _ _
            (cells_kji (bounds inp)) st (k, j, i) eq_refl
            (cells_kji_NoDup _) (proj2 (cells_kji_In _ k j i) Hin)).
  - intros x s Hs. now rewrite SourceTerms_cell_flux.
  - intros [[k' j'] i'] s Hs. unfold uncurry3, SourceTerms_cell.
    cbn [fst snd du output_du rad_eng ionization_rate recombination_rate
         recombinative_cooling lya_cooling].
    rewrite !set3_same, !set4_same. unfold n_ion_gain. rewrite Hs.
    reflexivity.
  - intros [[k' j'] i'] [[k'' j''] i''] s _ Hne.
    unfold uncurry3, SourceTerms_cell.
    cbn [fst snd du output_du rad_eng ionization_rate recombination_rate
         recombinative_cooling lya_cooling].
    rewrite !set3_other by exact Hne. now rewrite set4_other_cell.
Qed.

Lemma SourceTerms_outputs_untouched (st : State) (k j i : Z) :
  ~ within (bounds inp) k j i ->
  outputs_at (loop st) k j i = outputs_at st k j i.
Proof.
  intros Hout.
  refine (fold_left_untouched (uncurry3 cell_body)
            (fun (a : State) x => outputs a x)
            (fun a => True) _ _ (cells_kji (bounds inp)) st (k, j, i) I _).
  - auto.
  - intros [[k' j'] i'] [[k'' j''] i''] s _ Hne.
    unfold uncurry3, SourceTerms_cell.
    cbn [fst snd du output_du rad_eng ionization_rate recombination_rate
         recombinative_cooling lya_cooling].
    rewrite !set3_other by exact Hne. now rewrite set4_other_cell.
  - rewrite cells_kji_In. exact Hout.
Qed.

(** X7.  In every interior cell [SourceTerms] lowers the energy entry of
    [du] by the two cooling rates times the time step, and stores in the
    output arrays the quantities of that update: [output_du] holds the
    updated energy entry, [rad_eng] the radiation module's [du], and the
    four rate arrays the ionisation and recombination numbers per unit
    time and the two cooling rates.  No other entry of [du] changes, and
    the output arrays keep their contents outside the interior. *)
Theorem SourceTerms_energy (st : State) (k j i : Z) :
  let st' := SourceTerms CellVolume dt inp st in
  (within (bounds inp) k j i ->
   du st' IEN k j i
   = du st IEN k j i
     - (recomb_cooling_rate inp k j i + lya_cooling_rate inp k j i) * dt /\
   output_du st' k j i = du st' IEN k j i /\
   rad_eng st' k j i = prad_du inp k j i /\
   ionization_rate st' k j i = n_ion_gain dt (vol_of k j) st k j i / dt /\
   recombination_rate st' k j i = n_recomb dt inp k j i / dt /\
   recombinative_cooling st' k j i = recomb_cooling_rate inp k j i /\
   lya_cooling st' k j i = lya_cooling_rate inp k j i) /\
  (forall n, ~ (n = IEN /\ within (bounds inp) k j i) ->
     du st' n k j i = du st n k j i) /\
  (~ within (bounds inp) k j i ->
   output_du st' k j i = output_du st k j i /\
   rad_eng st' k j i = rad_eng st k j i /\
   ionization_rate st' k j i = ionization_rate st k j i /\
   recombination_rate st' k j i = recombination_rate st k j i /\
   recombinative_cooling st' k j i = recombinative_cooling st k j i /\
   lya_cooling st' k j i = lya_cooling st k j i).
Proof.
  intros st'.
  destruct (SourceTerms_loop st)
    as [Hdu [_ [Hre [Hir [Hrr [Hrc [Hly Hod]]]]]]].
  fold st' in Hdu, Hre, Hir, Hrr, Hrc, Hly, Hod.
  rewrite Hdu, Hre, Hir, Hrr, Hrc, Hly, Hod.
  split; [|split].
  - intros Hin. pose proof (SourceTerms_outputs_visited st k j i Hin) as H.
    cbv zeta in H. injection H as H1 H2 H3 H4 H5 H6 H7.
    rewrite H1, H2, H3, H4, H5, H6, H7. repeat split; reflexivity.
  - intros n Hout.
    destruct (within_dec (bounds inp) k j i) as [Hin|Hnot].
    + rewrite (SourceTerms_du_visited st n k j i Hin).
      destruct (Z.eqb_spec n IEN) as [Hn|_]; [tauto|reflexivity].
    + now apply SourceTerms_du_untouched.
  - intros Hnot. pose proof (SourceTerms_outputs_untouched st k j i Hnot) as H.
    injection H as H1 H2 H3 H4 H5 H6 H7.
    rewrite H2, H3, H4, H5, H6, H7. repeat split; reflexivity.
Qed.

End DrumEnergy.

Lemma SourceTerms_energy_witness :
  within (Drum.bounds Samples.neutral_cell) 0 0 0 /\
  Drum.rad_eng
    (Drum.SourceTerms Samples.unit_volume 1%R Samples.neutral_cell
       Samples.overshoot_state) 0%Z 0%Z 0%Z
  = Drum.prad_du Samples.neutral_cell 0%Z 0%Z 0%Z.
Proof.
  split; [exact one_cell_within|].
  exact (proj1 (proj2 (proj2
    (proj1 (SourceTerms_energy (RO := R_ops) Samples.unit_volume 1%R
              Samples.neutral_cell Samples.overshoot_state 0 0 0)
       one_cell_within)))).
Defined.

Section DrumEnergyR.
Import Drum.
Local Open Scope R_scope.

Variable CellVolume : Z -> Z -> Z -> Z -> Array1 R.

Lemma n_ion_nonneg (inp : Inputs) (k j i : Z) :
  0 <= s inp 1%Z k j i -> 0 <= n_ion inp k j i.
Proof.
  intros H. unfold n_ion. cbn [rdiv R_ops]. unfold Rdiv.
  apply Rmult_le_pos; [exact H|]. apply Rlt_le, Rinv_0_lt_compat, mh_pos.
Qed.

Lemma n_neu_nonneg (inp : Inputs) (k j i : Z) :
  0 <= s inp 0%Z k j i -> 0 <= n_neu inp k j i.
Proof.
  intros H. unfold n_neu. cbn [rdiv R_ops]. unfold Rdiv.
  apply Rmult_le_pos; [exact H|]. apply Rlt_le, Rinv_0_lt_compat, mh_pos.
Qed.

Lemma Rpower_nonneg (x y : R) : 0 <= Rpower x y.
Proof. unfold Rpower. apply Rlt_le, exp_pos. Qed.

Lemma cooling_rates_nonneg (inp : Inputs) (k j i : Z) :
  0 <= temperature inp k j i ->
  0 <= s inp 0%Z k j i -> 0 <= s inp 1%Z k j i ->
  0 <= recomb_cooling_rate inp k j i /\ 0 <= lya_cooling_rate inp k j i.
Proof.
  intros HT H0 H1.
  pose proof (n_ion_nonneg inp k j i H1) as Hion.
  pose proof (n_neu_nonneg inp k j i H0) as Hneu.
  split.
  - unfold recomb_cooling_rate. cbv zeta. cbn [rq rmul rpow R_ops].
    apply Rmult_le_pos; [apply Rmult_le_pos; apply Rmult_le_pos|].
    + apply Rlt_le, Q2R_pos. reflexivity.
    + apply Rpower_nonneg.
    + apply Rlt_le, Q2R_pos. reflexivity.
    + exact HT.
    + now apply Rmult_le_pos.
  - unfold lya_cooling_rate. cbv zeta. cbn [rq rmul rdiv rneg rexp R_ops].
    apply Rmult_le_pos; [apply Rmult_le_pos; [apply Rmult_le_pos|]|].
    + apply Rlt_le, Q2R_pos. reflexivity.
    + apply Rlt_le, exp_pos.
    + exact Hion.
    + exact Hneu.
Qed.

(** X8.  Over the reals, [SourceTerms] never raises the energy of a cell:
    with a non-negative time step, temperature and scalar densities, the
    energy entry of [du] of an interior cell does not increase.  The two
    terms the function applies to the energy are both losses. *)
Theorem SourceTerms_only_cools
    (dt : R) (inp : Inputs) (st : State) (k j i : Z) :
  within (bounds inp) k j i ->
  0 <= dt ->
  0 <= temperature inp k j i ->
  0 <= s inp 0%Z k j i -> 0 <= s inp 1%Z k j i ->
  let st' := SourceTerms CellVolume dt inp st in
  du st' IEN k j i <= du st IEN k j i.
Proof.
  intros Hin Hdt HT H0 H1 st'.
  destruct (SourceTerms_loop CellVolume dt inp st) as [Hdu _].
  fold st' in Hdu. rewrite Hdu.
  rewrite (SourceTerms_du_visited CellVolume dt inp st IEN k j i Hin).
  rewrite Z.eqb_refl. cbn [radd rsub rmul R_ops].
  destruct (cooling_rates_nonneg inp k j i HT H0 H1) as [Hr Hl].
  assert (0 <= (recomb_cooling_rate inp k j i + lya_cooling_rate inp k j i)
               * dt).
  { apply Rmult_le_pos; lra. }
  lra.
Qed.

(** X9.  [SourceTerms] spends the ionising flux it finds: it leaves
    [rad_flux_ion] cleared, so that a second call with no absorption in
    between gains no ions.  The ionisation rate of that call is zero, and
    the two scalar entries of [ds] change by the recombinations alone. *)
Theorem SourceTerms_spends_flux
    (dt dt' : R) (inp inp' : Inputs) (st : State) (k j i : Z) :
  let st1 := SourceTerms CellVolume dt inp st in
  let st2 := SourceTerms CellVolume dt' inp' st1 in
  rad_flux_ion st1 k j i = 0 /\
  (within (bounds inp') k j i ->
   ionization_rate st2 k j i = 0 /\
   ds st2 0%Z k j i = ds st1 0%Z k j i + n_recomb dt' inp' k j i * mh /\
   ds st2 1%Z k j i = ds st1 1%Z k j i - n_recomb dt' inp' k j i * mh).
Proof.
  intros st1 st2.
  assert (Hflux : forall k j i, rad_flux_ion st1 k j i = 0).
  { intros k' j' i'. unfold st1, SourceTerms. cbn [rad_flux_ion].
    unfold zero_clear3. cbn [rq R_ops]. exact Q2R_0. }
  split; [apply Hflux|]. intros Hin.
  assert (Hgain : forall vol, n_ion_gain dt' vol st1 k j i = 0).
  { intros vol. unfold n_ion_gain. rewrite Hflux.
    cbn [rneg rmul rdiv R_ops]. unfold Rdiv. ring. }
  split; [|split].
  - destruct (SourceTerms_loop CellVolume dt' inp' st1)
      as [_ [_ [_ [Hir _]]]].
    fold st2 in Hir. rewrite Hir.
    pose proof (SourceTerms_outputs_visited CellVolume dt' inp' st1 k j i Hin)
      as H.
    cbv zeta in H.
    apply (f_equal (fun t => fst (snd (snd (snd t))))) in H.
    cbn [fst snd] in H.
    rewrite H, Hgain. cbn [rdiv R_ops]. unfold Rdiv. ring.
  - destruct (SourceTerms_ds_at CellVolume dt' inp' st1 k j i Hin) as [H _].
    fold st2 in H. rewrite H, Hgain. cbn [radd rsub rmul R_ops]. ring.
  - destruct (SourceTerms_ds_at CellVolume dt' inp' st1 k j i Hin) as [_ H].
    fold st2 in H. rewrite H, Hgain. cbn [radd rsub rmul rneg R_ops]. ring.
Qed.

End DrumEnergyR.

Lemma SourceTerms_only_cools_witness :
  within (Drum.bounds Samples.neutral_cell) 0 0 0 /\
  (Drum.du (Drum.SourceTerms Samples.unit_volume 1%R Samples.neutral_cell
              Samples.overshoot_state) IEN 0%Z 0%Z 0%Z
   <= Drum.du Samples.overshoot_state IEN 0%Z 0%Z 0%Z)%R.
Proof.
  split; [exact one_cell_within|].
  apply (SourceTerms_only_cools Samples.unit_volume 1%R Samples.neutral_cell
           Samples.overshoot_state 0 0 0 one_cell_within).
  - lra.
  - change (0 <= 1 / (1 * 1) * (Q2R 1.0 - 0 / Q2R 2.0))%R.
    unfold Q2R. cbn [Qnum Qden]. lra.
  - change (0 <= Drum.mh)%R. apply Rlt_le, mh_pos.
  - change (0 <= 0)%R. lra.
Defined.

Lemma SourceTerms_spends_flux_witness :
  within (Drum.bounds Samples.neutral_cell) 0 0 0 /\
  Drum.ionization_rate
    (Drum.SourceTerms Samples.unit_volume 1%R Samples.neutral_cell
       (Drum.SourceTerms Samples.unit_volume 1%R Samples.neutral_cell
          Samples.overshoot_state)) 0%Z 0%Z 0%Z = 0%R.
Proof.
  split; [exact one_cell_within|].
  exact (proj1 (proj2 (SourceTerms_spends_flux Samples.unit_volume 1%R 1%R
                         Samples.neutral_cell Samples.neutral_cell
                         Samples.overshoot_state 0 0 0) one_cell_within)).
Defined.

(* ================================================================== *)
(** * Further properties: the two thresholds of the drum problem *)
(* ================================================================== *)

Section DrumThresholds.
Import Drum DrumSetup.
Local Open Scope R_scope.

Lemma c_value : c (Real := R) = 2.998e8.
Proof.
  unfold c. cbn [rq R_ops]. rewrite Q2R_mult. unfold Q2R. cbn [Qnum Qden].
  lra.
Qed.

Lemma nu_0_value : nu_0 (Real := R) = 3.2898419603e15.
Proof.
  unfold nu_0. cbn [rq R_ops]. rewrite Q2R_mult. unfold Q2R.
  cbn [Qnum Qden]. lra.
Qed.

Lemma A0_pos : 0 < A0 (Real := R).
Proof. apply Q2R_pos. reflexivity. Qed.

Lemma AbsorptionCoefficient_R (wtm : R) (s : Array4 R) (wave : R)
    (k j i : Z) :
  AbsorptionCoefficient wtm s wave k j i
  = if Rlt_dec (c / (wave * wtm)) nu_0 then 0
    else A0 * (s 0%Z k j i / mh).
Proof.
  unfold AbsorptionCoefficient. cbv zeta.
  cbn [rq rmul rdiv rltb reqb R_ops]. unfold Rltb, Reqb.
  destruct (Rlt_dec _ _); [exact Q2R_0_0|].
  now destruct (Req_dec_T _ _).
Qed.

(** X10.  The two functions of the drum problem that decide whether a
    wavelength ionises hydrogen use different thresholds.
    [AbsorptionCoefficient] absorbs whenever the frequency [c / wavelength]
    is at least [nu_0], with one cross section for all such wavelengths;
    [EnergyAbsorption] counts a wavelength as ionising when it is at most
    [nm_0] nanometres.  Over the reals, a wavelength above [nm_0] and up to
    91.128 nm is absorbed by neutral hydrogen, and yet [EnergyAbsorption]
    hands the whole flux back and adds nothing to [rad_flux_ion]. *)
Theorem AbsorptionCoefficient_threshold_gap
    (wtm : R) (s : Array4 R) (wave flux : R) (k j i : Z) (rfi : Array3 R) :
  0 < wave * wtm ->
  nm_0 < wave * wtm * 1e9 ->
  wave * wtm * 1e9 <= 91.128 ->
  AbsorptionCoefficient wtm s wave k j i = A0 * (s 0%Z k j i / mh) /\
  (0 < s 0%Z k j i -> 0 < AbsorptionCoefficient wtm s wave k j i) /\
  EnergyAbsorption wtm wave flux k j i rfi = (flux, rfi).
Proof.
  intros Hpos Habove Hupto.
  assert (Hfreq : nu_0 <= c / (wave * wtm)).
  { rewrite c_value, nu_0_value.
    set (x := wave * wtm) in *.
    apply Rmult_le_reg_r with x; [exact Hpos|].
    replace (2.998e8 / x * x) with 2.998e8 by (field; lra). lra. }
  assert (Habs : AbsorptionCoefficient wtm s wave k j i
                 = A0 * (s 0%Z k j i / mh)).
  { rewrite AbsorptionCoefficient_R.
    destruct (Rlt_dec _ _); [lra|reflexivity]. }
  split; [exact Habs|]. split.
  - intros Hs. rewrite Habs. apply Rmult_lt_0_compat; [exact A0_pos|].
    unfold Rdiv. apply Rmult_lt_0_compat; [exact Hs|].
    apply Rinv_0_lt_compat, mh_pos.
  - rewrite EnergyAbsorption_R.
    destruct (Rlt_dec _ _); [reflexivity|lra].
Qed.

Lemma AbsorptionCoefficient_threshold_gap_witness :
  0 < 91.128 * 1e-9 /\
  nm_0 < 91.128 * 1e-9 * 1e9 /\
  91.128 * 1e-9 * 1e9 <= 91.128 /\
  EnergyAbsorption 1e-9 91.128 1 0 0 0 Samples.no_flux
  = (1, Samples.no_flux).
Proof.
  assert (H1 : 0 < 91.128 * 1e-9) by lra.
  assert (H2 : nm_0 < 91.128 * 1e-9 * 1e9) by (rewrite nm_0_value; lra).
  assert (H3 : 91.128 * 1e-9 * 1e9 <= 91.128) by lra.
  split; [exact H1|]. split; [exact H2|]. split; [exact H3|].
  exact (proj2 (proj2 (AbsorptionCoefficient_threshold_gap 1e-9
                         (fun _ _ _ _ => 1) 91.128 1 0 0 0 Samples.no_flux
                         H1 H2 H3))).
Defined.

End DrumThresholds.

(* ================================================================== *)
(** * Further properties: the initial profile of the planet *)
(* ================================================================== *)

Section Profile.
Import Tripathi.
Local Open Scope R_scope.

(** X11.  Over the reals, the hydrostatic profile passes through the
    reference state at the surface of the planet: for a positive reference
    density and sound speed and an adiabatic index other than 1,
    [rho_func] returns the reference density at the radius [Rp], and
    [press_func] returns at that density the isothermal pressure
    [rho_p * cs^2]. *)
Theorem rho_func_surface (g : Globals) :
  0 < rho_p g -> 0 < cs g -> gas_gamma g <> 1 ->
  rho_func g (Rp g) = rho_p g /\
  press_func g (rho_p g) = rho_p g * (cs g * cs g).
Proof.
  intros Hrho Hcs Hgamma. split.
  - unfold rho_func. cbv zeta. cbn [rq radd rsub rmul rdiv rpow R_ops].
    rewrite !Q2R_lit_1_0.
    match goal with
    | |- Rpower (?t * (1 / Rp g - 1 / Rp g) + ?x) ?e = _ =>
        replace (t * (1 / Rp g - 1 / Rp g) + x) with x
          by (unfold Rdiv; ring)
    end.
    rewrite Rpower_mult.
    replace ((gas_gamma g - 1) * (1 / (gas_gamma g - 1))) with 1
      by (field; lra).
    now apply Rpower_1.
  - unfold press_func. cbv zeta. cbn [rq radd rsub rmul rdiv rpow R_ops].
    rewrite Q2R_lit_1_0, Q2R_lit_2, (Rpower_2 (cs g) Hcs).
    replace (Rpower (rho_p g) (1 - gas_gamma g) * (cs g * cs g)
             * Rpower (rho_p g) (gas_gamma g))
      with (Rpower (rho_p g) (1 - gas_gamma g)
            * Rpower (rho_p g) (gas_gamma g) * (cs g * cs g)) by ring.
    rewrite <- Rpower_plus.
    replace (1 - gas_gamma g + gas_gamma g) with 1 by ring.
    now rewrite Rpower_1.
Qed.

Lemma rho_func_surface_witness :
  let g := InitUserMeshData Samples.planet_input in
  0 < rho_p g /\ 0 < cs g /\ gas_gamma g <> 1 /\
  rho_func g (Rp g) = rho_p g.
Proof.
  assert (H1 : 0 < rho_p (InitUserMeshData Samples.planet_input)).
  { change (0 < 1e-15). lra. }
  assert (H2 : 0 < cs (InitUserMeshData Samples.planet_input)).
  { change (0 < 3e5). lra. }
  assert (H3 : gas_gamma (InitUserMeshData Samples.planet_input) <> 1).
  { change (1.4 <> 1). lra. }
  cbv zeta. split; [exact H1|]. split; [exact H2|]. split; [exact H3|].
  exact (proj1 (rho_func_surface _ H1 H2 H3)).
Defined.

Lemma SetInitialConditions_R (g : Globals) (rad : R) :
  SetInitialConditions g rad
  = if Rle_dec rad (r_0 g) then
      {| dens := rho_0 g; press := P_0 g; v1 := 0; v2 := 0; v3 := 0 |}
    else if Rle_dec rad (r_e g) then
      {| dens := rho_func g rad; press := press_func g (rho_func g rad);
         v1 := 0; v2 := 0; v3 := 0 |}
    else
      {| dens := rho_e g * space_density_factor g; press := P_e g;
         v1 := 0; v2 := 0; v3 := 0 |}.
Proof.
  unfold SetInitialConditions. cbv zeta. cbn [rq rmul rleb R_ops].
  rewrite Q2R_0. unfold Rleb.
  destruct (Rle_dec rad (r_0 g)); [reflexivity|].
  destruct (Rle_dec rad (r_e g)); reflexivity.
Qed.

(** X12.  The initial state as a function of the radius, with the
    constants [InitUserMeshData] computes from a non-negative planet
    radius.  Up to [r_0 = 0.5 Rp] density
    and pressure are constant and equal to the values of the hydrostatic
    profile at [r_0]; from there up to [r_e = 1.02 Rp] they follow the
    profile; beyond [r_e] the pressure stays at the profile's value at
    [r_e] and the density is that value times [space_density_factor].
    Density and pressure are thus continuous at [r_0], and the pressure
    is continuous at [r_e].  The velocities are zero everywhere. *)
Theorem SetInitialConditions_profile (pin : ParameterInput) (rad : R) :
  0 <= pin_Rp pin ->
  let g := InitUserMeshData pin in
  let ic := SetInitialConditions g rad in
  r_0 g = 0.5 * pin_Rp pin /\ r_e g = 1.02 * pin_Rp pin /\
  (rad <= r_0 g ->
   dens ic = rho_func g (r_0 g) /\
   press ic = press_func g (rho_func g (r_0 g))) /\
  (r_0 g < rad <= r_e g ->
   dens ic = rho_func g rad /\ press ic = press_func g (rho_func g rad)) /\
  (r_e g < rad ->
   dens ic = rho_func g (r_e g) * pin_space_density_factor pin /\
   press ic = press_func g (rho_func g (r_e g))) /\
  v1 ic = 0 /\ v2 ic = 0 /\ v3 ic = 0.
Proof.
  intros HRp g ic.
  assert (H0 : r_0 g = 0.5 * pin_Rp pin).
  { change (Q2R 0.5 * pin_Rp pin = 0.5 * pin_Rp pin).
    unfold Q2R. cbn [Qnum Qden]. lra. }
  assert (He : r_e g = 1.02 * pin_Rp pin).
  { change (Q2R 1.02 * pin_Rp pin = 1.02 * pin_Rp pin).
    unfold Q2R. cbn [Qnum Qden]. lra. }
  assert (Hrho0 : rho_0 g = rho_func g (r_0 g)) by reflexivity.
  assert (Hrhoe : rho_e g = rho_func g (r_e g)) by reflexivity.
  assert (HP0 : P_0 g = press_func g (rho_func g (r_0 g))) by reflexivity.
  assert (HPe : P_e g = press_func g (rho_func g (r_e g))) by reflexivity.
  assert (Hsdf : space_density_factor g = pin_space_density_factor pin)
    by reflexivity.
  split; [exact H0|]. split; [exact He|].
  unfold ic. rewrite SetInitialConditions_R.
  destruct (Rle_dec rad (r_0 g)) as [Hin0|Hout0];
    [|destruct (Rle_dec rad (r_e g)) as [Hine|Houte]];
    cbn [dens press v1 v2 v3].
  - split; [intros _; split; [exact Hrho0 | exact HP0]|].
    split; [intros H; exfalso; lra|].
    split; [intros H; exfalso; lra|]. auto.
  - split; [intros H; exfalso; lra|].
    split; [intros _; split; reflexivity|].
    split; [intros H; exfalso; lra|]. auto.
  - split; [intros H; exfalso; lra|].
    split; [intros H; exfalso; lra|].
    split; [|auto].
    intros _. rewrite Hrhoe, Hsdf. split; [reflexivity | exact HPe].
Qed.

Lemma SetInitialConditions_profile_witness :
  let g := InitUserMeshData Samples.planet_input in
  0 <= pin_Rp Samples.planet_input /\
  0 <= r_0 g /\
  dens (SetInitialConditions g 0) = rho_func g (r_0 g).
Proof.
  cbv zeta.
  assert (HRp : 0 <= pin_Rp Samples.planet_input).
  { change (0 <= 1e8). lra. }
  split; [exact HRp|].
  destruct (SetInitialConditions_profile Samples.planet_input 0 HRp)
    as [H0 [_ [Hcore _]]].
  cbv zeta in H0, Hcore.
  assert (Hle : 0 <= r_0 (InitUserMeshData Samples.planet_input)).
  { rewrite H0. change (0 <= 0.5 * 1e8). lra. }
  split; [exact Hle|]. exact (proj1 (Hcore Hle)).
Defined.

End Profile.

(* ================================================================== *)
(** * Further properties: loops that stop, and the order of the cells *)
(* ================================================================== *)

Lemma foldM_fatal_all {Real S X} (body : X -> S -> result Real S)
    (e : FatalError Real) (xs : list X) (s : S) :
  xs <> [] ->
  (forall x acc, In x xs -> body x acc = Fatal e) ->
  foldM body xs s = Fatal e.
Proof.
  destruct xs as [|x rest]; [congruence|]. intros _ H. cbn [foldM].
  rewrite H by now left. reflexivity.
Qed.

Lemma foldM_OK_inv {Real S X} (body : X -> S -> result Real S)
    (step : X -> S -> S) (xs : list X) :
  forall s s',
    (forall x acc, In x xs ->
       body x acc = OK (step x acc) \/ exists e, body x acc = Fatal e) ->
    foldM body xs s = OK s' ->
    s' = fold_left (fun acc x => step x acc) xs s.
Proof.
  induction xs as [|x rest IH]; intros s s' H Hok; cbn [foldM fold_left] in *.
  - congruence.
  - destruct (H x s (or_introl eq_refl)) as [Hb|[e Hb]];
      rewrite Hb in Hok; cbn [bind] in Hok; [|discriminate].
    apply IH; [|exact Hok]. intros y acc Hy. apply H. now right.
Qed.

Lemma sorted_app {A} (R : A -> A -> Prop) (l1 l2 : list A) :
  StronglySorted R l1 -> StronglySorted R l2 ->
  (forall x y, In x l1 -> In y l2 -> R x y) ->
  StronglySorted R (l1 ++ l2).
Proof.
  induction 1 as [|a l Hl IH Ha]; intros H2 Hcross; cbn [app];
    [exact H2|].
  constructor.
  - apply IH; [exact H2|]. intros x y Hx Hy. apply Hcross; [now right|exact Hy].
  - apply Forall_app. split; [exact Ha|]. apply Forall_forall.
    intros y Hy. apply Hcross; [now left|exact Hy].
Qed.

Lemma sorted_map {A B} (R : A -> A -> Prop) (R' : B -> B -> Prop)
    (f : A -> B) (l : list A) :
  (forall x y, R x y -> R' (f x) (f y)) ->
  StronglySorted R l -> StronglySorted R' (map f l).
Proof.
  intros Hf. induction 1 as [|a l Hl IH Ha]; cbn [map]; constructor.
  - exact IH.
  - apply Forall_forall. intros y Hy. apply in_map_iff in Hy as [x [<- Hx]].
    apply Hf. rewrite Forall_forall in Ha. now apply Ha.
Qed.

Lemma sorted_flat_map {A B} (R : A -> A -> Prop) (R' : B -> B -> Prop)
    (f : A -> list B) (l : list A) :
  StronglySorted R l ->
  (forall a, In a l -> StronglySorted R' (f a)) ->
  (forall a a' b b', R a a' -> In b (f a) -> In b' (f a') -> R' b b') ->
  StronglySorted R' (flat_map f l).
Proof.
  induction 1 as [|a l Hl IH Ha]; intros Hin Hcross; cbn [flat_map].
  - constructor.
  - apply sorted_app.
    + apply Hin. now left.
    + apply IH; [|exact Hcross]. intros a' Ha'. apply Hin. now right.
    + intros x y Hx Hy. apply in_flat_map in Hy as [a' [Ha' Hy]].
      apply (Hcross a a' x y); [|exact Hx|exact Hy].
      rewrite Forall_forall in Ha. now apply Ha.
Qed.

Lemma seq_sorted (n : nat) : forall a, StronglySorted lt (seq a n).
Proof.
  induction n as [|n IH]; intros a; cbn [seq]; constructor.
  - apply IH.
  - apply Forall_forall. intros x Hx. apply in_seq in Hx. lia.
Qed.

Lemma range_sorted (lo hi : Z) : StronglySorted Z.lt (range lo hi).
Proof.
  unfold range. apply sorted_map with (R := lt); [|apply seq_sorted].
  intros x y Hxy. lia.
Qed.

Lemma cells_kji_sorted (b : Bounds) :
  StronglySorted loop_before (cells_kji b).
Proof.
  unfold cells_kji, cells3.
  apply sorted_flat_map with (R := Z.lt); [apply range_sorted| |].
  - intros k _.
    apply sorted_flat_map with (R := Z.lt); [apply range_sorted| |].
    + intros j _. apply sorted_map with (R := Z.lt); [|apply range_sorted].
      intros i i' Hi. cbn. right. split; [reflexivity|]. right. now split.
    + intros j j' x y Hj Hx Hy.
      apply in_map_iff in Hx as [i [<- _]].
      apply in_map_iff in Hy as [i' [<- _]].
      cbn. right. split; [reflexivity|]. now left.
  - intros k k' x y Hk Hx Hy.
    apply in_flat_map in Hx as [j [_ Hx]].
    apply in_map_iff in Hx as [i [<- _]].
    apply in_flat_map in Hy as [j' [_ Hy]].
    apply in_map_iff in Hy as [i' [<- _]].
    cbn. now left.
Qed.

Lemma sorted_before {A} (R : A -> A -> Prop) (pre post : list A) (x : A) :
  StronglySorted R (pre ++ x :: post) -> forall z, In z post -> R x z.
Proof.
  induction pre as [|a pre IH]; cbn [app]; intros H z Hz.
  - apply StronglySorted_inv in H as [_ H]. rewrite Forall_forall in H.
    now apply H.
  - apply StronglySorted_inv in H as [H _]. now apply IH.
Qed.

Lemma loop_before_asym (x y : Z * Z * Z) :
  loop_before x y -> loop_before y x -> False.
Proof.
  destruct x as [[k j] i], y as [[k' j'] i']. unfold loop_before. lia.
Qed.

Lemma loop_before_irrefl (x : Z * Z * Z) : ~ loop_before x x.
Proof. destruct x as [[k j] i]. unfold loop_before. lia. Qed.

(** In the list of cells, whatever comes before [x] in loop order lies
    in the part of the list before [x]. *)
Lemma cells_kji_before (b : Bounds) (pre post : list (Z * Z * Z))
    (x y : Z * Z * Z) :
  cells_kji b = pre ++ x :: post ->
  In y (cells_kji b) -> loop_before y x -> In y pre.
Proof.
  intros Hsplit Hy Hbefore.
  pose proof (cells_kji_sorted b) as Hsorted. rewrite Hsplit in Hsorted, Hy.
  apply in_app_or in Hy as [Hy|[Hy|Hy]].
  - exact Hy.
  - subst y. now apply loop_before_irrefl in Hbefore.
  - exfalso. apply (loop_before_asym y x Hbefore).
    exact (sorted_before loop_before pre post x Hsorted y Hy).
Qed.

Lemma cells_kji_nonempty (b : Bounds) :
  (exists k j i, within b k j i) -> cells_kji b <> [].
Proof.
  intros [k [j [i H]]] Hnil. apply cells_kji_In in H. rewrite Hnil in H.
  exact H.
Qed.

(* ================================================================== *)
(** * Further properties: the end of a step *)
(* ================================================================== *)

Section EndOfStepMore.
Import Tripathi.
Context {Real : Type} {RO : RealOps Real}.
Local Open Scope real_scope.

Variable d : Defs.
Variable g : Globals (Real := Real).

Local Abbreviation Block := (MeshBlock (Real := Real)).

Lemma getRad_unsupported (mb : Block) (k j i : Z) :
  ~ supported d ->
  getRad d mb i j k = Fatal (BadCoordinateSystem (COORDINATE_SYSTEM d)).
Proof.
  intros Hno. unfold getRad.
  destruct (String.eqb_spec (COORDINATE_SYSTEM d) "cartesian") as [H|_];
    [exfalso; apply Hno; now left|].
  destruct (String.eqb_spec (COORDINATE_SYSTEM d) "spherical_polar")
    as [H|_]; [exfalso; apply Hno; now right|].
  reflexivity.
Qed.

Lemma UserWorkInLoop_OK_inv (mb mb' : Block) :
  supported d ->
  UserWorkInLoop d g mb = OK mb' ->
  mb' = fold_left (fun acc x => replenish_step d g x acc)
          (cells_kji (getMBBounds d mb)) mb.
Proof.
  intros Hsup H. rewrite UserWorkInLoop_cells in H.
  apply (foldM_OK_inv _ (replenish_step d g)) in H; [exact H|].
  intros x acc _. rewrite (UserWorkInLoop_cell_cases d g acc x Hsup).
  destruct (uncurry3 (nan_field acc) x);
    [right; eexists; reflexivity | left; reflexivity].
Qed.

Lemma UserWorkInLoop_fatal_inv (mb : Block) (e : FatalError Real) :
  supported d ->
  UserWorkInLoop d g mb = Fatal e ->
  exists pre x post field,
    cells_kji (getMBBounds d mb) = pre ++ x :: post /\
    (forall y, In y pre -> uncurry3 (nan_field mb) y = None) /\
    uncurry3 (nan_field mb) x = Some field /\
    e = NanDetected field (fst (fst x)) (snd (fst x)) (snd x)
          (time mb) (ncycle mb).
Proof.
  intros Hsup H. rewrite UserWorkInLoop_cells in H.
  set (cells := cells_kji (getMBBounds d mb)) in *.
  set (P := fun x : Z * Z * Z =>
              match uncurry3 (nan_field mb) x with
              | Some _ => true
              | None => false
              end).
  destruct (existsb P cells) eqn:Hex.
  - apply existsb_exists in Hex.
    destruct (first_true P cells Hex) as (pre & x & post & Hsplit & Hx & Hpre).
    unfold P in Hx. destruct (uncurry3 (nan_field mb) x) as [field|] eqn:Hf;
      [|discriminate].
    exists pre, x, post, field.
    assert (Hnone : forall y, In y pre -> uncurry3 (nan_field mb) y = None).
    { intros y Hy. specialize (Hpre y Hy). unfold P in Hpre.
      now destruct (uncurry3 (nan_field mb) y). }
    split; [exact Hsplit|]. split; [exact Hnone|]. split; [exact Hf|].
    rewrite Hsplit in H.
    rewrite (end_of_step_nan d g pre post x field mb Hsup) in H.
    + now inversion H.
    + rewrite <- Hsplit. apply cells_kji_NoDup.
    + exact Hnone.
    + exact Hf.
  - exfalso.
    rewrite (end_of_step_ok d g cells Hsup mb) in H; [discriminate| |].
    + apply cells_kji_NoDup.
    + intros x Hx.
      assert (HP : P x = false).
      { destruct (P x) eqn:HPx; [|reflexivity].
        assert (existsb P cells = true)
          by (apply existsb_exists; now exists x).
        congruence. }
      unfold P in HP. now destruct (uncurry3 (nan_field mb) x).
Qed.

Lemma nan_field_first (mb : Block) (k j i : Z) (field : string) :
  nan_field mb k j i = Some field ->
  exists pre v post,
    field_names = pre ++ (field, v) :: post /\
    risnan (w mb v k j i) = true /\
    forall f' v', In (f', v') pre -> risnan (w mb v' k j i) = false.
Proof.
  unfold nan_field, field_names.
  destruct (risnan (w mb IDN k j i)) eqn:H0.
  { intros [= <-]. exists [], IDN. eexists. split; [reflexivity|].
    split; [exact H0|]. intros f' v' []. }
  destruct (risnan (w mb IPR k j i)) eqn:H1.
  { intros [= <-]. exists [("dens"%string, IDN)], IPR. eexists.
    split; [reflexivity|]. split; [exact H1|].
    intros f' v' [[= <- <-]|[]]. exact H0. }
  destruct (risnan (w mb IV1 k j i)) eqn:H2.
  { intros [= <-].
    exists [("dens"%string, IDN); ("press"%string, IPR)], IV1. eexists.
    split; [reflexivity|]. split; [exact H2|].
    intros f' v' [[= <- <-]|[[= <- <-]|[]]]; assumption. }
  destruct (risnan (w mb IV2 k j i)) eqn:H3.
  { intros [= <-].
    exists [("dens"%string, IDN); ("press"%string, IPR);
            ("vel1"%string, IV1)], IV2. eexists.
    split; [reflexivity|]. split; [exact H3|].
    intros f' v' [[= <- <-]|[[= <- <-]|[[= <- <-]|[]]]]; assumption. }
  destruct (risnan (w mb IV3 k j i)) eqn:H4; [|discriminate].
  intros [= <-].
  exists [("dens"%string, IDN); ("press"%string, IPR);
          ("vel1"%string, IV1); ("vel2"%string, IV2)], IV3. eexists.
  split; [reflexivity|]. split; [exact H4|].
  intros f' v' [[= <- <-]|[[= <- <-]|[[= <- <-]|[[= <- <-]|[]]]]];
    assumption.
Qed.

(** X13.  What [UserWorkInLoop] reports when it stops.  With a coordinate
    system other than the two supported ones it stops at the first cell
    with the coordinate-system error, before any value is tested.
    Otherwise its only error is the not-a-number diagnostic, and that
    diagnostic is exact: it carries the time and cycle of the block and the
    indices of the first cell, in the order of the loops with [k]
    outermost, that holds a not-a-number in a checked variable; every cell
    the loops reach earlier is free of them.  The field it names is the
    first in the order dens, press, vel1, vel2, vel3 whose value in that
    cell is not a number. *)
Theorem UserWorkInLoop_diagnostic (mb : Block) :
  let b := getMBBounds d mb in
  (~ supported d -> (exists k j i, within b k j i) ->
   UserWorkInLoop d g mb
   = Fatal (BadCoordinateSystem (COORDINATE_SYSTEM d))) /\
  (supported d ->
   forall e, UserWorkInLoop d g mb = Fatal e ->
   exists field k j i v,
     e = NanDetected field k j i (time mb) (ncycle mb) /\
     within b k j i /\
     (forall k' j' i' v',
        within b k' j' i' -> loop_before (k', j', i') (k, j, i) ->
        In v' checked_variables -> risnan (w mb v' k' j' i') = false) /\
     exists pre post,
       field_names = pre ++ (field, v) :: post /\
       risnan (w mb v k j i) = true /\
       forall f' v', In (f', v') pre -> risnan (w mb v' k j i) = false).
Proof.
  intros b. split.
  - intros Hno Hcell. rewrite UserWorkInLoop_cells.
    apply foldM_fatal_all; [now apply cells_kji_nonempty|].
    intros [[k j] i] acc _. unfold uncurry3, UserWorkInLoop_cell.
    cbn [fst snd]. now rewrite getRad_unsupported.
  - intros Hsup e He.
    destruct (UserWorkInLoop_fatal_inv mb e Hsup He)
      as (pre & [[k j] i] & post & field & Hsplit & Hnone & Hf & ->).
    unfold uncurry3 in Hf. cbn [fst snd] in Hf.
    destruct (nan_field_first mb k j i field Hf)
      as (fpre & v & fpost & Hnames & Hv & Hfpre).
    exists field, k, j, i, v. cbn [fst snd].
    split; [reflexivity|]. split; [|split].
    + apply cells_kji_In. fold b in Hsplit. rewrite Hsplit.
      apply in_or_app. right. now left.
    + intros k' j' i' v' Hin Hbefore Hv'.
      assert (Hy : In (k', j', i') pre).
      { apply (cells_kji_before b pre post (k, j, i) (k', j', i') Hsplit);
          [now apply cells_kji_In | exact Hbefore]. }
      specialize (Hnone _ Hy). unfold uncurry3 in Hnone.
      cbn [fst snd] in Hnone.
      exact (proj1 (nan_field_None mb k' j' i') Hnone v' Hv').
    + exists fpre, fpost. auto.
Qed.

Lemma replenished_w_idem (ic : InitialConditions) (n : Z) (old : Real) :
  replenished_w ic n (replenished_w ic n old) = replenished_w ic n old.
Proof. unfold replenished_w. repeat destruct (Z.eqb _ _); reflexivity. Qed.

Lemma replenished_u_idem (ic : InitialConditions) (n : Z) (old : Real) :
  replenished_u g ic n (replenished_u g ic n old) = replenished_u g ic n old.
Proof. unfold replenished_u. repeat destruct (Z.eqb _ _); reflexivity. Qed.

Lemma same_frame_bounds (mb0 mb : Block) :
  same_frame mb0 mb -> getMBBounds d mb = getMBBounds d mb0.
Proof.
  intros (Hb & H2 & H3 & _). unfold getMBBounds. now rewrite Hb, H2, H3.
Qed.

(** X14.  [UserWorkInLoop] is idempotent: when two calls follow one
    another and both return, the second changes nothing in the arrays
    [w], [u], [s] and [r].  What the function writes into a replenished
    cell depends on the cell's radius and on [initial_abundances] only. *)
Theorem UserWorkInLoop_idempotent (mb mb1 mb2 : Block) (n k j i : Z) :
  supported d ->
  UserWorkInLoop d g mb = OK mb1 ->
  UserWorkInLoop d g mb1 = OK mb2 ->
  w mb2 n k j i = w mb1 n k j i /\ u mb2 n k j i = u mb1 n k j i /\
  s mb2 n k j i = s mb1 n k j i /\ r mb2 n k j i = r mb1 n k j i.
Proof.
  intros Hsup H1 H2.
  apply (UserWorkInLoop_OK_inv mb mb1 Hsup) in H1.
  apply (UserWorkInLoop_OK_inv mb1 mb2 Hsup) in H2.
  set (cells := cells_kji (getMBBounds d mb)) in *.
  assert (Hfr : same_frame mb mb1).
  { rewrite H1. apply end_of_step_frame. }
  rewrite (same_frame_bounds mb mb1 Hfr) in H2. fold cells in H2.
  destruct (in_dec cell_eq_dec (k, j, i) cells) as [Hin|Hout].
  - pose proof (end_of_step_visited d g cells mb k j i n
                  (cells_kji_NoDup _) Hin) as V1.
    pose proof (end_of_step_visited d g cells mb1 k j i n
                  (cells_kji_NoDup _) Hin) as V2.
    cbv zeta in V1, V2. rewrite <- H1 in V1. rewrite <- H2 in V2.
    rewrite (same_frame_radius d mb mb1 k j i Hfr) in V2.
    destruct (radius d mb k j i <=? r_replenish g).
    + destruct V1 as (W1 & U1 & R1 & S1). destruct V2 as (W2 & U2 & R2 & S2).
      destruct Hfr as (_ & _ & _ & _ & _ & _ & _ & _ & _ & Hia).
      split; [|split; [|split]].
      * rewrite W2, W1. apply replenished_w_idem.
      * rewrite U2, U1. apply replenished_u_idem.
      * rewrite S2, S1. unfold replenished_s. rewrite Hia.
        now destruct (is_species d n).
      * rewrite R2, R1. unfold replenished_r. rewrite Hia.
        now destruct (is_species d n).
    + destruct V2 as (W2 & U2 & R2 & S2). auto.
  - pose proof (end_of_step_untouched d g cells mb1 k j i Hout n) as U.
    cbv zeta in U. rewrite <- H2 in U. tauto.
Qed.

End EndOfStepMore.

Section EndOfStepMoreSamples.
Import Tripathi.

Lemma UserWorkInLoop_diagnostic_witness :
  supported Samples.tripathi_defs /\
  UserWorkInLoop Samples.tripathi_defs
    (InitUserMeshData (Samples.lift_input Samples.planet_input))
    Samples.nan_block
  = Fatal (NanDetected "vel1" 0 0 3 (Fin 86400) 1200) /\
  exists field k j i v,
    NanDetected "vel1" 0 0 3 (Fin 86400) 1200
    = NanDetected field k j i (time Samples.nan_block)
        (ncycle Samples.nan_block) /\
    within (getMBBounds Samples.tripathi_defs Samples.nan_block) k j i /\
    (forall k' j' i' v',
       within (getMBBounds Samples.tripathi_defs Samples.nan_block) k' j' i' ->
       loop_before (k', j', i') (k, j, i) ->
       In v' checked_variables ->
       risnan (w Samples.nan_block v' k' j' i') = false) /\
    exists pre post,
      field_names = pre ++ (field, v) :: post /\
      risnan (w Samples.nan_block v k j i) = true /\
      forall f' v', In (f', v') pre ->
        risnan (w Samples.nan_block v' k j i) = false.
Proof.
  split; [exact tripathi_defs_supported|].
  split; [exact UserWorkInLoop_nan_block|].
  exact (proj2 (UserWorkInLoop_diagnostic Samples.tripathi_defs
                  (InitUserMeshData (Samples.lift_input Samples.planet_input))
                  Samples.nan_block)
           tripathi_defs_supported _ UserWorkInLoop_nan_block).
Defined.

Lemma UserWorkInLoop_returns_R (d : Defs) (g : Globals (Real := R))
    (mb : MeshBlock (Real := R)) :
  supported d -> exists mb', UserWorkInLoop d g mb = OK mb'.
Proof.
  intros Hsup. rewrite UserWorkInLoop_cells.
  rewrite (end_of_step_ok d g _ Hsup mb).
  - eexists. reflexivity.
  - apply cells_kji_NoDup.
  - intros [[k j] i] _. reflexivity.
Qed.

Lemma UserWorkInLoop_idempotent_witness :
  supported Samples.tripathi_defs /\
  exists mb1 mb2,
    UserWorkInLoop Samples.tripathi_defs
      (InitUserMeshData Samples.planet_input) Samples.planet_block = OK mb1 /\
    UserWorkInLoop Samples.tripathi_defs
      (InitUserMeshData Samples.planet_input) mb1 = OK mb2 /\
    w mb2 IDN 0%Z 0%Z 2%Z = w mb1 IDN 0%Z 0%Z 2%Z.
Proof.
  split; [exact tripathi_defs_supported|].
  destruct (UserWorkInLoop_returns_R Samples.tripathi_defs
              (InitUserMeshData Samples.planet_input) Samples.planet_block
              tripathi_defs_supported) as [mb1 H1].
  destruct (UserWorkInLoop_returns_R Samples.tripathi_defs
              (InitUserMeshData Samples.planet_input) mb1
              tripathi_defs_supported) as [mb2 H2].
  exists mb1, mb2. split; [exact H1|]. split; [exact H2|].
  exact (proj1 (UserWorkInLoop_idempotent Samples.tripathi_defs
                  (InitUserMeshData Samples.planet_input)
                  Samples.planet_block mb1 mb2 IDN 0 0 2
                  tripathi_defs_supported H1 H2)).
Defined.

End EndOfStepMoreSamples.

(* ================================================================== *)
(** * Further properties: the problem generator *)
(* ================================================================== *)

Section InitialStateMore.
Import Tripathi.
Context {Real : Type} {RO : RealOps Real}.
Local Open Scope real_scope.

Variable PrimitiveToConserved :
  Array4 Real -> Array4 Real -> Bounds -> Array4 Real.
Variable d : Defs.
Variable g : Globals (Real := Real).

Local Abbreviation Block := (MeshBlock (Real := Real)).

Lemma SetInitialConditions_at_rest (rad : Real) :
  let ic := SetInitialConditions g rad in
  v1 ic = rq 0 /\ v2 ic = rq 0 /\ v3 ic = rq 0.
Proof.
  cbv zeta. unfold SetInitialConditions.
  destruct (rleb rad (r_0 g)); [|destruct (rleb rad (r_e g))];
    cbn [v1 v2 v3]; auto.
Qed.

Lemma generate_at_full (mb : Block) (rad : Real) (k j i n : Z)
    (ws : Array4 Real * Array4 Real) :
  let ws' := generate_at d g mb rad k j i ws in
  let ic := SetInitialConditions g rad in
  fst ws' n k j i = replenished_w ic n (fst ws n k j i) /\
  snd ws' n k j i = replenished_s d mb ic k j i n (snd ws n k j i).
Proof.
  cbv zeta. unfold generate_at. cbn [fst snd]. split.
  - unfold replenished_w. now rewrite !set4_same_cell.
  - destruct (species_loop
                (fun n _ => initial_abundances mb n k j i
                            * dens (SetInitialConditions g rad))
                (NSCALARS d) k j i (snd ws)) as (Hin & Hout & _).
    unfold replenished_s. destruct (is_species d n) eqn:Hn.
    + apply Hin. now apply is_species_true.
    + apply Hout. rewrite <- is_species_true. congruence.
Qed.

Local Abbreviation abundances_step mb :=
  (uncurry3 (fun k j i => abundances_at d g mb (radius d mb k j i) k j i)).

Lemma SetInitialAbundances_value (mb : Block) (ia0 : Array4 Real) :
  supported d ->
  SetInitialAbundances d g mb ia0
  = OK (fold_left (fun acc x => abundances_step mb x acc)
          (cells_kji (getMBBounds d mb)) ia0).
Proof.
  intros Hsup. unfold SetInitialAbundances. rewrite for_loopM_nest3.
  apply foldM_total. intros [[k j] i] acc _.
  unfold uncurry3, SetInitialAbundances_cell. cbn [fst snd].
  now rewrite getRad_supported.
Qed.

Lemma SetInitialAbundances_outside (mb : Block) (ia0 : Array4 Real)
    (n k j i : Z) :
  ~ within (getMBBounds d mb) k j i ->
  fold_left (fun acc x => abundances_step mb x acc)
    (cells_kji (getMBBounds d mb)) ia0 n k j i
  = ia0 n k j i.
Proof.
  intros Hout.
  refine (fold_left_untouched (abundances_step mb)
            (fun (a : Array4 Real) x => uncurry3 (a n) x)
            (fun _ => True) _ _ (cells_kji (getMBBounds d mb)) ia0
            (k, j, i) I _).
  - auto.
  - intros [[k' j'] i'] [[k'' j''] i''] a _ Hne. unfold uncurry3.
    cbn [fst snd]. now apply abundances_at_other.
  - rewrite cells_kji_In. exact Hout.
Qed.

(** The block [ProblemGenerator] returns, array by array. *)
Lemma ProblemGenerator_full (mb : Block) :
  supported d -> NSCALARS d = 3%Z ->
  exists mb',
    ProblemGenerator PrimitiveToConserved d g mb = OK mb' /\
    same_frame
      (with_arrays mb (w mb) (u mb) (s mb) (r mb) (initial_abundances mb'))
      mb' /\
    r mb' = r mb /\
    u mb' = PrimitiveToConserved (w mb') (u mb) (bounds mb) /\
    forall k j i n,
      let ic := SetInitialConditions g (radius d mb k j i) in
      (within (getMBBounds d mb) k j i ->
       w mb' n k j i = replenished_w ic n (w mb n k j i) /\
       s mb' n k j i = replenished_s d mb' ic k j i n (s mb n k j i) /\
       ((0 <= n < 3)%Z ->
        initial_abundances mb' n k j i
        = abundance g mb (radius d mb k j i) n)) /\
      (~ within (getMBBounds d mb) k j i ->
       w mb' n k j i = w mb n k j i /\ s mb' n k j i = s mb n k j i /\
       initial_abundances mb' n k j i = rq 0).
Proof.
  intros Hsup HN. unfold ProblemGenerator. rewrite HN. cbn [Z.eqb negb].
  change (Pos.eqb 3 3) with true. cbn [negb].
  destruct (SetInitialAbundances_result d g mb (fun _ _ _ _ => rq 0) Hsup HN)
    as (ia & Hia & Hvals).
  pose proof (SetInitialAbundances_value mb (fun _ _ _ _ => rq 0) Hsup)
    as Hia'.
  rewrite Hia in Hia'. injection Hia' as Hia'.
  rewrite Hia. cbn [bind].
  set (mb1 := with_arrays mb (w mb) (u mb) (s mb) (r mb) ia).
  change (getMBBounds d mb1) with (getMBBounds d mb).
  rewrite for_loopM_nest3.
  set (cells := cells3 _ _ _).
  rewrite (foldM_total _
             (uncurry3 (fun i j k =>
                generate_at d g mb1 (radius d mb k j i) k j i))).
  2: { intros [[i j] k] acc _. unfold uncurry3, ProblemGenerator_cell.
       cbn [fst snd]. now rewrite getRad_supported. }
  cbn [bind].
  set (ws := fold_left _ cells _).
  destruct ws as [w' s'] eqn:Hws.
  eexists. split; [reflexivity|].
  unfold with_arrays. cbn [w u s r initial_abundances].
  split; [unfold same_frame; cbn; tauto|].
  split; [reflexivity|]. split; [reflexivity|].
  intros k j i n. cbv zeta.
  assert (Hnd : NoDup cells).
  { subst cells. apply cells3_NoDup; apply range_NoDup. }
  assert (Hcells : In (i, j, k) cells <-> within (getMBBounds d mb) k j i).
  { subst cells. rewrite cells3_In, !range_In. unfold within. tauto. }
  split.
  - intros Hin. apply Hcells in Hin.
    assert (H : (fst ws n k j i, snd ws n k j i)
                = (replenished_w
                     (SetInitialConditions g (radius d mb k j i)) n
                     (w mb n k j i),
                   replenished_s d mb1
                     (SetInitialConditions g (radius d mb k j i)) k j i n
                     (s mb n k j i))).
    { subst ws.
      refine (fold_left_visited
                (uncurry3 (fun i j k =>
                   generate_at d g mb1 (radius d mb k j i) k j i))
                (fun (a : Array4 Real * Array4 Real) x =>
                   uncurry3 (fun i j k => (fst a n k j i, snd a n k j i)) x)
                (fun x v =>
                   uncurry3 (fun i j k =>
                     (replenished_w
                        (SetInitialConditions g (radius d mb k j i)) n
                        (fst v),
                      replenished_s d mb1
                        (SetInitialConditions g (radius d mb k j i))
                        k j i n (snd v))) x)
                (fun _ => True) _ _ _ cells _ (i, j, k) I Hnd Hin).
      - auto.
      - intros [[i' j'] k'] a _. unfold uncurry3. cbn [fst snd].
        destruct (generate_at_full mb1 (radius d mb k' j' i') k' j' i' n a)
          as [Hw Hs].
        cbv zeta in Hw, Hs. now rewrite Hw, Hs.
      - intros [[i' j'] k'] [[i'' j''] k''] a _ Hne. unfold uncurry3.
        cbn [fst snd].
        destruct (generate_at_other d g mb1 (radius d mb k' j' i')
                    k' j' i' n k'' j'' i'' a) as [Hw Hs];
          [congruence|].
        cbv zeta in Hw, Hs. now rewrite Hw, Hs. }
    rewrite Hws in H. cbn [fst snd] in H. injection H as Hw Hs.
    split; [exact Hw|]. split.
    + rewrite Hs. reflexivity.
    + intros Hn. apply Hvals; [|exact Hn]. now apply Hcells.
  - intros Hout.
    assert (Hnot : ~ In (i, j, k) cells) by (rewrite Hcells; exact Hout).
    assert (H : (fst ws n k j i, snd ws n k j i)
                = (w mb n k j i, s mb n k j i)).
    { subst ws.
      refine (fold_left_untouched
                (uncurry3 (fun i j k =>
                   generate_at d g mb1 (radius d mb k j i) k j i))
                (fun (a : Array4 Real * Array4 Real) x =>
                   uncurry3 (fun i j k => (fst a n k j i, snd a n k j i)) x)
                (fun _ => True) _ _ cells _ (i, j, k) I Hnot).
      - auto.
      - intros [[i' j'] k'] [[i'' j''] k''] a _ Hne. unfold uncurry3.
        cbn [fst snd].
        destruct (generate_at_other d g mb1 (radius d mb k' j' i')
                    k' j' i' n k'' j'' i'' a) as [Hw Hs];
          [congruence|].
        cbv zeta in Hw, Hs. now rewrite Hw, Hs. }
    rewrite Hws in H. cbn [fst snd] in H. injection H as Hw Hs.
    split; [exact Hw|]. split; [exact Hs|].
    rewrite Hia'. now apply SetInitialAbundances_outside.
Qed.

End InitialStateMore.

Section InitialStateErrors.
Import Tripathi.
Context {Real : Type} {RO : RealOps Real}.
Local Open Scope real_scope.

Variable PrimitiveToConserved :
  Array4 Real -> Array4 Real -> Bounds -> Array4 Real.
Variable d : Defs.
Variable g : Globals (Real := Real).

Local Abbreviation Block := (MeshBlock (Real := Real)).

(** X15.  [ProblemGenerator] has two ways to fail and tries them in this
    order.  A build with a number of scalars other than 3 is rejected
    before anything else is looked at; with 3 scalars, a coordinate system
    other than the two supported ones is rejected at the first cell of the
    loop bounds.  With 3 scalars and a supported coordinate system the
    function returns. *)
Theorem ProblemGenerator_errors (mb : Block) :
  let result := ProblemGenerator PrimitiveToConserved d g mb in
  (NSCALARS d <> 3%Z -> result = Fatal (BadScalarCount (NSCALARS d))) /\
  (NSCALARS d = 3%Z -> ~ supported d ->
   (exists k j i, within (getMBBounds d mb) k j i) ->
   result = Fatal (BadCoordinateSystem (COORDINATE_SYSTEM d))) /\
  (NSCALARS d = 3%Z -> supported d -> exists mb', result = OK mb').
Proof.
  intros result. split; [|split].
  - intros HN. unfold result, ProblemGenerator.
    destruct (Z.eqb_spec (NSCALARS d) 3) as [H|_]; [contradiction|].
    reflexivity.
  - intros HN Hno Hcell. unfold result, ProblemGenerator.
    rewrite HN. cbn [Z.eqb negb]. change (Pos.eqb 3 3) with true.
    cbn [negb].
    assert (Hia : SetInitialAbundances d g mb (fun _ _ _ _ => rq 0)
                  = Fatal (BadCoordinateSystem (COORDINATE_SYSTEM d))).
    { unfold SetInitialAbundances. rewrite for_loopM_nest3.
      apply foldM_fatal_all; [exact (cells_kji_nonempty _ Hcell)|].
      intros [[k j] i] acc _. unfold uncurry3, SetInitialAbundances_cell.
      cbn [fst snd]. now rewrite (getRad_unsupported d mb k j i Hno). }
    rewrite Hia. reflexivity.
  - intros HN Hsup.
    destruct (ProblemGenerator_full PrimitiveToConserved d g mb Hsup HN)
      as (mb' & Hpg & _).
    exists mb'. exact Hpg.
Qed.

(** X16.  What [ProblemGenerator] returns for 3 scalars and a supported
    coordinate system.  In every cell of the loop bounds, ghost zones
    included, the primitive variables are the initial state at the cell's
    radius with the gas at rest, [initial_abundances] holds the mass
    fractions of the three species, and each scalar density is its mass
    fraction times the density of the cell.  Outside the loop bounds [w]
    and [s] keep their values and [initial_abundances] is zero.  The
    coordinates and the scalar fractions [r] are not touched, and [u] is
    what [PrimitiveToConserved] makes of the new [w]. *)
Theorem ProblemGenerator_state (mb : Block) :
  supported d -> NSCALARS d = 3%Z ->
  exists mb',
    ProblemGenerator PrimitiveToConserved d g mb = OK mb' /\
    bounds mb' = bounds mb /\
    x1v mb' = x1v mb /\ x2v mb' = x2v mb /\ x3v mb' = x3v mb /\
    r mb' = r mb /\
    u mb' = PrimitiveToConserved (w mb') (u mb) (bounds mb) /\
    forall k j i,
      let rad := radius d mb k j i in
      let ic := SetInitialConditions g rad in
      (within (getMBBounds d mb) k j i ->
       w mb' IPR k j i = press ic /\ w mb' IDN k j i = dens ic /\
       w mb' IV1 k j i = rq 0 /\ w mb' IV2 k j i = rq 0 /\
       w mb' IV3 k j i = rq 0 /\
       forall n, (0 <= n < 3)%Z ->
         initial_abundances mb' n k j i = abundance g mb rad n /\
         s mb' n k j i
         = initial_abundances mb' n k j i * w mb' IDN k j i) /\
      (~ within (getMBBounds d mb) k j i ->
       forall n,
         w mb' n k j i = w mb n k j i /\ s mb' n k j i = s mb n k j i /\
         initial_abundances mb' n k j i = rq 0).
Proof.
  intros Hsup HN.
  destruct (ProblemGenerator_full PrimitiveToConserved d g mb Hsup HN)
    as (mb' & Hpg & Hfr & Hr & Hu & Hcells).
  exists mb'. split; [exact Hpg|].
  destruct Hfr as (Hb & _ & _ & Hx1 & Hx2 & Hx3 & _).
  cbn in Hb, Hx1, Hx2, Hx3.
  split; [exact Hb|]. split; [exact Hx1|]. split; [exact Hx2|].
  split; [exact Hx3|]. split; [exact Hr|]. split; [exact Hu|].
  intros k j i. cbv zeta. split.
  - intros Hin.
    destruct (SetInitialConditions_at_rest g (radius d mb k j i))
      as (Hv1 & Hv2 & Hv3).
    cbv zeta in Hv1, Hv2, Hv3.
    assert (Hw : forall n,
              w mb' n k j i
              = replenished_w (SetInitialConditions g (radius d mb k j i))
                  n (w mb n k j i)).
    { intros n. exact (proj1 (proj1 (Hcells k j i n) Hin)). }
    split; [rewrite Hw; reflexivity|]. split; [rewrite Hw; reflexivity|].
    split; [rewrite Hw; exact Hv1|]. split; [rewrite Hw; exact Hv2|].
    split; [rewrite Hw; exact Hv3|].
    intros n Hn.
    destruct (proj1 (Hcells k j i n) Hin) as (_ & Hs & Hia).
    split; [exact (Hia Hn)|].
    rewrite Hs, (Hw IDN). unfold replenished_s.
    replace (is_species d n) with true; [reflexivity|].
    symmetry. apply is_species_true. rewrite HN. exact Hn.
  - intros Hout n. exact (proj2 (Hcells k j i n) Hout).
Qed.

Lemma replenished_s_idem (mb : Block) (ic : InitialConditions)
    (k j i n : Z) (old : Real) :
  replenished_s d mb ic k j i n (replenished_s d mb ic k j i n old)
  = replenished_s d mb ic k j i n old.
Proof. unfold replenished_s. now destruct (is_species d n). Qed.

(** X17.  The end-of-step reset agrees with the problem generator: when
    [UserWorkInLoop] runs on the block [ProblemGenerator] returned and
    returns itself, every entry of [w] and of [s] is what it was.  A cell
    the reset replenishes is given the state it was generated with. *)
Theorem UserWorkInLoop_after_ProblemGenerator
    (mb mb' mb'' : Block) (n k j i : Z) :
  supported d -> NSCALARS d = 3%Z ->
  ProblemGenerator PrimitiveToConserved d g mb = OK mb' ->
  UserWorkInLoop d g mb' = OK mb'' ->
  w mb'' n k j i = w mb' n k j i /\ s mb'' n k j i = s mb' n k j i.
Proof.
  intros Hsup HN Hpg Hwork.
  destruct (ProblemGenerator_full PrimitiveToConserved d g mb Hsup HN)
    as (mb0 & Hpg0 & Hfr & _ & _ & Hcells).
  rewrite Hpg in Hpg0. injection Hpg0 as <-.
  apply (UserWorkInLoop_OK_inv d g mb' mb'' Hsup) in Hwork.
  assert (Hbounds : getMBBounds d mb' = getMBBounds d mb).
  { exact (same_frame_bounds d _ mb' Hfr). }
  assert (Hrad : radius d mb' k j i = radius d mb k j i).
  { exact (same_frame_radius d _ mb' k j i Hfr). }
  rewrite Hbounds in Hwork.
  set (cells := cells_kji (getMBBounds d mb)) in *.
  destruct (within_dec (getMBBounds d mb) k j i) as [Hin|Hout].
  - pose proof (end_of_step_visited d g cells mb' k j i n
                  (cells_kji_NoDup _) (proj2 (cells_kji_In _ k j i) Hin))
      as V.
    cbv zeta in V. rewrite <- Hwork, Hrad in V.
    destruct (proj1 (Hcells k j i n) Hin) as (Hw & Hs & _).
    destruct (radius d mb k j i <=? r_replenish g).
    + destruct V as (W & _ & _ & S). split.
      * rewrite W, Hw. apply replenished_w_idem.
      * rewrite S, Hs. apply replenished_s_idem.
    + tauto.
  - assert (Hnot : ~ In (k, j, i) cells).
    { unfold cells. rewrite cells_kji_In. exact Hout. }
    pose proof (end_of_step_untouched d g cells mb' k j i Hnot n) as U.
    cbv zeta in U. rewrite <- Hwork in U. tauto.
Qed.

End InitialStateErrors.

Section InitialStateMoreSamples.
Import Tripathi.
Local Open Scope R_scope.

Lemma ProblemGenerator_errors_witness :
  NSCALARS MoreSamples.drum_defs <> 3%Z /\
  ProblemGenerator Samples.no_conversion MoreSamples.drum_defs
    (InitUserMeshData Samples.planet_input) Samples.planet_block
  = Fatal (BadScalarCount (NSCALARS MoreSamples.drum_defs)).
Proof.
  assert (HN : NSCALARS MoreSamples.drum_defs <> 3%Z) by (cbn; lia).
  split; [exact HN|].
  exact (proj1 (ProblemGenerator_errors Samples.no_conversion
                  MoreSamples.drum_defs
                  (InitUserMeshData Samples.planet_input)
                  Samples.planet_block) HN).
Defined.

Lemma ProblemGenerator_state_witness :
  supported Samples.tripathi_defs /\
  NSCALARS Samples.tripathi_defs = 3%Z /\
  exists mb',
    ProblemGenerator Samples.no_conversion Samples.tripathi_defs
      (InitUserMeshData Samples.planet_input) Samples.planet_block
    = OK mb' /\
    r mb' = r Samples.planet_block.
Proof.
  split; [exact tripathi_defs_supported|]. split; [reflexivity|].
  destruct (ProblemGenerator_state Samples.no_conversion
              Samples.tripathi_defs (InitUserMeshData Samples.planet_input)
              Samples.planet_block tripathi_defs_supported eq_refl)
    as (mb' & Hpg & _ & _ & _ & _ & Hr & _).
  exists mb'. split; [exact Hpg | exact Hr].
Defined.

Lemma UserWorkInLoop_after_ProblemGenerator_witness :
  supported Samples.tripathi_defs /\
  NSCALARS Samples.tripathi_defs = 3%Z /\
  exists mb' mb'',
    ProblemGenerator Samples.no_conversion Samples.tripathi_defs
      (InitUserMeshData Samples.planet_input) Samples.planet_block
    = OK mb' /\
    UserWorkInLoop Samples.tripathi_defs
      (InitUserMeshData Samples.planet_input) mb' = OK mb'' /\
    w mb'' IDN 0%Z 0%Z 2%Z = w mb' IDN 0%Z 0%Z 2%Z.
Proof.
  split; [exact tripathi_defs_supported|]. split; [reflexivity|].
  destruct (ProblemGenerator_full Samples.no_conversion
              Samples.tripathi_defs (InitUserMeshData Samples.planet_input)
              Samples.planet_block tripathi_defs_supported eq_refl)
    as (mb' & Hpg & _).
  destruct (UserWorkInLoop_returns_R Samples.tripathi_defs
              (InitUserMeshData Samples.planet_input) mb'
              tripathi_defs_supported) as [mb'' Hwork].
  exists mb', mb''. split; [exact Hpg|]. split; [exact Hwork|].
  exact (proj1 (UserWorkInLoop_after_ProblemGenerator Samples.no_conversion
                  Samples.tripathi_defs
                  (InitUserMeshData Samples.planet_input)
                  Samples.planet_block mb' mb'' IDN 0 0 2
                  tripathi_defs_supported eq_refl Hpg Hwork)).
Defined.

End InitialStateMoreSamples.

(* ================================================================== *)
(** * Further properties: initial state and reset of the drum problem *)
(* ================================================================== *)

Section DrumInitial.
Import Tripathi.
Context {Real : Type} {RO : RealOps Real}.
Local Open Scope real_scope.

Variable PrimitiveToConserved :
  Array4 Real -> Array4 Real -> Bounds -> Array4 Real.
Variable d : Defs.
Variable g : DrumSetup.Globals (Real := Real).

Local Abbreviation Block := (MeshBlock (Real := Real)).

Lemma drum_generate_at_cell (rad : Real) (k j i n : Z)
    (ws : Array4 Real * Array4 Real) :
  let ws' := DrumSetup.generate_at g rad k j i ws in
  let ic := DrumSetup.SetInitialConditions g rad in
  fst ws' n k j i = DrumSetup.replenished_w ic n (fst ws n k j i) /\
  snd ws' n k j i = DrumSetup.generated_s ic n (snd ws n k j i).
Proof.
  cbv zeta. unfold DrumSetup.generate_at. cbn [fst snd].
  split; [unfold DrumSetup.replenished_w | unfold DrumSetup.generated_s];
    now rewrite !set4_same_cell.
Qed.

Lemma drum_generate_at_other (rad : Real) (k j i n k' j' i' : Z)
    (ws : Array4 Real * Array4 Real) :
  (k', j', i') <> (k, j, i) ->
  let ws' := DrumSetup.generate_at g rad k j i ws in
  fst ws' n k' j' i' = fst ws n k' j' i' /\
  snd ws' n k' j' i' = snd ws n k' j' i'.
Proof.
  intros Hne. cbv zeta. unfold DrumSetup.generate_at. cbn [fst snd].
  split; now rewrite !set4_other_cell.
Qed.

(** The block the problem generator of the drum problem returns. *)
Lemma drum_ProblemGenerator_full (mb : Block) :
  supported d -> NSCALARS d = 2%Z ->
  exists mb',
    DrumSetup.ProblemGenerator PrimitiveToConserved d g mb = OK mb' /\
    r mb' = r mb /\
    u mb' = PrimitiveToConserved (w mb') (u mb) (bounds mb) /\
    forall k j i n,
      let ic := DrumSetup.SetInitialConditions g (radius d mb k j i) in
      (within (getMBBounds d mb) k j i ->
       w mb' n k j i = DrumSetup.replenished_w ic n (w mb n k j i) /\
       s mb' n k j i = DrumSetup.generated_s ic n (s mb n k j i)) /\
      (~ within (getMBBounds d mb) k j i ->
       w mb' n k j i = w mb n k j i /\ s mb' n k j i = s mb n k j i).
Proof.
  intros Hsup HN. unfold DrumSetup.ProblemGenerator. rewrite HN.
  cbn [Z.eqb negb]. change (Pos.eqb 2 2) with true. cbn [negb].
  rewrite for_loopM_nest3.
  set (cells := cells3 _ _ _).
  rewrite (foldM_total _
             (uncurry3 (fun i j k =>
                DrumSetup.generate_at g (radius d mb k j i) k j i))).
  2: { intros [[i j] k] acc _.
       unfold uncurry3, DrumSetup.ProblemGenerator_cell.
       cbn [fst snd]. now rewrite getRad_supported. }
  cbn [bind].
  set (ws := fold_left _ cells _).
  destruct ws as [w' s'] eqn:Hws.
  eexists. split; [reflexivity|].
  unfold with_arrays. cbn [w u s r].
  split; [reflexivity|]. split; [reflexivity|].
  intros k j i n. cbv zeta.
  assert (Hnd : NoDup cells).
  { subst cells. apply cells3_NoDup; apply range_NoDup. }
  assert (Hcells : In (i, j, k) cells <-> within (getMBBounds d mb) k j i).
  { subst cells. rewrite cells3_In, !range_In. unfold within. tauto. }
  split.
  - intros Hin. apply Hcells in Hin.
    assert (H : (fst ws n k j i, snd ws n k j i)
                = (DrumSetup.replenished_w
                     (DrumSetup.SetInitialConditions g (radius d mb k j i))
                     n (w mb n k j i),
                   DrumSetup.generated_s
                     (DrumSetup.SetInitialConditions g (radius d mb k j i))
                     n (s mb n k j i))).
    { subst ws.
      refine (fold_left_visited
                (uncurry3 (fun i j k =>
                   DrumSetup.generate_at g (radius d mb k j i) k j i))
                (fun (a : Array4 Real * Array4 Real) x =>
                   uncurry3 (fun i j k => (fst a n k j i, snd a n k j i)) x)
                (fun x v =>
                   uncurry3 (fun i j k =>
                     (DrumSetup.replenished_w
                        (DrumSetup.SetInitialConditions g
                           (radius d mb k j i)) n (fst v),
                      DrumSetup.generated_s
                        (DrumSetup.SetInitialConditions g
                           (radius d mb k j i)) n (snd v))) x)
                (fun _ => True) _ _ _ cells _ (i, j, k) I Hnd Hin).
      - auto.
      - intros [[i' j'] k'] a _. unfold uncurry3. cbn [fst snd].
        destruct (drum_generate_at_cell (radius d mb k' j' i') k' j' i' n a)
          as [Hw Hs].
        cbv zeta in Hw, Hs. now rewrite Hw, Hs.
      - intros [[i' j'] k'] [[i'' j''] k''] a _ Hne. unfold uncurry3.
        cbn [fst snd].
        destruct (drum_generate_at_other (radius d mb k' j' i')
                    k' j' i' n k'' j'' i'' a) as [Hw Hs];
          [congruence|].
        cbv zeta in Hw, Hs. now rewrite Hw, Hs. }
    rewrite Hws in H. cbn [fst snd] in H. injection H as Hw Hs.
    split; [exact Hw | exact Hs].
  - intros Hout.
    assert (Hnot : ~ In (i, j, k) cells) by (rewrite Hcells; exact Hout).
    assert (H : (fst ws n k j i, snd ws n k j i)
                = (w mb n k j i, s mb n k j i)).
    { subst ws.
      refine (fold_left_untouched
                (uncurry3 (fun i j k =>
                   DrumSetup.generate_at g (radius d mb k j i) k j i))
                (fun (a : Array4 Real * Array4 Real) x =>
                   uncurry3 (fun i j k => (fst a n k j i, snd a n k j i)) x)
                (fun _ => True) _ _ cells _ (i, j, k) I Hnot).
      - auto.
      - intros [[i' j'] k'] [[i'' j''] k''] a _ Hne. unfold uncurry3.
        cbn [fst snd].
        destruct (drum_generate_at_other (radius d mb k' j' i')
                    k' j' i' n k'' j'' i'' a) as [Hw Hs];
          [congruence|].
        cbv zeta in Hw, Hs. now rewrite Hw, Hs. }
    rewrite Hws in H. cbn [fst snd] in H. injection H as Hw Hs.
    split; [exact Hw | exact Hs].
Qed.

Lemma drum_replenish_frame (mb0 mb : Block) (x : Z * Z * Z) :
  same_frame mb0 mb -> same_frame mb0 (DrumSetup.replenish_step d g x mb).
Proof.
  intros Hfr. destruct x as [[k j] i]. unfold DrumSetup.replenish_step.
  destruct (rleb _ _); [|exact Hfr].
  unfold DrumSetup.replenish, with_arrays, same_frame in *. cbn. exact Hfr.
Qed.

Lemma drum_replenish_at (mb : Block) (rad : Real) (k j i n : Z) :
  let mb1 := DrumSetup.replenish g rad k j i mb in
  let ic := DrumSetup.SetInitialConditions g rad in
  w mb1 n k j i = DrumSetup.replenished_w ic n (w mb n k j i) /\
  u mb1 n k j i = DrumSetup.replenished_u g ic n (u mb n k j i) /\
  s mb1 n k j i = DrumSetup.replenished_s ic n (s mb n k j i) /\
  r mb1 n k j i = DrumSetup.replenished_r ic n (r mb n k j i).
Proof.
  cbv zeta. unfold DrumSetup.replenish, with_arrays. cbn [w u s r].
  unfold DrumSetup.replenished_w, DrumSetup.replenished_u,
    DrumSetup.replenished_s, DrumSetup.replenished_r.
  now rewrite !set4_same_cell.
Qed.

Lemma drum_replenish_other (mb : Block) (rad : Real)
    (k j i n k' j' i' : Z) :
  (k', j', i') <> (k, j, i) ->
  let mb1 := DrumSetup.replenish g rad k j i mb in
  w mb1 n k' j' i' = w mb n k' j' i' /\ u mb1 n k' j' i' = u mb n k' j' i' /\
  s mb1 n k' j' i' = s mb n k' j' i' /\ r mb1 n k' j' i' = r mb n k' j' i'.
Proof.
  intros Hne. cbv zeta. unfold DrumSetup.replenish, with_arrays.
  cbn [w u s r]. now rewrite !set4_other_cell.
Qed.

Local Abbreviation arrays_at a n x :=
  (uncurry3 (w a n) x, uncurry3 (u a n) x,
   uncurry3 (s a n) x, uncurry3 (r a n) x).

Lemma drum_UserWorkInLoop_value (mb : Block) :
  supported d ->
  DrumSetup.UserWorkInLoop d g mb
  = OK (fold_left (fun acc x => DrumSetup.replenish_step d g x acc)
          (cells_kji (bounds mb)) mb).
Proof.
  intros Hsup. unfold DrumSetup.UserWorkInLoop. rewrite for_loopM_nest3.
  apply foldM_total. intros [[k j] i] acc _.
  unfold uncurry3, DrumSetup.UserWorkInLoop_cell, DrumSetup.replenish_step.
  cbn [fst snd]. rewrite getRad_supported by exact Hsup. cbn [bind].
  now destruct (rleb _ _).
Qed.

Lemma drum_end_of_step_visited (mb : Block) (k j i n : Z) :
  within (bounds mb) k j i ->
  let mb' :=
    fold_left (fun acc x => DrumSetup.replenish_step d g x acc)
      (cells_kji (bounds mb)) mb in
  let rad := radius d mb k j i in
  let ic := DrumSetup.SetInitialConditions g rad in
  (w mb' n k j i, u mb' n k j i, s mb' n k j i, r mb' n k j i)
  = if rad <=? rq 0.75 * DrumSetup.Rp g then
      (DrumSetup.replenished_w ic n (w mb n k j i),
       DrumSetup.replenished_u g ic n (u mb n k j i),
       DrumSetup.replenished_s ic n (s mb n k j i),
       DrumSetup.replenished_r ic n (r mb n k j i))
    else (w mb n k j i, u mb n k j i, s mb n k j i, r mb n k j i).
Proof.
  intros Hin. cbv zeta.
  refine (fold_left_visited (DrumSetup.replenish_step d g)
            (fun a x => arrays_at a n x)
            (fun x v =>
               let rad := uncurry3 (radius d mb) x in
               let ic := DrumSetup.SetInitialConditions g rad in
               if rad <=? rq 0.75 * DrumSetup.Rp g then
                 (DrumSetup.replenished_w ic n (fst (fst (fst v))),
                  DrumSetup.replenished_u g ic n (snd (fst (fst v))),
                  DrumSetup.replenished_s ic n (snd (fst v)),
                  DrumSetup.replenished_r ic n (snd v))
               else v)
            (same_frame mb) _ _ _ (cells_kji (bounds mb)) mb (k, j, i)
            (same_frame_refl mb) (cells_kji_NoDup _)
            (proj2 (cells_kji_In _ k j i) Hin)).
  - intros x s0. apply drum_replenish_frame.
  - intros [[k' j'] i'] s0 Hfr.
    unfold uncurry3, DrumSetup.replenish_step. cbn [fst snd]. cbv zeta.
    rewrite (same_frame_radius d mb s0 k' j' i' Hfr).
    destruct (rleb _ _); [|reflexivity].
    destruct (drum_replenish_at s0 (radius d mb k' j' i') k' j' i' n)
      as (Hw & Hu & Hs & Hr).
    cbv zeta in Hw, Hu, Hs, Hr. now rewrite Hw, Hu, Hs, Hr.
  - intros [[k' j'] i'] [[k'' j''] i''] s0 _ Hne.
    unfold uncurry3, DrumSetup.replenish_step. cbn [fst snd].
    destruct (rleb _ _); [|reflexivity].
    destruct (drum_replenish_other s0 (radius d s0 k' j' i')
                k' j' i' n k'' j'' i'' Hne) as (Hw & Hu & Hs & Hr).
    cbv zeta in Hw, Hu, Hs, Hr. now rewrite Hw, Hu, Hs, Hr.
Qed.

Lemma drum_end_of_step_untouched (mb : Block) (k j i n : Z) :
  ~ within (bounds mb) k j i ->
  let mb' :=
    fold_left (fun acc x => DrumSetup.replenish_step d g x acc)
      (cells_kji (bounds mb)) mb in
  (w mb' n k j i, u mb' n k j i, s mb' n k j i, r mb' n k j i)
  = (w mb n k j i, u mb n k j i, s mb n k j i, r mb n k j i).
Proof.
  intros Hout. cbv zeta.
  refine (fold_left_untouched (DrumSetup.replenish_step d g)
            (fun a x => arrays_at a n x)
            (fun _ => True) _ _ (cells_kji (bounds mb)) mb (k, j, i) I _).
  - auto.
  - intros [[k' j'] i'] [[k'' j''] i''] s0 _ Hne.
    unfold uncurry3, DrumSetup.replenish_step. cbn [fst snd].
    destruct (rleb _ _); [|reflexivity].
    destruct (drum_replenish_other s0 (radius d s0 k' j' i')
                k' j' i' n k'' j'' i'' Hne) as (Hw & Hu & Hs & Hr).
    cbv zeta in Hw, Hu, Hs, Hr. now rewrite Hw, Hu, Hs, Hr.
  - rewrite cells_kji_In. exact Hout.
Qed.

(** X19.  [UserWorkInLoop] of the drum problem, for every numeric type.
    With a supported coordinate system it always returns: it tests no
    value for not-a-number.  It resets the cells of the interior of the
    block whose radius is at most [0.75 * Rp] to the initial state at
    their radius, in the primitive and the conserved variables and in the
    two scalars and their fractions, and changes nothing else; ghost zones
    are never reset. *)
Theorem drum_UserWorkInLoop_resets (mb : Block) :
  supported d ->
  exists mb',
    DrumSetup.UserWorkInLoop d g mb = OK mb' /\
    forall k j i,
      let rad := radius d mb k j i in
      let ic := DrumSetup.SetInitialConditions g rad in
      (within (bounds mb) k j i ->
       (rad <=? rq 0.75 * DrumSetup.Rp g) = true ->
       (w mb' IPR k j i = DrumSetup.press ic /\
        w mb' IDN k j i = DrumSetup.dens ic /\
        w mb' IV1 k j i = DrumSetup.v1 ic /\
        w mb' IV2 k j i = DrumSetup.v2 ic /\
        w mb' IV3 k j i = DrumSetup.v3 ic) /\
       (u mb' IEN k j i
        = DrumSetup.press ic / (DrumSetup.gas_gamma g - rq 1.0) /\
        u mb' IDN k j i = DrumSetup.dens ic /\
        u mb' IM1 k j i = DrumSetup.v1 ic * DrumSetup.dens ic /\
        u mb' IM2 k j i = DrumSetup.v2 ic * DrumSetup.dens ic /\
        u mb' IM3 k j i = DrumSetup.v3 ic * DrumSetup.dens ic) /\
       (s mb' 0%Z k j i
        = (rq 1.0 - DrumSetup.ion_f ic) * DrumSetup.dens ic /\
        r mb' 0%Z k j i = rq 1.0 - DrumSetup.ion_f ic /\
        s mb' 1%Z k j i = DrumSetup.ion_f ic * DrumSetup.dens ic /\
        r mb' 1%Z k j i = DrumSetup.ion_f ic)) /\
      (~ (within (bounds mb) k j i /\
          (rad <=? rq 0.75 * DrumSetup.Rp g) = true) ->
       forall n,
         w mb' n k j i = w mb n k j i /\ u mb' n k j i = u mb n k j i /\
         s mb' n k j i = s mb n k j i /\ r mb' n k j i = r mb n k j i).
Proof.
  intros Hsup. eexists. split; [exact (drum_UserWorkInLoop_value mb Hsup)|].
  intros k j i. cbv zeta. split.
  - intros Hin Hrad.
    assert (H : forall n,
              _ = _ ) by
      (intros n; exact (drum_end_of_step_visited mb k j i n Hin)).
    cbv zeta in H. rewrite Hrad in H.
    assert (Hw : forall n, w _ n k j i = _)
      by (intros n; exact (f_equal (fun t => fst (fst (fst t))) (H n))).
    assert (Hu : forall n, u _ n k j i = _)
      by (intros n; exact (f_equal (fun t => snd (fst (fst t))) (H n))).
    assert (Hs : forall n, s _ n k j i = _)
      by (intros n; exact (f_equal (fun t => snd (fst t)) (H n))).
    assert (Hr : forall n, r _ n k j i = _)
      by (intros n; exact (f_equal (fun t => snd t) (H n))).
    cbn [fst snd] in Hw, Hu, Hs, Hr.
    rewrite !Hw, !Hu, !Hs, !Hr. repeat split; reflexivity.
  - intros Hnot n.
    destruct (within_dec (bounds mb) k j i) as [Hin|Hout].
    + pose proof (drum_end_of_step_visited mb k j i n Hin) as H.
      cbv zeta in H.
      destruct (radius d mb k j i <=? rq 0.75 * DrumSetup.Rp g) eqn:Hrad;
        [tauto|].
      injection H as Hw Hu Hs Hr. auto.
    + pose proof (drum_end_of_step_untouched mb k j i n Hout) as H.
      cbv zeta in H. injection H as Hw Hu Hs Hr. auto.
Qed.

End DrumInitial.

Section DrumInitialR.
Import Tripathi.
Local Open Scope R_scope.

Variable PrimitiveToConserved : Array4 R -> Array4 R -> Bounds -> Array4 R.

Lemma drum_SetInitialConditions_R (g : DrumSetup.Globals) (rad : R) :
  DrumSetup.SetInitialConditions g rad
  = if Rle_dec rad (DrumSetup.r_0 g) then
      {| DrumSetup.dens := DrumSetup.rho_0 g;
         DrumSetup.press := DrumSetup.P_0 g;
         DrumSetup.ion_f := DrumSetup.sfloor g;
         DrumSetup.v1 := 0; DrumSetup.v2 := 0; DrumSetup.v3 := 0 |}
    else if Rle_dec rad (DrumSetup.r_e g) then
      {| DrumSetup.dens := DrumSetup.rho_func g rad;
         DrumSetup.press :=
           DrumSetup.press_func g (DrumSetup.rho_func g rad);
         DrumSetup.ion_f := DrumSetup.sfloor g;
         DrumSetup.v1 := 0; DrumSetup.v2 := 0; DrumSetup.v3 := 0 |}
    else
      {| DrumSetup.dens := DrumSetup.rho_e g * Q2R 1.0e-4;
         DrumSetup.press := DrumSetup.P_e g;
         DrumSetup.ion_f := 1 - DrumSetup.sfloor g;
         DrumSetup.v1 := 0; DrumSetup.v2 := 0; DrumSetup.v3 := 0 |}.
Proof.
  unfold DrumSetup.SetInitialConditions. cbv zeta.
  cbn [rq rmul rsub rleb R_ops]. rewrite Q2R_0, Q2R_lit_1. unfold Rleb.
  destruct (Rle_dec rad (DrumSetup.r_0 g)); [reflexivity|].
  destruct (Rle_dec rad (DrumSetup.r_e g)); reflexivity.
Qed.

Lemma drum_initial_state (g : DrumSetup.Globals) (rad : R) :
  let ic := DrumSetup.SetInitialConditions g rad in
  DrumSetup.v1 ic = 0 /\ DrumSetup.v2 ic = 0 /\ DrumSetup.v3 ic = 0 /\
  (DrumSetup.ion_f ic = DrumSetup.sfloor g \/
   DrumSetup.ion_f ic = 1 - DrumSetup.sfloor g).
Proof.
  cbv zeta. rewrite drum_SetInitialConditions_R.
  destruct (Rle_dec _ _); [|destruct (Rle_dec _ _)];
    cbn [DrumSetup.v1 DrumSetup.v2 DrumSetup.v3 DrumSetup.ion_f]; auto.
Qed.

(** X18.  The problem generator of the drum problem.  A build with a
    number of scalars other than 2 is rejected.  With 2 scalars and a
    supported coordinate system the function returns, and over the reals,
    in every cell of the loop bounds, ghost zones included, the gas is at
    rest and the densities of neutral and ionised hydrogen add up to the
    density of the cell; where that density is not negative and the floor
    [sfloor] lies between 0 and 1, neither of the two is negative.  Cells
    outside the loop bounds keep [w] and [s], and the fractions [r] are
    not touched. *)
Theorem drum_ProblemGenerator_two_species
    (d : Defs) (g : DrumSetup.Globals) (mb : MeshBlock) :
  let result := DrumSetup.ProblemGenerator PrimitiveToConserved d g mb in
  (NSCALARS d <> 2%Z -> result = Fatal (BadScalarCount (NSCALARS d))) /\
  (NSCALARS d = 2%Z -> supported d ->
   exists mb',
     result = OK mb' /\ r mb' = r mb /\
     forall k j i,
       (within (getMBBounds d mb) k j i ->
        s mb' 0%Z k j i + s mb' 1%Z k j i = w mb' IDN k j i /\
        w mb' IV1 k j i = 0 /\ w mb' IV2 k j i = 0 /\ w mb' IV3 k j i = 0 /\
        (0 <= w mb' IDN k j i -> 0 <= DrumSetup.sfloor g <= 1 ->
         0 <= s mb' 0%Z k j i /\ 0 <= s mb' 1%Z k j i)) /\
       (~ within (getMBBounds d mb) k j i ->
        forall n,
          w mb' n k j i = w mb n k j i /\ s mb' n k j i = s mb n k j i)).
Proof.
  intros result. split.
  - intros HN. unfold result, DrumSetup.ProblemGenerator.
    destruct (Z.eqb_spec (NSCALARS d) 2) as [H|_]; [contradiction|].
    reflexivity.
  - intros HN Hsup.
    destruct (drum_ProblemGenerator_full PrimitiveToConserved d g mb Hsup HN)
      as (mb' & Hpg & Hr & _ & Hcells).
    exists mb'. split; [exact Hpg|]. split; [exact Hr|].
    intros k j i. split.
    + intros Hin.
      assert (Hw : forall n,
                w mb' n k j i
                = DrumSetup.replenished_w
                    (DrumSetup.SetInitialConditions g (radius d mb k j i))
                    n (w mb n k j i)).
      { intros n. exact (proj1 (proj1 (Hcells k j i n) Hin)). }
      assert (Hs : forall n,
                s mb' n k j i
                = DrumSetup.generated_s
                    (DrumSetup.SetInitialConditions g (radius d mb k j i))
                    n (s mb n k j i)).
      { intros n. exact (proj2 (proj1 (Hcells k j i n) Hin)). }
      destruct (drum_initial_state g (radius d mb k j i))
        as (Hv1 & Hv2 & Hv3 & Hion).
      cbv zeta in Hv1, Hv2, Hv3, Hion.
      set (ic := DrumSetup.SetInitialConditions g (radius d mb k j i)) in *.
      rewrite (Hs 0%Z), (Hs 1%Z), (Hw IDN), (Hw IV1), (Hw IV2), (Hw IV3).
      change (DrumSetup.generated_s ic 0 (s mb 0%Z k j i))
        with ((Q2R 1 - DrumSetup.ion_f ic) * DrumSetup.dens ic).
      change (DrumSetup.generated_s ic 1 (s mb 1%Z k j i))
        with (DrumSetup.ion_f ic * DrumSetup.dens ic).
      change (DrumSetup.replenished_w ic IDN (w mb IDN k j i))
        with (DrumSetup.dens ic).
      change (DrumSetup.replenished_w ic IV1 (w mb IV1 k j i))
        with (DrumSetup.v1 ic).
      change (DrumSetup.replenished_w ic IV2 (w mb IV2 k j i))
        with (DrumSetup.v2 ic).
      change (DrumSetup.replenished_w ic IV3 (w mb IV3 k j i))
        with (DrumSetup.v3 ic).
      rewrite Q2R_lit_1.
      split; [ring|].
      split; [exact Hv1|]. split; [exact Hv2|]. split; [exact Hv3|].
      intros Hdens Hfloor.
      destruct Hion as [Hion|Hion]; rewrite Hion;
        split; apply Rmult_le_pos; lra.
    + intros Hout n. exact (proj2 (Hcells k j i n) Hout).
Qed.

(** X20.  Over the reals, a cell that [UserWorkInLoop] of the drum
    problem has reset is consistent: the two scalar fractions add up to 1,
    each scalar density is its fraction times the density, the two
    scalar densities add up to the density, the conserved density equals
    the primitive one, and the momenta and velocities are zero. *)
Theorem drum_UserWorkInLoop_consistent
    (d : Defs) (g : DrumSetup.Globals) (mb : MeshBlock) (k j i : Z) :
  supported d ->
  within (bounds mb) k j i ->
  radius d mb k j i <= 0.75 * DrumSetup.Rp g ->
  exists mb',
    DrumSetup.UserWorkInLoop d g mb = OK mb' /\
    r mb' 0%Z k j i + r mb' 1%Z k j i = 1 /\
    s mb' 0%Z k j i = r mb' 0%Z k j i * w mb' IDN k j i /\
    s mb' 1%Z k j i = r mb' 1%Z k j i * w mb' IDN k j i /\
    s mb' 0%Z k j i + s mb' 1%Z k j i = w mb' IDN k j i /\
    u mb' IDN k j i = w mb' IDN k j i /\
    u mb' IM1 k j i = 0 /\ u mb' IM2 k j i = 0 /\ u mb' IM3 k j i = 0 /\
    w mb' IV1 k j i = 0 /\ w mb' IV2 k j i = 0 /\ w mb' IV3 k j i = 0.
Proof.
  intros Hsup Hin Hrad.
  eexists. split; [exact (drum_UserWorkInLoop_value d g mb Hsup)|].
  assert (Hle : (radius d mb k j i <=? rq 0.75 * DrumSetup.Rp g)%r = true).
  { cbn [rq rmul rleb R_ops]. apply Rleb_true.
    replace (Q2R 0.75) with 0.75 by (unfold Q2R; cbn [Qnum Qden]; lra).
    exact Hrad. }
  assert (H : forall n, _ = _)
    by (intros n; exact (drum_end_of_step_visited d g mb k j i n Hin)).
  cbv zeta in H. rewrite Hle in H.
  assert (Hw : forall n, w _ n k j i = _)
    by (intros n; exact (f_equal (fun t => fst (fst (fst t))) (H n))).
  assert (Hu : forall n, u _ n k j i = _)
    by (intros n; exact (f_equal (fun t => snd (fst (fst t))) (H n))).
  assert (Hs : forall n, s _ n k j i = _)
    by (intros n; exact (f_equal (fun t => snd (fst t)) (H n))).
  assert (Hr : forall n, r _ n k j i = _)
    by (intros n; exact (f_equal (fun t => snd t) (H n))).
  cbn [fst snd] in Hw, Hu, Hs, Hr.
  rewrite !Hw, !Hu, !Hs, !Hr.
  set (ic := DrumSetup.SetInitialConditions g (radius d mb k j i)).
  assert (Hv : DrumSetup.v1 ic = 0 /\ DrumSetup.v2 ic = 0 /\
               DrumSetup.v3 ic = 0).
  { unfold ic. rewrite drum_SetInitialConditions_R.
    destruct (Rle_dec _ _); [|destruct (Rle_dec _ _)]; cbn; auto. }
  destruct Hv as (Hv1 & Hv2 & Hv3).
  change (DrumSetup.replenished_r ic 0 (r mb 0%Z k j i))
    with (Q2R 1.0 - DrumSetup.ion_f ic).
  change (DrumSetup.replenished_r ic 1 (r mb 1%Z k j i))
    with (DrumSetup.ion_f ic).
  change (DrumSetup.replenished_s ic 0 (s mb 0%Z k j i))
    with ((Q2R 1.0 - DrumSetup.ion_f ic) * DrumSetup.dens ic).
  change (DrumSetup.replenished_s ic 1 (s mb 1%Z k j i))
    with (DrumSetup.ion_f ic * DrumSetup.dens ic).
  change (DrumSetup.replenished_w ic IDN (w mb IDN k j i))
    with (DrumSetup.dens ic).
  change (DrumSetup.replenished_w ic IV1 (w mb IV1 k j i))
    with (DrumSetup.v1 ic).
  change (DrumSetup.replenished_w ic IV2 (w mb IV2 k j i))
    with (DrumSetup.v2 ic).
  change (DrumSetup.replenished_w ic IV3 (w mb IV3 k j i))
    with (DrumSetup.v3 ic).
  change (DrumSetup.replenished_u g ic IDN (u mb IDN k j i))
    with (DrumSetup.dens ic).
  change (DrumSetup.replenished_u g ic IM1 (u mb IM1 k j i))
    with (DrumSetup.v1 ic * DrumSetup.dens ic).
  change (DrumSetup.replenished_u g ic IM2 (u mb IM2 k j i))
    with (DrumSetup.v2 ic * DrumSetup.dens ic).
  change (DrumSetup.replenished_u g ic IM3 (u mb IM3 k j i))
    with (DrumSetup.v3 ic * DrumSetup.dens ic).
  rewrite Q2R_lit_1_0, Hv1, Hv2, Hv3.
  repeat split; ring.
Qed.

End DrumInitialR.

(* ================================================================== *)
(** * Further properties: orbit, gravity and the radiation ramp *)
(* ================================================================== *)

Section Orbit.
Import Gravity.
Local Open Scope R_scope.

Lemma Q2R_lit_2_0 : Q2R 2.0 = 2.
Proof. unfold Q2R. cbn [Qnum Qden]. lra. Qed.

Lemma Q2R_lit_3 : Q2R 3 = 3.
Proof. unfold Q2R. cbn [Qnum Qden]. lra. Qed.

Lemma Q2R_lit_4_0 : Q2R 4.0 = 4.
Proof. unfold Q2R. cbn [Qnum Qden]. lra. Qed.

Lemma Q2R_lit_86400 : Q2R 86400.0 = 86400.
Proof. unfold Q2R. cbn [Qnum Qden]. lra. Qed.

Lemma M_PI_pos : 0 < M_PI (Real := R).
Proof. apply Q2R_pos. reflexivity. Qed.

Lemma Rpower_3 (x : R) : 0 < x -> Rpower x 3 = x * x * x.
Proof.
  intros Hx. replace 3 with (INR 3) by (simpl; lra).
  rewrite Rpower_pow by exact Hx. simpl. ring.
Qed.

Lemma Rpower_third (y : R) :
  0 < y -> Rpower y (1 / 3) * Rpower y (1 / 3) * Rpower y (1 / 3) = y.
Proof.
  intros Hy. rewrite <- !Rpower_plus.
  replace (1 / 3 + 1 / 3 + 1 / 3) with 1 by lra.
  now apply Rpower_1.
Qed.

Lemma a_value (G Mp Ms Rp period : R) :
  a (InitUserMeshData G Mp Ms Rp period)
  = Rpower (Rpower (period * 86400) 2 / (4 * Rpower M_PI 2 / (G * Ms)))
      (1 / 3).
Proof.
  unfold InitUserMeshData. cbv zeta. cbn [a rq rmul rdiv rpow R_ops].
  now rewrite Q2R_lit_2_0, Q2R_lit_4_0, Q2R_lit_86400, Q2R_lit_1_0,
    Q2R_lit_3.
Qed.

(** X21.  Over the reals, the orbital separation [a] that
    [InitUserMeshData] computes from the period in days obeys Kepler's
    third law, [a^3 = G Ms T^2 / (4 pi^2)] with [T] the period in seconds,
    for a positive [G * Ms] and period.  The centrifugal coefficient
    [G Ms / a^3] that [gravity_func] uses is therefore the square of the
    orbital angular frequency, [(2 pi / T)^2]. *)
Theorem InitUserMeshData_kepler (G Mp Ms Rp period : R) :
  0 < G * Ms -> 0 < period ->
  let g := InitUserMeshData G Mp Ms Rp period in
  let T := period * 86400 in
  0 < a g /\
  a g * a g * a g = G * Ms * (T * T) / (4 * (M_PI * M_PI)) /\
  Gravity.G g * Gravity.Ms g / Rpower (a g) 3
  = 4 * (M_PI * M_PI) / (T * T).
Proof.
  intros HGM Hperiod g T.
  pose proof M_PI_pos as Hpi.
  assert (HT : 0 < T) by (unfold T; lra).
  assert (Ha : a g
               = Rpower (G * Ms * (T * T) / (4 * (M_PI * M_PI))) (1 / 3)).
  { unfold g. rewrite a_value. fold T.
    rewrite (Rpower_2 T HT), (Rpower_2 M_PI Hpi). f_equal.
    field. split; [lra|]. nra. }
  assert (Hy : 0 < G * Ms * (T * T) / (4 * (M_PI * M_PI))).
  { apply Rdiv_lt_0_compat; [|nra].
    apply Rmult_lt_0_compat; [exact HGM|nra]. }
  assert (Hpos : 0 < a g).
  { rewrite Ha. unfold Rpower. apply exp_pos. }
  assert (Hcube : a g * a g * a g
                  = G * Ms * (T * T) / (4 * (M_PI * M_PI))).
  { rewrite Ha. now apply Rpower_third. }
  split; [exact Hpos|]. split; [exact Hcube|].
  rewrite (Rpower_3 (a g) Hpos), Hcube.
  change (Gravity.G g) with G. change (Gravity.Ms g) with Ms.
  field. repeat split; nra.
Qed.

Lemma InitUserMeshData_kepler_witness :
  0 < 6.674e-11 * 2e30 /\ 0 < 3 /\
  0 < a (InitUserMeshData 6.674e-11 1e27 2e30 1e8 3).
Proof.
  assert (H1 : 0 < 6.674e-11 * 2e30) by lra.
  assert (H2 : 0 < 3) by lra.
  split; [exact H1|]. split; [exact H2|].
  exact (proj1 (InitUserMeshData_kepler 6.674e-11 1e27 2e30 1e8 3 H1 H2)).
Defined.

End Orbit.

Section GravityField.
Import Tripathi.
Local Open Scope R_scope.

Variable d : Defs.
Variable unset : bool.
Variable g : Gravity.Globals (Real := R).
Variable mb : MeshBlock (Real := R).

Local Abbreviation accel_at a k j i :=
  (Gravity.g1 a k j i, Gravity.g2 a k j i, Gravity.g3 a k j i).

Lemma gravity_func_cells (flag : bool) (acc : Gravity.Acceleration)
    (k j i : Z) :
  let acc' :=
    fold_left
      (fun a x => uncurry3 (Gravity.gravity_cell flag g mb) x a)
      (cells_kji (getMBBounds d mb)) acc in
  (within (getMBBounds d mb) k j i ->
   accel_at acc' k j i
   = accel_at (Gravity.gravity_cell flag g mb k j i acc) k j i) /\
  (~ within (getMBBounds d mb) k j i ->
   accel_at acc' k j i = accel_at acc k j i).
Proof.
  cbv zeta. split.
  - intros Hin.
    refine (fold_left_visited
              (uncurry3 (Gravity.gravity_cell flag g mb))
              (fun a x => uncurry3 (fun k j i => accel_at a k j i) x)
              (fun x _ =>
                 uncurry3 (fun k j i =>
                   accel_at (Gravity.gravity_cell flag g mb k j i acc)
                     k j i) x)
              (fun _ => True) _ _ _ (cells_kji (getMBBounds d mb)) acc
              (k, j, i) I (cells_kji_NoDup _)
              (proj2 (cells_kji_In _ k j i) Hin)).
    + auto.
    + intros [[k' j'] i'] a _. unfold uncurry3, Gravity.gravity_cell.
      cbn [fst snd Gravity.g1 Gravity.g2 Gravity.g3].
      now rewrite !set3_same.
    + intros [[k' j'] i'] [[k'' j''] i''] a _ Hne.
      unfold uncurry3, Gravity.gravity_cell.
      cbn [fst snd Gravity.g1 Gravity.g2 Gravity.g3].
      now rewrite !set3_other by exact Hne.
  - intros Hout.
    refine (fold_left_untouched
              (uncurry3 (Gravity.gravity_cell flag g mb))
              (fun a x => uncurry3 (fun k j i => accel_at a k j i) x)
              (fun _ => True) _ _ (cells_kji (getMBBounds d mb)) acc
              (k, j, i) I _).
    + auto.
    + intros [[k' j'] i'] [[k'' j''] i''] a _ Hne.
      unfold uncurry3, Gravity.gravity_cell.
      cbn [fst snd Gravity.g1 Gravity.g2 Gravity.g3].
      now rewrite !set3_other by exact Hne.
    + rewrite cells_kji_In. exact Hout.
Qed.

(** X22.  Over the reals and in spherical polar coordinates,
    [gravity_func] gives every cell of the loop bounds, ghost zones
    included, a purely radial acceleration: the second and third
    components are zero, and the first is the attraction of the planet,
    with the radius held at [0.5 * Rp] below that value, plus the tidal
    term of the star along the line to the star.  Cells outside the loop
    bounds keep what the three arrays held. *)
Theorem gravity_func_spherical (acc : Gravity.Acceleration) (k j i : Z) :
  COORDINATE_SYSTEM d = "spherical_polar"%string ->
  let acc' := Gravity.gravity_func d unset g mb acc in
  let x := x1v mb i in
  let r := Rmax x (0.5 * Gravity.Rp g) in
  let GMs := Gravity.G g * Gravity.Ms g in
  (within (getMBBounds d mb) k j i ->
   Gravity.g1 acc' k j i
   = Gravity.G g * Gravity.Mp g / Rpower r 3 * (- x)
     + (GMs / Rpower (Gravity.a g - x) 3 - GMs / Rpower (Gravity.a g) 3)
       * (Gravity.a g - x) /\
   Gravity.g2 acc' k j i = 0 /\
   Gravity.g3 acc' k j i = 0) /\
  (~ within (getMBBounds d mb) k j i ->
   Gravity.g1 acc' k j i = Gravity.g1 acc k j i /\
   Gravity.g2 acc' k j i = Gravity.g2 acc k j i /\
   Gravity.g3 acc' k j i = Gravity.g3 acc k j i).
Proof.
  intros Hsys. cbv zeta.
  assert (Hfold : Gravity.gravity_func d unset g mb acc
                  = fold_left
                      (fun a x =>
                         uncurry3 (Gravity.gravity_cell true g mb) x a)
                      (cells_kji (getMBBounds d mb)) acc).
  { unfold Gravity.gravity_func. rewrite Hsys. cbn [String.eqb].
    change (String.eqb "spherical_polar" "cartesian") with false.
    change (String.eqb "spherical_polar" "spherical_polar") with true.
    cbv iota. unfold cells_kji. now rewrite <- for_loop_nest3. }
  rewrite Hfold.
  destruct (gravity_func_cells true acc k j i) as [Hin Hout].
  cbv zeta in Hin, Hout. split.
  - intros Hcell. specialize (Hin Hcell). injection Hin as H1 H2 H3.
    rewrite H1, H2, H3. clear H1 H2 H3 Hout Hfold.
    unfold Gravity.gravity_cell, Gravity.position.
    cbn [Gravity.g1 Gravity.g2 Gravity.g3 Gravity.x Gravity.y Gravity.z
         Gravity.r Gravity.rs].
    rewrite !set3_same.
    cbn [rq radd rsub rmul rdiv rneg rpow rltb R_ops].
    rewrite Q2R_0, Q2R_lit_3.
    replace (Q2R 0.5) with 0.5 by (unfold Q2R; cbn [Qnum Qden]; lra).
    assert (Hr : (if Rltb (x1v mb i) (0.5 * Gravity.Rp g)
                  then 0.5 * Gravity.Rp g else x1v mb i)
                 = Rmax (x1v mb i) (0.5 * Gravity.Rp g)).
    { unfold Rltb, Rmax.
      destruct (Rlt_dec _ _); destruct (Rle_dec _ _); lra. }
    rewrite Hr. split; [reflexivity|]. split; ring.
  - intros Hcell. specialize (Hout Hcell). injection Hout as H1 H2 H3.
    auto.
Qed.

End GravityField.

Section Ramp.
Local Open Scope R_scope.

Variable erf : R -> R.

Lemma RadiationTime_R (rad_scaling time : R) :
  Gravity.RadiationTime erf rad_scaling time
  = rad_scaling * (5 * erf (time / 8.0e4 - 1.5) + 5.1).
Proof.
  unfold Gravity.RadiationTime. cbv zeta.
  cbn [rq radd rsub rmul rdiv R_ops].
  replace (Q2R 5) with 5 by (unfold Q2R; cbn [Qnum Qden]; lra).
  replace (Q2R 1.5) with 1.5 by (unfold Q2R; cbn [Qnum Qden]; lra).
  replace (Q2R 5.1) with 5.1 by (unfold Q2R; cbn [Qnum Qden]; lra).
  replace (Q2R 8.0e4) with 8.0e4
    by (rewrite Q2R_mult; unfold Q2R; cbn [Qnum Qden]; lra).
  reflexivity.
Qed.

(** X23.  Over the reals, the radiation ramp stays between 0.1 and 10.1
    times [rad_scaling] at all times, for a non-negative [rad_scaling] and
    an error function with values between -1 and 1; it never switches the
    radiation off.  With an increasing error function the ramp does not
    decrease with time. *)
Theorem RadiationTime_bounds (rad_scaling time time' : R) :
  (forall x, -1 <= erf x <= 1) ->
  (forall x y, x <= y -> erf x <= erf y) ->
  0 <= rad_scaling ->
  0.1 * rad_scaling <= Gravity.RadiationTime erf rad_scaling time
    <= 10.1 * rad_scaling /\
  (time <= time' ->
   Gravity.RadiationTime erf rad_scaling time
   <= Gravity.RadiationTime erf rad_scaling time').
Proof.
  intros Hrange Hmono Hscale. rewrite !RadiationTime_R.
  pose proof (Hrange (time / 8.0e4 - 1.5)) as He.
  split; [split; nra|].
  intros Htime.
  assert (Harg : time / 8.0e4 - 1.5 <= time' / 8.0e4 - 1.5) by lra.
  pose proof (Hmono _ _ Harg) as Hle.
  apply Rmult_le_compat_l; [exact Hscale|]. lra.
Qed.

End Ramp.

Lemma clamp_range (x : R) : (-1 <= MoreSamples.clamp x <= 1)%R.
Proof.
  unfold MoreSamples.clamp, Rmax, Rmin.
  destruct (Rle_dec 1 x); destruct (Rle_dec _ _); lra.
Qed.

Lemma clamp_increasing (x y : R) :
  (x <= y)%R -> (MoreSamples.clamp x <= MoreSamples.clamp y)%R.
Proof.
  intros Hxy. unfold MoreSamples.clamp, Rmax, Rmin.
  destruct (Rle_dec 1 x); destruct (Rle_dec 1 y);
    repeat destruct (Rle_dec _ _); lra.
Qed.

Lemma RadiationTime_bounds_witness :
  (0 <= 1)%R /\
  (0.1 * 1 <= Gravity.RadiationTime MoreSamples.clamp 1 0 <= 10.1 * 1)%R.
Proof.
  assert (H : (0 <= 1)%R) by lra.
  split; [exact H|].
  exact (proj1 (RadiationTime_bounds MoreSamples.clamp 1 0 0
                  clamp_range clamp_increasing H)).
Defined.

(* ================================================================== *)
(** * Further properties applied to the sample inputs *)
(* ================================================================== *)

Lemma CalculateEnergyFunctions_idempotent_witness :
  ~ (0 <= 5 < 1)%Z /\
  IonizingAbsorber.h
    (IonizingAbsorber.CalculateEnergyFunctions Samples.threshold_spec 1
       Samples.threshold_absorber) 5%Z
  = IonizingAbsorber.h Samples.threshold_absorber 5%Z.
Proof.
  assert (H : ~ (0 <= 5 < 1)%Z) by lia.
  split; [exact H|].
  exact (proj1 (proj1 (proj2 (proj2
    (CalculateEnergyFunctions_idempotent (RO := R_ops)
       Samples.threshold_spec 1 Samples.threshold_absorber 5))) H)).
Defined.

Lemma GetBand_in_range_witness :
  (0 <= 1 < RadiationBands.GetNumBands MoreSamples.flux_bands)%Z /\
  RadiationBands.GetBand MoreSamples.flux_bands 1 <> None.
Proof.
  assert (H : (0 <= 1
               < RadiationBands.GetNumBands MoreSamples.flux_bands)%Z).
  { unfold RadiationBands.GetNumBands, MoreSamples.flux_bands.
    cbn [RadiationBands.GetNumBands_from]. lia. }
  split; [exact H|].
  exact (proj2 (proj2 (proj2
    (GetBand_in_range (Real := R) MoreSamples.flux_bands 1))) H).
Defined.

Lemma CalculateNetFlux_accumulates_witness :
  (2 <= 3 <= 5)%Z /\
  RadiationBands.X1DIR
    (RadiationBands.CalculateNetFlux MoreSamples.flux_bands 0 0 2 5
       (RadiationBands.ClearRadFlux MoreSamples.flux_10)) 0%Z 0%Z 3%Z
  = fold_left
      (fun acc p =>
         (acc + (RadiationBands.bflxup p 0%Z 0%Z 3%Z
                 - RadiationBands.bflxdn p 0%Z 0%Z 3%Z))%R)
      MoreSamples.flux_bands (Q2R 0).
Proof.
  assert (H : (2 <= 3 <= 5)%Z) by lia.
  split; [exact H|].
  exact (proj2 (proj2 (proj2 (proj2 (proj2
    (CalculateNetFlux_accumulates (RO := R_ops) 0 0 2 5
       MoreSamples.flux_bands MoreSamples.flux_10))) 3%Z H))).
Defined.

Section DrumSamples2.
Import Tripathi.
Local Open Scope R_scope.

Lemma drum_defs_supported : supported MoreSamples.drum_defs.
Proof. right. reflexivity. Qed.

Lemma drum_ProblemGenerator_two_species_witness :
  NSCALARS MoreSamples.drum_defs = 2%Z /\
  supported MoreSamples.drum_defs /\
  exists mb',
    DrumSetup.ProblemGenerator Samples.no_conversion MoreSamples.drum_defs
      (DrumSetup.InitUserMeshData MoreSamples.drum_input)
      Samples.planet_block = OK mb' /\
    r mb' = r Samples.planet_block.
Proof.
  split; [reflexivity|]. split; [exact drum_defs_supported|].
  destruct (proj2 (drum_ProblemGenerator_two_species Samples.no_conversion
                     MoreSamples.drum_defs
                     (DrumSetup.InitUserMeshData MoreSamples.drum_input)
                     Samples.planet_block) eq_refl drum_defs_supported)
    as (mb' & Hpg & Hr & _).
  exists mb'. split; [exact Hpg | exact Hr].
Defined.

Lemma drum_UserWorkInLoop_resets_witness :
  supported MoreSamples.drum_defs /\
  exists mb',
    DrumSetup.UserWorkInLoop MoreSamples.drum_defs
      (DrumSetup.InitUserMeshData MoreSamples.drum_input)
      Samples.planet_block = OK mb'.
Proof.
  split; [exact drum_defs_supported|].
  destruct (drum_UserWorkInLoop_resets (RO := R_ops) MoreSamples.drum_defs
              (DrumSetup.InitUserMeshData MoreSamples.drum_input)
              Samples.planet_block drum_defs_supported) as (mb' & H & _).
  exists mb'. exact H.
Defined.

Lemma drum_UserWorkInLoop_consistent_witness :
  supported MoreSamples.drum_defs /\
  within (bounds Samples.planet_block) 0 0 2 /\
  radius MoreSamples.drum_defs Samples.planet_block 0 0 2
  <= 0.75 * DrumSetup.Rp (DrumSetup.InitUserMeshData MoreSamples.drum_input)
  /\
  exists mb',
    DrumSetup.UserWorkInLoop MoreSamples.drum_defs
      (DrumSetup.InitUserMeshData MoreSamples.drum_input)
      Samples.planet_block = OK mb' /\
    r mb' 0%Z 0%Z 0%Z 2%Z + r mb' 1%Z 0%Z 0%Z 2%Z = 1.
Proof.
  assert (Hin : within (bounds Samples.planet_block) 0 0 2).
  { unfold within. cbn. lia. }
  assert (Hrad : radius MoreSamples.drum_defs Samples.planet_block 0 0 2
                 <= 0.75 * DrumSetup.Rp
                             (DrumSetup.InitUserMeshData
                                MoreSamples.drum_input)).
  { change (IZR 2 * 2.5e7 <= 0.75 * 1e8). lra. }
  split; [exact drum_defs_supported|]. split; [exact Hin|].
  split; [exact Hrad|].
  destruct (drum_UserWorkInLoop_consistent MoreSamples.drum_defs
              (DrumSetup.InitUserMeshData MoreSamples.drum_input)
              Samples.planet_block 0 0 2 drum_defs_supported Hin Hrad)
    as (mb' & H & Hsum & _).
  exists mb'. split; [exact H | exact Hsum].
Defined.

Lemma gravity_func_spherical_witness :
  COORDINATE_SYSTEM Samples.tripathi_defs = "spherical_polar"%string /\
  within (getMBBounds Samples.tripathi_defs Samples.planet_block) 0 0 3 /\
  Gravity.g2
    (Gravity.gravity_func Samples.tripathi_defs false
       (Gravity.InitUserMeshData 6.674e-11 1e27 2e30 1e8 3)
       Samples.planet_block
       {| Gravity.g1 := fun _ _ _ => 1;
          Gravity.g2 := fun _ _ _ => 1;
          Gravity.g3 := fun _ _ _ => 1 |}) 0%Z 0%Z 3%Z = 0.
Proof.
  assert (Hin : within
                  (getMBBounds Samples.tripathi_defs Samples.planet_block)
                  0 0 3).
  { unfold within. cbn. lia. }
  split; [reflexivity|]. split; [exact Hin|].
  exact (proj1 (proj2
    (proj1 (gravity_func_spherical Samples.tripathi_defs false
              (Gravity.InitUserMeshData 6.674e-11 1e27 2e30 1e8 3)
              Samples.planet_block
              {| Gravity.g1 := fun _ _ _ => 1;
                 Gravity.g2 := fun _ _ _ => 1;
                 Gravity.g3 := fun _ _ _ => 1 |} 0 0 3 eq_refl) Hin))).
Defined.

End DrumSamples2.

Section GravityAxis.
Import Tripathi.
Local Open Scope R_scope.

(** X24.  The two branches of [gravity_func] agree where they meet.  Over
    the reals and in Cartesian coordinates, a cell of the loop bounds that
    lies on the axis from the planet to the star, between the two, gets the
    acceleration the spherical branch computes from its first coordinate:
    the second and third components are zero, and the first is the
    attraction of the planet, with the radius held at [0.5 * Rp] below that
    value, plus the tidal term of the star. *)
Theorem gravity_func_axis
    (d : Defs) (unset : bool) (g : Gravity.Globals) (mb : MeshBlock)
    (acc : Gravity.Acceleration) (k j i : Z) :
  COORDINATE_SYSTEM d = "cartesian"%string ->
  within (getMBBounds d mb) k j i ->
  x2v mb j = 0 -> x3v mb k = 0 ->
  0 <= x1v mb i <= Gravity.a g ->
  let acc' := Gravity.gravity_func d unset g mb acc in
  let x := x1v mb i in
  let r := Rmax x (0.5 * Gravity.Rp g) in
  let GMs := Gravity.G g * Gravity.Ms g in
  Gravity.g1 acc' k j i
  = Gravity.G g * Gravity.Mp g / Rpower r 3 * (- x)
    + (GMs / Rpower (Gravity.a g - x) 3 - GMs / Rpower (Gravity.a g) 3)
      * (Gravity.a g - x) /\
  Gravity.g2 acc' k j i = 0 /\
  Gravity.g3 acc' k j i = 0.
Proof.
  intros Hsys Hcell Hy Hz Hx. cbv zeta.
  assert (Hfold : Gravity.gravity_func d unset g mb acc
                  = fold_left
                      (fun a x =>
                         uncurry3 (Gravity.gravity_cell false g mb) x a)
                      (cells_kji (getMBBounds d mb)) acc).
  { unfold Gravity.gravity_func. rewrite Hsys.
    change (String.eqb "cartesian" "cartesian") with true.
    cbv iota. unfold cells_kji. now rewrite <- for_loop_nest3. }
  rewrite Hfold.
  destruct (gravity_func_cells d g mb false acc k j i) as [Hin _].
  cbv zeta in Hin. specialize (Hin Hcell). injection Hin as H1 H2 H3.
  rewrite H1, H2, H3. clear H1 H2 H3 Hfold.
  unfold Gravity.gravity_cell, Gravity.position.
  cbn [Gravity.g1 Gravity.g2 Gravity.g3 Gravity.x Gravity.y Gravity.z
       Gravity.r Gravity.rs].
  rewrite !set3_same.
  cbn [rq radd rsub rmul rdiv rneg rpow rltb rsqrt R_ops].
  rewrite Q2R_lit_3, Hy, Hz.
  replace (Q2R 0.5) with 0.5 by (unfold Q2R; cbn [Qnum Qden]; lra).
  replace (x1v mb i * x1v mb i + 0 * 0 + 0 * 0)
    with (x1v mb i * x1v mb i) by ring.
  replace ((Gravity.a g - x1v mb i) * (Gravity.a g - x1v mb i)
           + 0 * 0 + 0 * 0)
    with ((Gravity.a g - x1v mb i) * (Gravity.a g - x1v mb i)) by ring.
  rewrite (sqrt_square (x1v mb i)) by lra.
  rewrite (sqrt_square (Gravity.a g - x1v mb i)) by lra.
  assert (Hr : (if Rltb (x1v mb i) (0.5 * Gravity.Rp g)
                then 0.5 * Gravity.Rp g else x1v mb i)
               = Rmax (x1v mb i) (0.5 * Gravity.Rp g)).
  { unfold Rltb, Rmax.
    destruct (Rlt_dec _ _); destruct (Rle_dec _ _); lra. }
  rewrite Hr. split; [reflexivity|]. split; ring.
Qed.

Lemma gravity_func_axis_witness :
  COORDINATE_SYSTEM MoreSamples.cartesian_defs = "cartesian"%string /\
  within (getMBBounds MoreSamples.cartesian_defs Samples.planet_block)
    0 0 3 /\
  x2v Samples.planet_block 0%Z = 0 /\ x3v Samples.planet_block 0%Z = 0 /\
  0 <= x1v Samples.planet_block 3%Z <= Gravity.a MoreSamples.planet_orbit /\
  Gravity.g2
    (Gravity.gravity_func MoreSamples.cartesian_defs false
       MoreSamples.planet_orbit Samples.planet_block
       {| Gravity.g1 := fun _ _ _ => 1;
          Gravity.g2 := fun _ _ _ => 1;
          Gravity.g3 := fun _ _ _ => 1 |}) 0%Z 0%Z 3%Z = 0.
Proof.
  assert (Hin : within
                  (getMBBounds MoreSamples.cartesian_defs
                     Samples.planet_block) 0 0 3).
  { unfold within. cbn. lia. }
  assert (Hx : 0 <= x1v Samples.planet_block 3%Z
               <= Gravity.a MoreSamples.planet_orbit).
  { change (0 <= IZR 3 * 2.5e7 <= 1e10). lra. }
  split; [reflexivity|]. split; [exact Hin|].
  split; [reflexivity|]. split; [reflexivity|]. split; [exact Hx|].
  exact (proj1 (proj2
    (gravity_func_axis MoreSamples.cartesian_defs false
       MoreSamples.planet_orbit Samples.planet_block
       {| Gravity.g1 := fun _ _ _ => 1;
          Gravity.g2 := fun _ _ _ => 1;
          Gravity.g3 := fun _ _ _ => 1 |} 0 0 3 eq_refl Hin eq_refl eq_refl
       Hx))).
Defined.

End GravityAxis.
